(** * Trajectory pipeline: normalization, metrics and ranking

    A shallow embedding of [trajectory_metrics.cpp] and of the pure and
    state-passing parts of [trajectory_inference.cpp].

    The C++ code computes in [float].  Every function below is written once,
    over an interface [FloatOps] of the operations the code uses, and is then
    read at two instances:
    - [binary32]: IEEE 754 single precision, round to nearest even, built on
      the Standard Library's [SpecFloat] (what the compiled code computes, up
      to the contraction of multiply-add which the model does not perform);
    - [R]: exact real arithmetic, the idealisation in which the formulas of
      the header comments are stated. *)

From Stdlib Require Import Decimal DecimalNat DecimalString.
From Stdlib Require Import Ascii String.
From Stdlib Require Import ZArith List Bool Arith Lia Permutation Sorted.
From Stdlib Require Import SpecFloat.
From Stdlib Require Import Reals Lra.
Import ListNotations.

Set Implicit Arguments.

(** ** The arithmetic the code uses *)

Class FloatOps (F : Type) : Type := {
  fadd : F -> F -> F;
  fsub : F -> F -> F;
  fmul : F -> F -> F;
  fdiv : F -> F -> F;
  fsqrt : F -> F;              (* std::sqrt *)
  facos : F -> F;              (* std::acos *)
  flt : F -> F -> bool;        (* operator< *)
  of_size : nat -> F;          (* conversion of a size_t or int operand *)
  flit : Z -> nat -> F         (* the decimal literal m * 10^-k *)
}.

Declare Scope float_scope.
Delimit Scope float_scope with fl.
Infix "+" := fadd : float_scope.
Infix "-" := fsub : float_scope.
Infix "*" := fmul : float_scope.
Infix "/" := fdiv : float_scope.
Infix "<?" := flt : float_scope.

(** [a > b] is [b < a], as for the built-in operator. *)
Definition fgt {F} `{FloatOps F} (a b : F) : bool := flt b a.
Infix ">?" := fgt : float_scope.

(** [for (size_t i = lo; i < hi; ++i) s = body i s].  Sizes and indices are
    [nat]: every subtraction the source makes on them is guarded by a size
    check, so no wrap-around arises. *)
Definition for_loop {S : Type} (lo hi : nat) (body : nat -> S -> S) (s : S) : S :=
  fold_left (fun acc i => body i acc) (seq lo (hi - lo)) s.

(** [v[i] = a], for [i] within bounds. *)
Fixpoint assign {A : Type} (v : list A) (i : nat) (a : A) : list A :=
  match v, i with
  | [], _ => []
  | _ :: v', O => a :: v'
  | b :: v', S i' => b :: assign v' i' a
  end.

Section Model.

Context {F : Type} `{FloatOps F}.
Open Scope float_scope.

Definition f0 : F := flit 0 0.          (* 0.0f *)
Definition f1 : F := flit 1 0.          (* 1.0f *)
Definition f2 : F := flit 2 0.          (* 2.0f *)
Definition f100 : F := flit 100 0.      (* 100.0f *)
Definition feps : F := flit 1 6.        (* 1e-6f *)
Definition fneg1 : F := flit (-1) 0.    (* -1.0f *)

(** [std::min(a, b)] is [(b < a) ? b : a]; [std::max(a, b)] is
    [(a < b) ? b : a]. *)
Definition fmin (a b : F) : F := if b <? a then b else a.
Definition fmax (a b : F) : F := if a <? b then b else a.

(** ** Data model (trajectory_inference.h) *)

Record Waypoint : Type := mkWaypoint { x : F; y : F; z : F }.

(** [Waypoint()] *)
Definition Waypoint0 : Waypoint := mkWaypoint f0 f0 f0.

Definition Trajectory : Type := list Waypoint.

(** [trajectory[i]]; every use below is within bounds. *)
Definition at_ (t : Trajectory) (i : nat) : Waypoint := nth i t Waypoint0.

(** [trajectory.front()] and [trajectory.back()] *)
Definition front (t : Trajectory) : Waypoint := at_ t 0.
Definition back (t : Trajectory) : Waypoint := at_ t (length t - 1).

(** [std::sqrt(dx*dx + dy*dy + dz*dz)] *)
Definition norm3 (dx dy dz : F) : F := fsqrt (dx * dx + dy * dy + dz * dz).

End Model.

Arguments Waypoint F : clear implicits.
Arguments Trajectory F : clear implicits.

(** ** trajectory_metrics.cpp *)

Module Metrics.

Section Metrics.

Context {F : Type} `{FloatOps F}.
Open Scope float_scope.

Definition computePathLength (t : Trajectory F) : F :=
  if (length t <? 2)%nat then f0 else
  for_loop 0 (length t - 1) (fun i len =>
    let p1 := at_ t i in
    let p2 := at_ t (i + 1) in
    let dx := x p2 - x p1 in
    let dy := y p2 - y p1 in
    let dz := z p2 - z p1 in
    len + norm3 dx dy dz) f0.

Definition computeStraightLineDistance (t : Trajectory F) : F :=
  if (length t <? 2)%nat then f0 else
  let start := front t in
  let end_ := back t in
  let dx := x end_ - x start in
  let dy := y end_ - y start in
  let dz := z end_ - z start in
  norm3 dx dy dz.

Definition computePathEfficiency (t : Trajectory F) : F :=
  if (length t <? 2)%nat then f1 else
  let straight_line := computeStraightLineDistance t in
  let path_length := computePathLength t in
  if path_length <? feps then f0 else
  straight_line / path_length.

Definition computeCurvatures (t : Trajectory F) : list F :=
  if (length t <? 3)%nat then [] else
  for_loop 1 (length t - 1) (fun i curvatures =>
    let p_prev := at_ t (i - 1) in
    let p_curr := at_ t i in
    let p_next := at_ t (i + 1) in
    let v1_x := x p_curr - x p_prev in
    let v1_y := y p_curr - y p_prev in
    let v1_z := z p_curr - z p_prev in
    let norm1 := norm3 v1_x v1_y v1_z in
    let v2_x := x p_next - x p_curr in
    let v2_y := y p_next - y p_curr in
    let v2_z := z p_next - z p_curr in
    let norm2 := norm3 v2_x v2_y v2_z in
    if (norm1 >? feps) && (norm2 >? feps) then
      let dot := v1_x * v2_x + v1_y * v2_y + v1_z * v2_z in
      let cos_angle := dot / (norm1 * norm2) in
      let cos_angle := fmax fneg1 (fmin f1 cos_angle) in
      let angle := facos cos_angle in
      let curvature := angle / norm1 in
      curvatures ++ [curvature]
    else curvatures) [].

(** [std::accumulate(v.begin(), v.end(), 0.0f)] *)
Definition accumulate (v : list F) : F := fold_left fadd v f0.

(** [*std::max_element(v.begin(), v.end())] on a non-empty vector: the first
    largest element under [operator<]. *)
Definition max_element (v0 : F) (v : list F) : F :=
  fold_left (fun largest c => if largest <? c then c else largest) v v0.

Definition computeAverageCurvature (t : Trajectory F) : F :=
  let curvatures := computeCurvatures t in
  match curvatures with
  | [] => f0
  | _ => accumulate curvatures / of_size (length curvatures)
  end.

Definition computeMaxCurvature (t : Trajectory F) : F :=
  match computeCurvatures t with
  | [] => f0
  | c :: cs => max_element c cs
  end.

Definition computeSmoothnessScore (t : Trajectory F) : F :=
  let avg_curvature := computeAverageCurvature t in
  f1 / (f1 + avg_curvature).

Definition computeEndpointError (t : Trajectory F) (expected_end : Waypoint F) : F :=
  match t with
  | [] => f0
  | _ =>
    let actual_end := back t in
    let dx := x actual_end - x expected_end in
    let dy := y actual_end - y expected_end in
    let dz := z actual_end - z expected_end in
    norm3 dx dy dz
  end.

Definition computeAverageVelocity (t : Trajectory F) : F :=
  if (length t <? 2)%nat then f0 else
  let total_velocity :=
    for_loop 0 (length t - 1) (fun i total =>
      let p1 := at_ t i in
      let p2 := at_ t (i + 1) in
      let dx := x p2 - x p1 in
      let dy := y p2 - y p1 in
      let dz := z p2 - z p1 in
      total + norm3 dx dy dz) f0 in
  total_velocity / of_size (length t - 1).

Definition computeSecondOrderSmoothness (t : Trajectory F) : F :=
  if (length t <? 3)%nat then f0 else
  let smoothness_loss :=
    for_loop 1 (length t - 1) (fun i loss =>
      let p_prev := at_ t (i - 1) in
      let p_curr := at_ t i in
      let p_next := at_ t (i + 1) in
      let ax := x p_next - f2 * x p_curr + x p_prev in
      let ay := y p_next - f2 * y p_curr + y p_prev in
      let az := z p_next - f2 * z p_curr + z p_prev in
      loss + (ax * ax + ay * ay + az * az)) f0 in
  smoothness_loss / of_size (length t - 2).

(** [struct TrajectoryMetrics] (trajectory_metrics.h) *)
Record TrajectoryMetrics : Type := mkMetrics {
  path_length : F;
  straight_line_distance : F;
  path_efficiency : F;
  avg_curvature : F;
  max_curvature : F;
  smoothness_score : F;
  endpoint_error : F;
  min_altitude : F;
  max_altitude : F;
  avg_altitude : F;
  avg_velocity : F
}.

(** The default constructor [TrajectoryMetrics()]. *)
Definition TrajectoryMetrics0 : TrajectoryMetrics :=
  mkMetrics f0 f0 f0 f0 f0 f0 f0 f0 f0 f0 f0.

(** The altitude loop of [evaluateTrajectory]: state is
    [(min_altitude, max_altitude, sum_altitude)]. *)
Definition altitude_loop (t : Trajectory F) : F * F * F :=
  fold_left (fun '(mn, mx, sum) wp => (fmin mn (z wp), fmax mx (z wp), sum + z wp))
            t (z (at_ t 0), z (at_ t 0), f0).

Definition evaluateTrajectory (t : Trajectory F) (expected_end : Waypoint F)
  : TrajectoryMetrics :=
  match t with
  | [] => TrajectoryMetrics0
  | _ =>
    let '(mn, mx, sum_altitude) := altitude_loop t in
    {| path_length := computePathLength t;
       straight_line_distance := computeStraightLineDistance t;
       path_efficiency := computePathEfficiency t;
       avg_curvature := computeAverageCurvature t;
       max_curvature := computeMaxCurvature t;
       smoothness_score := computeSmoothnessScore t;
       endpoint_error := computeEndpointError t expected_end;
       min_altitude := mn;
       max_altitude := mx;
       avg_altitude := sum_altitude / of_size (length t);
       avg_velocity := computeAverageVelocity t |}
  end.

(** The innermost loop of [computeDiversity] for one pair, followed by
    [distance /= min_len]. *)
Definition pair_distance (traj1 traj2 : Trajectory F) : F :=
  let min_len := Nat.min (length traj1) (length traj2) in
  let distance :=
    for_loop 0 min_len (fun k distance =>
      let dx := x (at_ traj1 k) - x (at_ traj2 k) in
      let dy := y (at_ traj1 k) - y (at_ traj2 k) in
      let dz := z (at_ traj1 k) - z (at_ traj2 k) in
      distance + norm3 dx dy dz) f0 in
  distance / of_size min_len.

(** State of the two outer loops: [(total_distance, n_pairs)].  [n_pairs] is
    an [int] in the source; it is kept unbounded here, which agrees with the
    source up to 65536 trajectories ([65536 * 65535 / 2 = 2147450880] pairs,
    below [INT_MAX]); from 65537 trajectories on the source's counter
    overflows and this model says nothing about it. *)
Definition computeDiversity (ts : list (Trajectory F)) : F :=
  if (length ts <? 2)%nat then f0 else
  let '(total_distance, n_pairs) :=
    for_loop 0 (length ts) (fun i st =>
      for_loop (i + 1) (length ts) (fun j '(total_distance, n_pairs) =>
        let traj1 := nth i ts [] in
        let traj2 := nth j ts [] in
        (total_distance + pair_distance traj1 traj2, S n_pairs)) st)
      (f0, 0%nat) in
  if (0 <? n_pairs)%nat then total_distance / of_size n_pairs else f0.

Definition isTrajectoryValid (t : Trajectory F)
    (max_curv min_alt max_alt : F) : bool :=
  match t with
  | [] => false
  | _ =>
    let traj_max_curvature := computeMaxCurvature t in
    if traj_max_curvature >? max_curv then false else
    forallb (fun wp => negb ((z wp <? min_alt) || (z wp >? max_alt))) t
  end.

(** The quality score computed in the loop of [rankTrajectories]. *)
Definition score (w1 w2 w3 : F) (t : Trajectory F) (expected_end : Waypoint F) : F :=
  let metrics := evaluateTrajectory t expected_end in
  w1 * path_efficiency metrics
  + w2 * smoothness_score metrics
  - w3 * (endpoint_error metrics / f100).

(** The vector [scores] after the first loop. *)
Definition scores (ts : list (Trajectory F)) (expected_end : Waypoint F)
    (w1 w2 w3 : F) : list (F * nat) :=
  for_loop 0 (length ts) (fun i scores =>
    scores ++ [(score w1 w2 w3 (nth i ts []) expected_end, i)]) [].

(** The lambda passed to [std::sort]: [a.first > b.first]. *)
Definition by_score (a b : F * nat) : bool := fst a >? fst b.

(** [rankTrajectories], over the library's [std::sort]. *)
Definition rankTrajectories
    (std_sort : (F * nat -> F * nat -> bool) -> list (F * nat) -> list (F * nat))
    (ts : list (Trajectory F)) (expected_end : Waypoint F) (w1 w2 w3 : F)
  : list nat :=
  map snd (std_sort by_score (scores ts expected_end w1 w2 w3)).

(** The default arguments [w1 = 0.3f, w2 = 0.5f, w3 = 0.2f] of the
    declaration in trajectory_metrics.h. *)
Definition w1_default : F := flit 3 1.
Definition w2_default : F := flit 5 1.
Definition w3_default : F := flit 2 1.

End Metrics.

Arguments TrajectoryMetrics F : clear implicits.

End Metrics.

(** ** The two instances of the arithmetic *)

(** IEEE 754 binary32 ([float] on the platforms the code targets): 24 bits
    of precision, exponent bound 128, round to nearest even. *)
Module B32.

Definition prec : Z := 24.
Definition emax : Z := 128.

Definition float : Type := spec_float.

(** The integer [m], rounded. *)
Definition of_Z (m : Z) : float := binary_normalize prec emax m 0 false.

(** The literal [m * 10^-k].  The quotient of two floats is correctly
    rounded, so this is the nearest float of the decimal as long as [m] and
    [10^k] are themselves floats ([|m| < 2^24], [k <= 10]), which covers
    every literal of the source. *)
Definition lit (m : Z) (k : nat) : float :=
  SFdiv prec emax (of_Z m) (of_Z (10 ^ Z.of_nat k)).

Definition is_nan (a : float) : bool :=
  match a with S754_nan => true | _ => false end.

Definition is_finite (a : float) : bool :=
  match a with S754_zero _ | S754_finite _ _ _ => true | _ => false end.

End B32.

(** [std::acos] is the C library's; the instance takes it as a parameter. *)
Definition binary32 (acos : B32.float -> B32.float) : FloatOps B32.float := {|
  fadd := SFadd B32.prec B32.emax;
  fsub := SFsub B32.prec B32.emax;
  fmul := SFmul B32.prec B32.emax;
  fdiv := SFdiv B32.prec B32.emax;
  fsqrt := SFsqrt B32.prec B32.emax;
  facos := acos;
  flt := SFltb;
  of_size := fun n => B32.of_Z (Z.of_nat n);
  flit := B32.lit
|}.

(** Exact arithmetic. *)
Definition Rltb (a b : R) : bool := if Rlt_dec a b then true else false.

#[global] Instance exact : FloatOps R := {|
  fadd := Rplus;
  fsub := Rminus;
  fmul := Rmult;
  fdiv := Rdiv;
  fsqrt := sqrt;
  facos := acos;
  flt := Rltb;
  of_size := INR;
  flit := fun m k => (IZR m / 10 ^ k)%R
|}.

(** ** Exceptions as values *)

Inductive exn : Type :=
  | runtime_error (what : string)   (* std::runtime_error *)
  | invalid_argument                (* what std::stof throws *)
  | length_error                    (* thrown by vector(n) / reserve(n) *)
  | Ort_Exception                   (* thrown by Ort::Session::Run *)
  | out_of_bounds.                  (* a read past the end of a buffer *)

Inductive result (A : Type) : Type :=
  | Ok (a : A)
  | Throw (e : exn).

Arguments Ok {A} a.
Arguments Throw {A} e.

Definition bind {A B : Type} (r : result A) (k : A -> result B) : result B :=
  match r with
  | Ok a => k a
  | Throw e => Throw e
  end.

Notation "x <- r ;; k" := (bind r (fun x => k))
  (at level 61, r at next level, right associativity).
Notation "' p <- r ;; k" := (bind r (fun p => k))
  (at level 61, p pattern, r at next level, right associativity).

(** ** The regular expressions of [parseNormalizationJSON]

    [mean_regex] and [std_regex] are ["KEY"\s*:\s*\[([\d\.\-\s,]+)\]].  No
    repeated class contains the character that must follow it, so a greedy
    match never backtracks to a shorter run and the matcher is a
    deterministic scan; [regex_search] returns capture group 1 of the
    leftmost match. *)
Module Regex.

Open Scope char_scope.

(** [\s] *)
Definition is_space (c : ascii) : bool :=
  let n := nat_of_ascii c in
  (n =? 32)%nat || ((9 <=? n)%nat && (n <=? 13)%nat).

(** [\d] *)
Definition is_digit (c : ascii) : bool :=
  let n := nat_of_ascii c in
  (48 <=? n)%nat && (n <=? 57)%nat.

(** [[\d\.\-\s,]] *)
Definition in_class (c : ascii) : bool :=
  is_digit c || Ascii.eqb c "." || Ascii.eqb c "-" || is_space c
  || Ascii.eqb c ",".

(** Strip the literal [p] from the front of [s]. *)
Fixpoint literal (p s : string) : option string :=
  match p with
  | EmptyString => Some s
  | String c p' =>
    match s with
    | String d s' => if Ascii.eqb c d then literal p' s' else None
    | EmptyString => None
    end
  end.

(** [\s*] *)
Fixpoint skip_spaces (s : string) : string :=
  match s with
  | String c s' => if is_space c then skip_spaces s' else s
  | EmptyString => s
  end.

(** The longest prefix inside the class, and the rest. *)
Fixpoint span_class (s : string) : string * string :=
  match s with
  | String c s' =>
    if in_class c then let '(run, rest) := span_class s' in (String c run, rest)
    else (EmptyString, s)
  | EmptyString => (EmptyString, s)
  end.

(** The double quote character. *)
Definition dquote : ascii := ascii_of_nat 34.

(** A match anchored at the front of [s]. *)
Definition match_here (key s : string) : option string :=
  match literal (String dquote (key ++ String dquote EmptyString)) s with
  | None => None
  | Some s1 =>
    match literal ":" (skip_spaces s1) with
    | None => None
    | Some s2 =>
      match literal "[" (skip_spaces s2) with
      | None => None
      | Some s3 =>
        match span_class s3 with
        | (EmptyString, _) => None
        | (run, rest) =>
          match literal "]" rest with
          | None => None
          | Some _ => Some run
          end
        end
      end
    end
  end.

(** [std::regex_search(content, match, re)] and then [match[1].str()]. *)
Fixpoint regex_search (key s : string) : option string :=
  match match_here key s with
  | Some run => Some run
  | None =>
    match s with
    | String _ s' => regex_search key s'
    | EmptyString => None
    end
  end.

(** The tokens that successive [std::getline(iss, token, ',')] calls
    extract: the pieces between commas; a call on an exhausted stream
    fails, so an empty string yields no token and a trailing comma no
    empty last token. *)
Fixpoint getline_tokens_aux (cur : string) (s : string) : list string :=
  match s with
  | EmptyString =>
    match cur with EmptyString => [] | _ => [cur] end
  | String c s' =>
    if Ascii.eqb c ","
    then cur :: getline_tokens_aux EmptyString s'
    else getline_tokens_aux (cur ++ String c EmptyString) s'
  end.

Definition getline_tokens (s : string) : list string :=
  getline_tokens_aux EmptyString s.

End Regex.

(** ** trajectory_inference.cpp *)

Module Inference.

(** [struct GeneratorConfig]; the [int] fields are kept as [Z]. *)
Record GeneratorConfig : Type := mkConfig {
  model_path : string;
  latent_dim : Z;
  seq_len : Z;
  num_threads : Z;
  use_gpu : bool
}.

(** [GeneratorConfig(path)] with the default member initialisers. *)
Definition GeneratorConfig_of_path (path : string) : GeneratorConfig :=
  mkConfig path 64 50 4 false.

(** [static_cast<unsigned int>(v)] *)
Definition to_uint32 (v : Z) : Z := v mod 2 ^ 32.

(** [static_cast<int>(v)] of an [int64_t] *)
Definition to_int32 (v : Z) : Z := (v + 2 ^ 31) mod 2 ^ 32 - 2 ^ 31.

Section Inference.

Context {F : Type} `{FloatOps F}.
Open Scope float_scope.

(** [std::array<float, 3>] *)
Record array3 : Type := mkArray3 { a0 : F; a1 : F; a2 : F }.

Definition aget (a : array3) (i : nat) : F :=
  match i with 0 => a0 a | 1 => a1 a | _ => a2 a end%nat.

(** [a[i] = v], for [i < 3]. *)
Definition aset (a : array3) (i : nat) (v : F) : array3 :=
  match i with
  | 0 => mkArray3 v (a1 a) (a2 a)
  | 1 => mkArray3 (a0 a) v (a2 a)
  | _ => mkArray3 (a0 a) (a1 a) v
  end%nat.

Record NormalizationParams : Type := mkNorm { mean : array3; std : array3 }.

(** The default constructor: [mean = {0,0,0}], [std = {1,1,1}]. *)
Definition NormalizationParams0 : NormalizationParams :=
  mkNorm (mkArray3 f0 f0 f0) (mkArray3 f1 f1 f1).

(** *** The world outside the program *)

(** The file system: [None] when [std::ifstream] cannot open the path. *)
Variable read_file : string -> option string.

(** [std::stof]: [None] when it throws ([std::invalid_argument] or
    [std::out_of_range], both caught as [std::exception]). *)
Variable stof : string -> option F.

(** The ONNX session.  [load_session] is the [Ort::Session] constructor
    ([None] when it throws); [session_run] is [Session::Run] on the three
    input tensors, giving the shape and the flat data of [output_tensors[0]]
    ([None] when it throws). *)
Variable Session : Type.
Variable load_session : string -> option Session.

Record Tensor : Type := mkTensor { shape : list Z; data : list F }.

Variable session_run : Session -> list F -> array3 -> array3 -> option Tensor.

(** [std::mt19937 gen(seed)] followed by draws of
    [std::normal_distribution<float>(0, 1)]: [normal_draw seed i] is draw
    number [i]. *)
Variable normal_draw : Z -> nat -> F.

(** *** parseNormalizationJSON *)

(** [while (std::getline(iss, token, ',') && idx < 3) a[idx++] = stof(token)]:
    the fourth token, if any, is read and dropped. *)
Fixpoint fill_array (tokens : list string) (idx : nat) (a : array3)
  : result array3 :=
  match tokens with
  | [] => Ok a
  | token :: rest =>
    if (idx <? 3)%nat then
      match stof token with
      | None => Throw invalid_argument
      | Some v => fill_array rest (S idx) (aset a idx v)
      end
    else Ok a
  end.

(** One [if (std::regex_search(...)) { ... }] block: the field keeps its
    value when the expression does not match. *)
Definition parse_field (key content : string) (a : array3) : result array3 :=
  match Regex.regex_search key content with
  | Some values => fill_array (Regex.getline_tokens values) 0 a
  | None => Ok a
  end.

Definition parseNormalizationJSON (filepath : string)
  : result NormalizationParams :=
  let params := NormalizationParams0 in
  match read_file filepath with
  | None =>
    Throw (runtime_error ("Failed to open normalization file: " ++ filepath))
  | Some content =>
    m <- parse_field "mean" content (mean params) ;;
    s <- parse_field "std" content (std params) ;;
    Ok (mkNorm m s)
  end.

(** *** class TrajectoryGenerator *)

Record TrajectoryGenerator : Type := mkGenerator {
  config_ : GeneratorConfig;
  norm_params_ : NormalizationParams;
  session_ : option Session;          (* std::unique_ptr<Ort::Session> *)
  rng_state_ : Z                      (* unsigned int *)
}.

(** The constructor; [now] is the value of [std::time(nullptr)].  The source
    appends the text of the [Ort::Exception] it caught ([e.what()]) to the
    message; that text is not modelled, the payload below is the fixed
    prefix only. *)
Definition new_TrajectoryGenerator (config : GeneratorConfig) (now : Z)
  : result TrajectoryGenerator :=
  match load_session (model_path config) with
  | None => Throw (runtime_error "Failed to load ONNX model: ")
  | Some s => Ok (mkGenerator config NormalizationParams0 (Some s) (to_uint32 now))
  end.

Definition isReady (g : TrajectoryGenerator) : bool :=
  match session_ g with Some _ => true | None => false end.

Definition getSeqLen (g : TrajectoryGenerator) : Z := seq_len (config_ g).

(** Returns the flag and the generator after the call: the parameters are
    assigned only when parsing did not throw. *)
Definition loadNormalization (g : TrajectoryGenerator) (norm_path : string)
  : bool * TrajectoryGenerator :=
  match parseNormalizationJSON norm_path with
  | Ok params =>
    (true, mkGenerator (config_ g) params (session_ g) (rng_state_ g))
  | Throw _ => (false, g)
  end.

Definition normalize (g : TrajectoryGenerator) (wp : Waypoint F) : array3 :=
  let n := norm_params_ g in
  mkArray3 ((x wp - aget (mean n) 0) / aget (std n) 0)
           ((y wp - aget (mean n) 1) / aget (std n) 1)
           ((z wp - aget (mean n) 2) / aget (std n) 2).

Definition denormalize (g : TrajectoryGenerator) (normalized : array3)
  : Waypoint F :=
  let n := norm_params_ g in
  mkWaypoint (aget normalized 0 * aget (std n) 0 + aget (mean n) 0)
             (aget normalized 1 * aget (std n) 1 + aget (mean n) 1)
             (aget normalized 2 * aget (std n) 2 + aget (mean n) 2).

(** [sampleLatent]: the vector is allocated first, zero-filled (a negative
    [latent_dim] converts to a size beyond [max_size] and the allocation
    throws), then the engine is seeded with [rng_state_], which is
    incremented modulo [2^32], and the vector is filled in index order. *)
Definition sampleLatent (g : TrajectoryGenerator)
  : result (list F * TrajectoryGenerator) :=
  let dim := latent_dim (config_ g) in
  if (dim <? 0)%Z then Throw length_error else
  let seed := rng_state_ g in
  let g' := mkGenerator (config_ g) (norm_params_ g) (session_ g)
                        (to_uint32 (seed + 1)) in
  let latent :=
    for_loop 0 (Z.to_nat dim)
      (fun i latent => assign latent i (normal_draw seed i))
      (repeat f0 (Z.to_nat dim)) in
  Ok (latent, g').

(** [output_data[i]] *)
Definition read (output_data : list F) (i : nat) : result F :=
  match nth_error output_data i with
  | Some v => Ok v
  | None => Throw out_of_bounds
  end.

(** The conversion loop of [runInference]. *)
Fixpoint convert_loop (g : TrajectoryGenerator) (output_data : list F)
    (i n : nat) (trajectory : Trajectory F) : result (Trajectory F) :=
  match n with
  | O => Ok trajectory
  | S n' =>
    n0 <- read output_data (i * 3 + 0) ;;
    n1 <- read output_data (i * 3 + 1) ;;
    n2 <- read output_data (i * 3 + 2) ;;
    convert_loop g output_data (S i) n'
      (trajectory ++ [denormalize g (mkArray3 n0 n1 n2)])
  end.

Definition runInference (g : TrajectoryGenerator) (s : Session)
    (latent : list F) (start end_ : Waypoint F) : result (Trajectory F) :=
  let start_norm := normalize g start in
  let end_norm := normalize g end_ in
  match session_run s latent start_norm end_norm with
  | None => Throw Ort_Exception
  | Some output =>
    match nth_error (shape output) 1 with
    | None => Throw out_of_bounds
    | Some d1 =>
      let seq_len := to_int32 d1 in
      (* trajectory.reserve(seq_len) *)
      if (seq_len <? 0)%Z then Throw length_error else
      convert_loop g (data output) 0 (Z.to_nat seq_len) []
    end
  end.

Definition generate (g : TrajectoryGenerator) (start end_ : Waypoint F)
  : result (Trajectory F * TrajectoryGenerator) :=
  match session_ g with
  | None => Throw (runtime_error "Generator not initialized")
  | Some s =>
    '(latent, g') <- sampleLatent g ;;
    t <- runInference g' s latent start end_ ;;
    Ok (t, g')
  end.

(** The loop of [generateMultiple]. *)
Fixpoint generate_loop (g : TrajectoryGenerator) (start end_ : Waypoint F)
    (n : nat) (trajectories : list (Trajectory F))
  : result (list (Trajectory F) * TrajectoryGenerator) :=
  match n with
  | O => Ok (trajectories, g)
  | S n' =>
    '(t, g') <- generate g start end_ ;;
    generate_loop g' start end_ n' (trajectories ++ [t])
  end.

Definition generateMultiple (g : TrajectoryGenerator) (start end_ : Waypoint F)
    (n_samples : Z) : result (list (Trajectory F) * TrajectoryGenerator) :=
  match session_ g with
  | None => Throw (runtime_error "Generator not initialized")
  | Some _ =>
    (* trajectories.reserve(n_samples) *)
    if (n_samples <? 0)%Z then Throw length_error else
    generate_loop g start end_ (Z.to_nat n_samples) []
  end.

(** *** Utility functions *)

Definition computePathLength (t : Trajectory F) : F :=
  for_loop 1 (length t) (fun i len =>
    let dx := x (at_ t i) - x (at_ t (i - 1)) in
    let dy := y (at_ t i) - y (at_ t (i - 1)) in
    let dz := z (at_ t i) - z (at_ t (i - 1)) in
    len + norm3 dx dy dz) f0.

Definition computeAverageCurvature (t : Trajectory F) : F :=
  if (length t <? 3)%nat then f0 else
  let curvatures :=
    for_loop 1 (length t - 1) (fun i curvatures =>
      let v1x := x (at_ t i) - x (at_ t (i - 1)) in
      let v1y := y (at_ t i) - y (at_ t (i - 1)) in
      let v1z := z (at_ t i) - z (at_ t (i - 1)) in
      let v2x := x (at_ t (i + 1)) - x (at_ t i) in
      let v2y := y (at_ t (i + 1)) - y (at_ t i) in
      let v2z := z (at_ t (i + 1)) - z (at_ t i) in
      let norm1 := norm3 v1x v1y v1z in
      let norm2 := norm3 v2x v2y v2z in
      if (norm1 >? feps) && (norm2 >? feps) then
        let dot := v1x * v2x + v1y * v2y + v1z * v2z in
        let cos_angle := dot / (norm1 * norm2) in
        let cos_angle := fmax fneg1 (fmin f1 cos_angle) in
        let angle := facos cos_angle in
        let curvature := angle / norm1 in
        curvatures ++ [curvature]
      else curvatures) [] in
  match curvatures with
  | [] => f0
  | _ => fold_left fadd curvatures f0 / of_size (length curvatures)
  end.

Definition computeSmoothnessScore (t : Trajectory F) : F :=
  let avg_curvature := computeAverageCurvature t in
  f1 / (f1 + avg_curvature).

End Inference.

Arguments array3 F : clear implicits.
Arguments NormalizationParams F : clear implicits.
Arguments Tensor F : clear implicits.
Arguments TrajectoryGenerator F Session : clear implicits.

End Inference.

(** ** Straight trajectories

    A trajectory is perfectly straight when its waypoints lie on one ray
    [p + s * d] at parameters [s] that never decrease along the path. *)

Definition on_ray (p d : Waypoint R) (s : R) : Waypoint R :=
  mkWaypoint (x p + s * x d)%R (y p + s * y d)%R (z p + s * z d)%R.

Definition nondecreasing (ss : list R) : Prop :=
  forall i j, i <= j < length ss -> (nth i ss 0 <= nth j ss 0)%R.

Definition straight (t : Trajectory R) : Prop :=
  exists p d ss, nondecreasing ss /\ t = map (on_ray p d) ss.

(** An instance of binary32 for computations in which [std::acos] is never
    called (no trajectory with three or more points is involved). *)
Definition acos_not_called (a : B32.float) : B32.float := S754_nan.

Definition binary32_no_acos : FloatOps B32.float := binary32 acos_not_called.

(** [std::abs(a - b) <= tol], the comparison a test of the round trip makes. *)
Definition within (tol a b : B32.float) : bool :=
  SFleb (SFabs (SFsub B32.prec B32.emax a b)) tol.

(** ** The contract of [std::sort]

    The C++ standard requires the comparator to be a strict weak ordering
    on the elements of the range, and then promises a permutation of the
    range in which no later element compares before an earlier one.  It
    promises nothing about the relative order of equivalent elements. *)

Section SortContract.

Context {A : Type}.

Definition strict_weak_order (comp : A -> A -> bool) (l : list A) : Prop :=
  (forall a, In a l -> comp a a = false)
  /\ (forall a b c, In a l -> In b l -> In c l ->
        comp a b = true -> comp b c = true -> comp a c = true)
  /\ (forall a b c, In a l -> In b l -> In c l ->
        comp a b = false -> comp b a = false ->
        comp b c = false -> comp c b = false ->
        comp a c = false /\ comp c a = false).

(** [a] may stand before [b] in the sorted range. *)
Definition not_after (comp : A -> A -> bool) (a b : A) : Prop := comp b a = false.

Definition std_sort_contract
    (std_sort : (A -> A -> bool) -> list A -> list A) : Prop :=
  forall comp l,
    strict_weak_order comp l ->
    Permutation l (std_sort comp l)
    /\ StronglySorted (not_after comp) (std_sort comp l).

(** Two sorts that meet the contract.  [insert] puts [v] in front of the
    first element that does not compare before it, hence in front of its
    equivalents. *)
Fixpoint insert (comp : A -> A -> bool) (v : A) (l : list A) : list A :=
  match l with
  | [] => [v]
  | u :: l' => if comp u v then u :: insert comp v l' else v :: l
  end.

(** Insertion from the right end: equivalent elements keep their order. *)
Definition insertion_sort (comp : A -> A -> bool) (l : list A) : list A :=
  fold_right (insert comp) [] l.

(** Insertion from the left end: equivalent elements come out reversed. *)
Definition insertion_sort_left (comp : A -> A -> bool) (l : list A) : list A :=
  fold_left (fun sorted v => insert comp v sorted) l [].

End SortContract.

(** The waypoint with integer coordinates [(a, b, c)], in binary32. *)
Definition waypoint (a b c : Z) : Waypoint B32.float :=
  mkWaypoint (B32.of_Z a) (B32.of_Z b) (B32.of_Z c).

(** ** The collaborators of the generator, for stating its properties *)

Section Collaborators.

Context {F : Type} `{FloatOps F} {Session : Type}.

(** The inference contract of the external model for a configuration: every
    run succeeds with an output whose dimension 1 is the configured
    sequence length and whose buffer holds three floats per waypoint. *)
Definition inference_contract
    (session_run : Session -> list F -> Inference.array3 F ->
                   Inference.array3 F -> option (Inference.Tensor F))
    (config : Inference.GeneratorConfig) : Prop :=
  forall s latent start_norm end_norm,
    exists output,
      session_run s latent start_norm end_norm = Some output
      /\ nth_error (Inference.shape output) 1 = Some (Inference.seq_len config)
      /\ length (Inference.data output)
         = 3 * Z.to_nat (Inference.seq_len config).

(** [n] successive calls of [sampleLatent]: the vectors drawn, in order. *)
Fixpoint sample_loop (normal_draw : Z -> nat -> F)
    (g : Inference.TrajectoryGenerator F Session) (n : nat)
  : result (list (list F) * Inference.TrajectoryGenerator F Session) :=
  match n with
  | O => Ok ([], g)
  | S n' =>
    '(latent, g') <- Inference.sampleLatent normal_draw g ;;
    '(latents, g'') <- sample_loop normal_draw g' n' ;;
    Ok (latent :: latents, g'')
  end.

(** The seed of call number [k] (from 0) after construction at time [now]. *)
Definition seed_of_call (state : Z) (k : nat) : Z :=
  Inference.to_uint32 (state + Z.of_nat k).

End Collaborators.

(** A fragment of [std::stof], enough to read the tokens of an array of
    unsigned integers: optional leading spaces, then decimal digits. *)
Fixpoint digits_value (s : string) (acc : option Z) : option Z :=
  match s with
  | String c s' =>
    if Regex.is_digit c then
      let v := Z.of_nat (nat_of_ascii c - 48) in
      digits_value s' (Some (match acc with Some a => 10 * a + v | None => v end)%Z)
    else acc
  | EmptyString => acc
  end.

Definition stof_unsigned (token : string) : option B32.float :=
  match digits_value (Regex.skip_spaces token) None with
  | Some v => Some (B32.of_Z v)
  | None => None
  end.

(** A file system with one file. *)
Definition one_file (path content : string) (p : string) : option string :=
  if String.eqb p path then Some content else None.

(** The text [{"KEY": [2, 2, 2]}]. *)
Definition json_one_field (key : string) : string :=
  let q := String Regex.dquote EmptyString in
  "{" ++ q ++ key ++ q ++ ": [2, 2, 2]}".

(** A deterministic stand-in for the model, for a sequence length of 2: the
    output is the normalized start followed by the normalized end. *)
Definition two_point_model {F : Type} (s : unit) (latent : list F)
    (start_norm end_norm : Inference.array3 F) : option (Inference.Tensor F) :=
  Some (Inference.mkTensor [1; 2; 3]%Z
          [Inference.a0 start_norm; Inference.a1 start_norm; Inference.a2 start_norm;
           Inference.a0 end_norm; Inference.a1 end_norm; Inference.a2 end_norm]).

(** A generator for [two_point_model], with the default normalization. *)
Definition two_point_generator : Inference.TrajectoryGenerator B32.float unit :=
  Inference.mkGenerator (Inference.mkConfig "model.onnx" 64 2 4 false)
    (@Inference.NormalizationParams0 _ binary32_no_acos) (Some tt) 0.

(** A loader that finds every model. *)
Definition always_loads (path : string) : option unit := Some tt.

(** ** GNU libstdc++'s [std::sort] (bits/stl_algo.h)

    Introsort: median-of-three quicksort on ranges longer than 16, then one
    insertion sort pass.  The vector is a list, iterators are indices.
    [None] stands for what the model does not cover: a read before the
    start of the vector, and the heap sort the library falls back to when
    the recursion depth [2 * lg n] is used up. *)
Module Libstdcxx.

Section Sort.

Context {A : Type}.
Variable comp : A -> A -> bool.
Variable filler : A.

Definition get (v : list A) (i : nat) : A := nth i v filler.

Definition iter_swap (v : list A) (i j : nat) : list A :=
  assign (assign v i (get v j)) j (get v i).

(** [__move_median_to_first(result, a, b, c, comp)] *)
Definition move_median_to_first (v : list A) (result a b c : nat) : list A :=
  if comp (get v a) (get v b) then
    if comp (get v b) (get v c) then iter_swap v result b
    else if comp (get v a) (get v c) then iter_swap v result c
    else iter_swap v result a
  else if comp (get v a) (get v c) then iter_swap v result a
  else if comp (get v b) (get v c) then iter_swap v result c
  else iter_swap v result b.

(** [while (comp(first, pivot)) ++first;] *)
Fixpoint scan_up (fuel : nat) (v : list A) (first pivot : nat) : option nat :=
  match fuel with
  | O => None
  | S fuel' =>
    if comp (get v first) (get v pivot) then scan_up fuel' v (S first) pivot
    else Some first
  end.

(** [while (comp(pivot, last)) --last;] *)
Fixpoint scan_down (v : list A) (last pivot : nat) : option nat :=
  if comp (get v pivot) (get v last) then
    match last with
    | O => None
    | S last' => scan_down v last' pivot
    end
  else Some last.

(** [__unguarded_partition(first, last, pivot, comp)] *)
Fixpoint unguarded_partition (fuel : nat) (v : list A) (first last pivot : nat)
  : option (list A * nat) :=
  match fuel with
  | O => None
  | S fuel' =>
    match scan_up (S (length v)) v first pivot, last with
    | Some first, S last =>
      match scan_down v last pivot with
      | Some last =>
        if negb (first <? last) then Some (v, first)
        else unguarded_partition fuel' (iter_swap v first last) (S first) last pivot
      | None => None
      end
    | _, _ => None
    end
  end.

(** [__unguarded_partition_pivot(first, last, comp)] *)
Definition unguarded_partition_pivot (v : list A) (first last : nat)
  : option (list A * nat) :=
  let mid := first + (last - first) / 2 in
  let v := move_median_to_first v first (first + 1) mid (last - 1) in
  unguarded_partition (S (length v)) v (first + 1) last first.

(** [__introsort_loop(first, last, depth_limit, comp)], [_S_threshold = 16] *)
Fixpoint introsort_loop (fuel : nat) (v : list A) (first last depth_limit : nat)
  : option (list A) :=
  match fuel with
  | O => None
  | S fuel' =>
    if 16 <? last - first then
      match depth_limit with
      | O => None
      | S depth_limit =>
        match unguarded_partition_pivot v first last with
        | Some (v, cut) =>
          match introsort_loop fuel' v cut last depth_limit with
          | Some v => introsort_loop fuel' v first cut depth_limit
          | None => None
          end
        | None => None
        end
      end
    else Some v
  end.

(** The loop of [__unguarded_linear_insert(last, comp)], [val] in hand. *)
Fixpoint linear_insert (val : A) (v : list A) (last : nat) : option (list A) :=
  match last with
  | O => None
  | S next =>
    if comp val (get v next)
    then linear_insert val (assign v last (get v next)) next
    else Some (assign v last val)
  end.

Definition unguarded_linear_insert (v : list A) (last : nat) : option (list A) :=
  linear_insert (get v last) v last.

(** One iteration of [__insertion_sort(first, last, comp)] at [i]. *)
Definition insertion_step (first : nat) (v : option (list A)) (i : nat)
  : option (list A) :=
  match v with
  | None => None
  | Some v =>
    if comp (get v i) (get v first) then
      (* val = *i; move_backward(first, i, i + 1); *first = val *)
      Some (firstn first v ++ get v i :: firstn (i - first) (skipn first v)
              ++ skipn (S i) v)
    else unguarded_linear_insert v i
  end.

Definition insertion_sort (v : list A) (first last : nat) : option (list A) :=
  fold_left (insertion_step first) (seq (first + 1) (last - (first + 1))) (Some v).

Definition unguarded_insertion_sort (v : list A) (first last : nat)
  : option (list A) :=
  fold_left (fun v i => match v with
                        | Some v => unguarded_linear_insert v i
                        | None => None
                        end)
            (seq first (last - first)) (Some v).

(** [__final_insertion_sort(first, last, comp)] *)
Definition final_insertion_sort (v : list A) (first last : nat) : option (list A) :=
  if 16 <? last - first then
    match insertion_sort v first (first + 16) with
    | Some v => unguarded_insertion_sort v (first + 16) last
    | None => None
    end
  else insertion_sort v first last.

End Sort.

(** [std::sort(v.begin(), v.end(), comp)] *)
Definition sort {A : Type} (comp : A -> A -> bool) (v : list A) : option (list A) :=
  match v with
  | [] => Some v
  | filler :: _ =>
    let n := length v in
    match introsort_loop comp filler (S n) v 0 n (Nat.log2 n * 2) with
    | Some v => final_insertion_sort comp filler v 0 n
    | None => None
    end
  end.

(** [sort] as a total function, for use where the model is defined. *)
Definition std_sort {A : Type} (comp : A -> A -> bool) (v : list A) : list A :=
  match sort comp v with
  | Some sorted => sorted
  | None => v
  end.

End Libstdcxx.

(** The unordered pairs of indices below [n], in the order the two loops of
    [computeDiversity] visit them. *)
Definition index_pairs (n : nat) : list (nat * nat) :=
  flat_map (fun i => map (pair i) (seq (i + 1) (n - (i + 1)))) (seq 0 n).

(** A waypoint whose three coordinates are finite (neither infinite nor NaN). *)
Definition finite_waypoint (w : Waypoint B32.float) : bool :=
  B32.is_finite (x w) && B32.is_finite (y w) && B32.is_finite (z w).

(** ** Segments *)

(** The length of the segment from [a] to [b], as every path loop of the
    source computes it: [dx = b.x - a.x], ..., [std::sqrt(dx*dx + dy*dy + dz*dz)]. *)
Definition segment {F : Type} `{FloatOps F} (a b : Waypoint F) : F :=
  norm3 (fsub (x b) (x a)) (fsub (y b) (y a)) (fsub (z b) (z a)).

(** ** The normalization file as the training side writes it

    [{"mean": [m1,m2,...], "std": [s1,s2,...]}], each array element a
    token: characters of the class [[\d\.\-\s,]] other than the comma. *)

Fixpoint all_chars (p : ascii -> bool) (s : string) : bool :=
  match s with
  | String c s' => p c && all_chars p s'
  | EmptyString => true
  end.

Definition is_token (s : string) : bool :=
  all_chars (fun c => Regex.in_class c && negb (Ascii.eqb c ",")) s.

(** A non-empty list of tokens of which the last is not empty. *)
Definition is_array (ts : list string) : bool :=
  forallb is_token ts && negb (String.eqb (last ts EmptyString) EmptyString).

(** The tokens, separated by commas. *)
Fixpoint join (ts : list string) : string :=
  match ts with
  | [] => EmptyString
  | t :: ts' =>
    match ts' with
    | [] => t
    | _ :: _ => t ++ "," ++ join ts'
    end
  end.

Definition render_field (key : string) (ts : list string) : string :=
  String Regex.dquote (key ++ String Regex.dquote (": [" ++ join ts ++ "]")).

Definition render_document (ms ss : list string) : string :=
  "{" ++ render_field "mean" ms ++ ", " ++ render_field "std" ss ++ "}".

(** ** trajectory_app.cpp

    The application includes trajectory_inference.h only: [computePathLength]
    and [computeSmoothnessScore] are the utility functions of
    trajectory_inference.cpp. *)

Module App.

Section App.

Context {F : Type} `{FloatOps F}.
Open Scope float_scope.

(** [struct TrajectoryRanking]; [index] is assigned from a [size_t]. *)
Record TrajectoryRanking : Type := mkRanking {
  index : nat;
  path_length : F;
  smoothness : F;
  efficiency : F;
  score : F
}.

(** [operator<]: [score > other.score]. *)
Definition ranking_lt (a b : TrajectoryRanking) : bool := score a >? score b.

Definition f1000 : F := flit 1000 0.    (* 1000.0f *)

(** [traj.back()] and [traj.front()] on an empty vector read outside it. *)
Definition computeQualityScore (traj : Trajectory F) : result F :=
  let length := Inference.computePathLength traj in
  let smoothness := Inference.computeSmoothnessScore traj in
  match traj with
  | [] => Throw out_of_bounds
  | _ =>
    let dx := x (back traj) - x (front traj) in
    let dy := y (back traj) - y (front traj) in
    let dz := z (back traj) - z (front traj) in
    let straight_dist := norm3 dx dy dz in
    let efficiency := if length >? f0 then straight_dist / length else f0 in
    let normalized_length := fmin f1 (f1000 / fmax f100 length) in
    let score := flit 5 1 * smoothness + flit 3 1 * efficiency
                 + flit 2 1 * normalized_length in
    Ok score
  end.

(** The body of the loop of [rankTrajectories] for index [i]. *)
Definition ranking_of (trajectories : list (Trajectory F)) (i : nat)
  : result TrajectoryRanking :=
  let traj := nth i trajectories [] in
  let path_length := Inference.computePathLength traj in
  let smoothness := Inference.computeSmoothnessScore traj in
  match traj with
  | [] => Throw out_of_bounds
  | _ =>
    let dx := x (back traj) - x (front traj) in
    let dy := y (back traj) - y (front traj) in
    let dz := z (back traj) - z (front traj) in
    let straight_dist := norm3 dx dy dz in
    let efficiency :=
      if path_length >? f0 then straight_dist / path_length else f0 in
    score <- computeQualityScore traj ;;
    Ok (mkRanking i path_length smoothness efficiency score)
  end.

Fixpoint rankings_loop (trajectories : list (Trajectory F)) (i n : nat)
    (rankings : list TrajectoryRanking) : result (list TrajectoryRanking) :=
  match n with
  | O => Ok rankings
  | S n' =>
    ranking <- ranking_of trajectories i ;;
    rankings_loop trajectories (S i) n' (rankings ++ [ranking])
  end.

(** [rankTrajectories], over the library's [std::sort]. *)
Definition rankTrajectories
    (std_sort : (TrajectoryRanking -> TrajectoryRanking -> bool) ->
                list TrajectoryRanking -> list TrajectoryRanking)
    (trajectories : list (Trajectory F)) : result (list TrajectoryRanking) :=
  rankings <- rankings_loop trajectories 0 (length trajectories) [] ;;
  Ok (std_sort ranking_lt rankings).

(** The selection loop of [main]:
    [for (i = 0; i < min(5, rankings.size()); ++i)
       top5_trajectories.push_back(all_trajectories[rankings[i].index])]. *)
Definition top5 (all_trajectories : list (Trajectory F))
    (rankings : list TrajectoryRanking) : list (Trajectory F) :=
  for_loop 0 (Nat.min 5 (length rankings)) (fun i top5_trajectories =>
    let rank := nth i rankings (mkRanking 0 f0 f0 f0 f0) in
    top5_trajectories ++ [nth (index rank) all_trajectories []]) [].

(** [struct AppConfig] with its default member initialisers. *)
Record AppConfig : Type := mkAppConfig {
  start : Waypoint F;
  end_ : Waypoint F;
  num_waypoints : Z;
  model_path : string;
  norm_path : string;
  output_file : string;
  enable_plot : bool;
  save_csv : bool
}.

Definition AppConfig0 : AppConfig :=
  mkAppConfig (mkWaypoint f0 f0 f100)
              (mkWaypoint (flit 800 0) (flit 600 0) (flit 200 0))
              50
              "../models/trajectory_generator.onnx"
              "../models/trajectory_generator_normalization.json"
              "trajectories.png" true false.

(** [std::stof] and [std::stoi]: [None] when they throw.  [parseArguments]
    is called outside the [try] block of [main], so the exception leaves the
    program. *)
Variable stof : string -> option F.
Variable stoi : string -> option Z.

Definition stof_or_throw (s : string) : result F :=
  match stof s with Some v => Ok v | None => Throw invalid_argument end.

Definition stoi_or_throw (s : string) : result Z :=
  match stoi s with Some v => Ok v | None => Throw invalid_argument end.

(** [parseArguments]: [args] is [argv[i..argc-1]], the arguments not yet
    consumed; [i + 3 >= argc] says that fewer than three follow [argv[i]].
    The configuration is updated in place, so it is returned also when the
    flag is [false]. *)
Fixpoint parseArguments (args : list string) (config : AppConfig)
  : result (bool * AppConfig) :=
  match args with
  | [] => Ok (true, config)
  | arg :: rest =>
    if String.eqb arg "--help" || String.eqb arg "-h" then Ok (false, config)
    else if String.eqb arg "--start" then
      match rest with
      | ax :: ay :: az :: rest' =>
        vx <- stof_or_throw ax ;;
        vy <- stof_or_throw ay ;;
        vz <- stof_or_throw az ;;
        parseArguments rest'
          (mkAppConfig (mkWaypoint vx vy vz) (end_ config) (num_waypoints config)
             (model_path config) (norm_path config) (output_file config)
             (enable_plot config) (save_csv config))
      | _ => Ok (false, config)
      end
    else if String.eqb arg "--end" then
      match rest with
      | ax :: ay :: az :: rest' =>
        vx <- stof_or_throw ax ;;
        vy <- stof_or_throw ay ;;
        vz <- stof_or_throw az ;;
        parseArguments rest'
          (mkAppConfig (start config) (mkWaypoint vx vy vz) (num_waypoints config)
             (model_path config) (norm_path config) (output_file config)
             (enable_plot config) (save_csv config))
      | _ => Ok (false, config)
      end
    else if String.eqb arg "--waypoints" then
      match rest with
      | a :: rest' =>
        n <- stoi_or_throw a ;;
        let config' :=
          mkAppConfig (start config) (end_ config) n
            (model_path config) (norm_path config) (output_file config)
            (enable_plot config) (save_csv config) in
        if (n <? 2)%Z || (200 <? n)%Z then Ok (false, config')
        else parseArguments rest' config'
      | [] => Ok (false, config)
      end
    else if String.eqb arg "--model" then
      match rest with
      | a :: rest' =>
        parseArguments rest'
          (mkAppConfig (start config) (end_ config) (num_waypoints config)
             a (norm_path config) (output_file config)
             (enable_plot config) (save_csv config))
      | [] => Ok (false, config)
      end
    else if String.eqb arg "--norm" then
      match rest with
      | a :: rest' =>
        parseArguments rest'
          (mkAppConfig (start config) (end_ config) (num_waypoints config)
             (model_path config) a (output_file config)
             (enable_plot config) (save_csv config))
      | [] => Ok (false, config)
      end
    else if String.eqb arg "--output" then
      match rest with
      | a :: rest' =>
        parseArguments rest'
          (mkAppConfig (start config) (end_ config) (num_waypoints config)
             (model_path config) (norm_path config) a
             (enable_plot config) (save_csv config))
      | [] => Ok (false, config)
      end
    else if String.eqb arg "--no-plot" then
      parseArguments rest
        (mkAppConfig (start config) (end_ config) (num_waypoints config)
           (model_path config) (norm_path config) (output_file config)
           false (save_csv config))
    else if String.eqb arg "--csv" then
      parseArguments rest
        (mkAppConfig (start config) (end_ config) (num_waypoints config)
           (model_path config) (norm_path config) (output_file config)
           (enable_plot config) true)
    else Ok (false, config)
  end.

End App.

Arguments TrajectoryRanking F : clear implicits.
Arguments AppConfig F : clear implicits.

Section Main.

Context {F : Type} `{FloatOps F} {Session : Type}.
Variable read_file : string -> option string.
Variable stof : string -> option F.
Variable load_session : string -> option Session.
Variable session_run :
  Session -> list F -> Inference.array3 F -> Inference.array3 F ->
  option (Inference.Tensor F).
Variable normal_draw : Z -> nat -> F.
Variable std_sort :
  (TrajectoryRanking F -> TrajectoryRanking F -> bool) ->
  list (TrajectoryRanking F) -> list (TrajectoryRanking F).

(** The [try] block of [main] from the construction of the generator to
    the end of the selection loop: the value of [top5_trajectories], or the
    exception that leaves the block.  [now] is the time of construction; a
    failed [loadNormalization] only prints a warning. *)
Definition main_top5 (config : AppConfig F) (now : Z)
  : result (list (Trajectory F)) :=
  let gen_config :=
    Inference.mkConfig (model_path config) 64 (num_waypoints config) 4 false in
  generator <- Inference.new_TrajectoryGenerator load_session gen_config now ;;
  let generator :=
    snd (Inference.loadNormalization read_file stof generator (norm_path config)) in
  let n_candidates := 10%Z in
  ' (all_trajectories, _) <-
    Inference.generateMultiple session_run normal_draw generator
      (start config) (end_ config) n_candidates ;;
  rankings <- rankTrajectories std_sort all_trajectories ;;
  Ok (top5 all_trajectories rankings).

End Main.

End App.

(** ** printTrajectoryStats (trajectory_inference.cpp)

    The five numbers it prints, in the order of the output lines.
    [trajectory.back()] and [trajectory.front()] on an empty vector read
    outside it. *)

Record TrajectoryStats (F : Type) : Type := mkStats {
  stats_path_length : F;
  stats_straight_dist : F;
  stats_efficiency : F;
  stats_avg_curvature : F;
  stats_smoothness : F
}.

Definition printTrajectoryStats {F : Type} `{FloatOps F} (trajectory : Trajectory F)
  : result (TrajectoryStats F) :=
  let path_length := Inference.computePathLength trajectory in
  let avg_curvature := Inference.computeAverageCurvature trajectory in
  let smoothness := Inference.computeSmoothnessScore trajectory in
  match trajectory with
  | [] => Throw out_of_bounds
  | _ =>
    let dx := fsub (x (back trajectory)) (x (front trajectory)) in
    let dy := fsub (y (back trajectory)) (y (front trajectory)) in
    let dz := fsub (z (back trajectory)) (z (front trajectory)) in
    let straight_dist := norm3 dx dy dz in
    let efficiency := fdiv straight_dist path_length in
    Ok (mkStats path_length straight_dist efficiency avg_curvature smoothness)
  end.



(** ** trajectory_plotter.cpp *)

Module Plotter.

Local Open Scope string_scope.

(** [std::to_string] of a [size_t] or a nonnegative [int], and [operator<<]
    of an [int]: decimal digits. *)
Definition to_string (n : nat) : string :=
  NilEmpty.string_of_uint (Nat.to_uint n).

Definition show_int (n : Z) : string := NilEmpty.string_of_int (Z.to_int n).

Definition newline : string := String (ascii_of_nat 10) EmptyString.

(** The files, by path.  Opening an [std::ofstream] on a path replaces the
    file; the plotter never checks a write, so a file that could be opened
    holds all that was written to it. *)
Definition FileSystem : Type := string -> option string.

Definition write (fs : FileSystem) (path content : string) : FileSystem :=
  fun p => if String.eqb p path then Some content else fs p.

(** [std::remove(path)], its result ignored. *)
Definition remove (fs : FileSystem) (path : string) : FileSystem :=
  fun p => if String.eqb p path then None else fs p.

(** [struct PlotConfig] with its default member initialisers. *)
Record PlotConfig : Type := mkPlotConfig {
  output_file : string;
  title : string;
  width : Z;
  height : Z;
  show_3d : bool;
  show_start_end : bool;
  save_data : bool
}.

Definition PlotConfig0 : PlotConfig :=
  mkPlotConfig "trajectories.png" "Generated Trajectories" 1200 900 true true true.

Section Plotter.

Context {F : Type} `{FloatOps F}.

(** [operator<<] of a [float] on a stream in its default format. *)
Variable show : F -> string.

(** Whether [std::ofstream file(path)] opens. *)
Variable can_create : string -> bool.

(** [std::system("gnuplot --version > /dev/null 2>&1")] *)
Variable gnuplot_version_status : Z.

(** [std::system("gnuplot /tmp/plot_script.gnu 2>&1")]: the status, and
    the files after the run. *)
Variable run_gnuplot : FileSystem -> Z * FileSystem.

Variable config_ : PlotConfig.

Definition isGnuplotAvailable : bool := (gnuplot_version_status =? 0)%Z.

Definition data_file_name (index : nat) : string :=
  "/tmp/trajectory_" ++ to_string index ++ ".dat".

Definition data_file_content (traj : Trajectory F) : string :=
  fold_left (fun file wp =>
    file ++ show (x wp) ++ " " ++ show (y wp) ++ " " ++ show (z wp) ++ newline)
    traj ("# X Y Z" ++ newline).

(** Returns the file name, empty when the file could not be created. *)
Definition writeTrajectoryData (traj : Trajectory F) (index : nat)
    (fs : FileSystem) : string * FileSystem :=
  let filename := data_file_name index in
  if negb (can_create filename) then (EmptyString, fs)
  else (filename, write fs filename (data_file_content traj)).

Definition csv_file_name (base_filename : string) (i : nat) : string :=
  base_filename ++ "_" ++ to_string (i + 1) ++ ".csv".

Definition csv_file_content (traj : Trajectory F) : string :=
  for_loop 0 (length traj) (fun j file =>
    let wp := at_ traj j in
    file ++ to_string j ++ "," ++ show (x wp) ++ "," ++ show (y wp) ++ ","
         ++ show (z wp) ++ newline)
    ("Waypoint,X,Y,Z" ++ newline).

Fixpoint saveToCSV_loop (trajectories : list (Trajectory F))
    (base_filename : string) (i n : nat) (fs : FileSystem)
  : bool * FileSystem :=
  match n with
  | O => (true, fs)
  | S n' =>
    let filename := csv_file_name base_filename i in
    if negb (can_create filename) then (false, fs)
    else saveToCSV_loop trajectories base_filename (S i) n'
           (write fs filename (csv_file_content (nth i trajectories [])))
  end.

Definition saveToCSV (trajectories : list (Trajectory F))
    (base_filename : string) (fs : FileSystem) : bool * FileSystem :=
  saveToCSV_loop trajectories base_filename 0 (length trajectories) fs.

Definition script_file : string := "/tmp/plot_script.gnu".

(** The continuation between two plot clauses: a comma, a backslash at the
    end of the line, and the indentation of the next. *)
Definition continuation : string :=
  ", " ++ String (ascii_of_nat 92) newline ++ "     ".

(** The label of plot clause [i]. *)
Definition label_of (labels : list string) (i : nat) : string :=
  match nth_error labels i with
  | Some (String c l) => String c l
  | _ => "Trajectory " ++ to_string (i + 1)
  end.

Definition plot_clauses (data_files labels : list string) (is_3d : bool)
    (script : string) : string :=
  for_loop 0 (length data_files) (fun i script =>
    let script := if (0 <? i)%nat then script ++ continuation else script in
    let label := label_of labels i in
    if is_3d then
      script ++ "'" ++ nth i data_files EmptyString
             ++ "' using 1:2:3 with lines lw 2 title '" ++ label ++ "'"
    else
      script ++ "'" ++ nth i data_files EmptyString
             ++ "' using 1:2 with lines lw 2 title '" ++ label ++ "'")
    script.

Definition script_content (data_files labels : list string)
    (start end_ : Waypoint F) (is_3d : bool) : string :=
  let script :=
    "set terminal pngcairo size " ++ show_int (width config_) ++ ","
    ++ show_int (height config_) ++ " enhanced font 'Arial,12'" ++ newline in
  let script :=
    script ++ "set output '" ++ output_file config_ ++ "'" ++ newline ++ newline in
  let script :=
    script ++ "set title '" ++ title config_ ++ "' font 'Arial,16'" ++ newline in
  let script :=
    if is_3d then
      script ++ "set xlabel 'X (m)' font 'Arial,12'" ++ newline
             ++ "set ylabel 'Y (m)' font 'Arial,12'" ++ newline
             ++ "set zlabel 'Z (m)' font 'Arial,12'" ++ newline
             ++ "set grid" ++ newline
             ++ "set key outside right top" ++ newline
             ++ "set view 60,30" ++ newline ++ newline
             ++ "splot "
    else
      script ++ "set xlabel 'X (m)' font 'Arial,12'" ++ newline
             ++ "set ylabel 'Y (m)' font 'Arial,12'" ++ newline
             ++ "set grid" ++ newline
             ++ "set key outside right top" ++ newline ++ newline
             ++ "plot " in
  let script := plot_clauses data_files labels is_3d script in
  let script :=
    if show_start_end config_ then
      if is_3d then
        script ++ continuation
               ++ "'-' using 1:2:3 with points pt 7 ps 2 lc rgb 'green' title 'Start'"
               ++ continuation
               ++ "'-' using 1:2:3 with points pt 7 ps 2 lc rgb 'red' title 'End'"
      else
        script ++ continuation
               ++ "'-' using 1:2 with points pt 7 ps 2 lc rgb 'green' title 'Start'"
               ++ continuation
               ++ "'-' using 1:2 with points pt 7 ps 2 lc rgb 'red' title 'End'"
    else script in
  let script := script ++ newline in
  if show_start_end config_ then
    if is_3d then
      script ++ show (x start) ++ " " ++ show (y start) ++ " " ++ show (z start)
             ++ newline ++ "e" ++ newline
             ++ show (x end_) ++ " " ++ show (y end_) ++ " " ++ show (z end_)
             ++ newline ++ "e" ++ newline
    else
      script ++ show (x start) ++ " " ++ show (y start) ++ newline
             ++ "e" ++ newline
             ++ show (x end_) ++ " " ++ show (y end_) ++ newline
             ++ "e" ++ newline
  else script.

Definition generateGnuplotScript (data_files labels : list string)
    (start end_ : Waypoint F) (is_3d : bool) (fs : FileSystem)
  : bool * FileSystem :=
  if negb (can_create script_file) then (false, fs) else
  let fs := write fs script_file
              (script_content data_files labels start end_ is_3d) in
  let '(result, fs) := run_gnuplot fs in
  if negb (result =? 0)%Z then (false, fs) else (true, fs).

(** The loop of [plot3D] and [plot2D] that writes the data files: [None]
    when it returns early. *)
Fixpoint data_files_loop (trajectories : list (Trajectory F)) (i n : nat)
    (data_files : list string) (fs : FileSystem)
  : option (list string) * FileSystem :=
  match n with
  | O => (Some data_files, fs)
  | S n' =>
    let '(file, fs) := writeTrajectoryData (nth i trajectories []) i fs in
    match file with
    | EmptyString => (None, fs)
    | _ => data_files_loop trajectories (S i) n' (data_files ++ [file])%list fs
    end
  end.

Definition plot3D (trajectories : list (Trajectory F)) (start end_ : Waypoint F)
    (labels : list string) (fs : FileSystem) : bool * FileSystem :=
  match trajectories with
  | [] => (false, fs)
  | _ =>
    if negb isGnuplotAvailable then (false, fs) else
    match data_files_loop trajectories 0 (length trajectories) [] fs with
    | (None, fs) => (false, fs)
    | (Some data_files, fs) =>
      let '(success, fs) :=
        generateGnuplotScript data_files labels start end_ true fs in
      let fs := fold_left remove data_files fs in
      let fs := remove fs "/tmp/plot_script.gnu" in
      (success, fs)
    end
  end.

Definition plot2D (trajectories : list (Trajectory F)) (start end_ : Waypoint F)
    (labels : list string) (fs : FileSystem) : bool * FileSystem :=
  match trajectories with
  | [] => (false, fs)
  | _ =>
    if negb isGnuplotAvailable then (false, fs) else
    match data_files_loop trajectories 0 (length trajectories) [] fs with
    | (None, fs) => (false, fs)
    | (Some data_files, fs) =>
      let '(success, fs) :=
        generateGnuplotScript data_files labels start end_ false fs in
      let fs := fold_left remove data_files fs in
      let fs := remove fs "/tmp/plot_script.gnu" in
      (success, fs)
    end
  end.

End Plotter.

End Plotter.

(** A rendered document whose [mean] array is the text [pre ++ c :: post]
    instead of a list of tokens. *)
Definition render_document_mean_text (mean_text : string) (ss : list string)
  : string :=
  "{" ++ String Regex.dquote ("mean" ++ String Regex.dquote (": [" ++ mean_text ++ "]"))
  ++ ", " ++ render_field "std" ss ++ "}".

(** * Properties *)

(** ** Loops *)

Section Loops.

Context {S : Type}.

Lemma for_loop_ext (lo hi : nat) (body body' : nat -> S -> S) (s : S) :
  (forall i acc, lo <= i < hi -> body i acc = body' i acc) ->
  for_loop lo hi body s = for_loop lo hi body' s.
Proof.
  unfold for_loop. intros Hext.
  assert (Hin : forall i, In i (seq lo (hi - lo)) -> lo <= i < hi).
  { intros i Hi. apply in_seq in Hi. lia. }
  revert s Hin. generalize (seq lo (hi - lo)) as l.
  induction l as [|i l IH]; intros s Hin; simpl; [reflexivity|].
  rewrite Hext by (apply Hin; left; reflexivity).
  apply IH. intros j Hj. apply Hin. right. exact Hj.
Qed.

Lemma for_loop_shift (lo hi : nat) (body : nat -> S -> S) (s : S) :
  for_loop (Datatypes.S lo) (Datatypes.S hi) body s
  = for_loop lo hi (fun i => body (Datatypes.S i)) s.
Proof.
  unfold for_loop. simpl Nat.sub. rewrite <- seq_shift.
  generalize (seq lo (hi - lo)) as l. intros l. revert s.
  induction l as [|i l IH]; intros s; simpl; [reflexivity|apply IH].
Qed.

End Loops.

(** A loop of [push_back] builds the image of its index range. *)
Lemma for_loop_push_back {A : Type} (lo hi : nat) (f : nat -> A) (init : list A) :
  for_loop lo hi (fun i acc => acc ++ [f i]) init
  = init ++ map f (seq lo (hi - lo)).
Proof.
  unfold for_loop. revert init.
  generalize (seq lo (hi - lo)) as l.
  induction l as [|i l IH]; intros init; simpl.
  - now rewrite app_nil_r.
  - rewrite IH, <- app_assoc. reflexivity.
Qed.

(** A loop of assignments over a vector of size [n] builds the image of
    [0..n-1]. *)
Lemma assign_middle {A : Type} (done rest : list A) (old new : A) (i : nat) :
  i = length done ->
  assign (done ++ old :: rest) i new = done ++ new :: rest.
Proof.
  intros ->.
  induction done as [|a done IH]; simpl; [reflexivity|now rewrite IH].
Qed.

Lemma for_loop_assign {A : Type} (n : nat) (f : nat -> A) (d : A) :
  for_loop 0 n (fun i v => assign v i (f i)) (repeat d n) = map f (seq 0 n).
Proof.
  unfold for_loop. rewrite Nat.sub_0_r.
  assert (Hgen : forall k, k <= n ->
            fold_left (fun v i => assign v i (f i)) (seq 0 k) (repeat d n)
            = map f (seq 0 k) ++ repeat d (n - k)).
  { induction k as [|k IH]; intros Hk.
    - simpl. now rewrite Nat.sub_0_r.
    - rewrite seq_S, fold_left_app, IH by lia. simpl.
      replace (n - k) with (S (n - S k)) by lia. simpl.
      rewrite assign_middle by (now rewrite length_map, length_seq).
      rewrite map_app, <- app_assoc. reflexivity. }
  rewrite Hgen, Nat.sub_diag by lia. simpl. apply app_nil_r.
Qed.

(** ** The two implementations of the utility metrics agree *)

Section Duplicates.

Context {F : Type} `{FloatOps F}.

Lemma computePathLength_agree (t : Trajectory F) :
  Inference.computePathLength t = Metrics.computePathLength t.
Proof.
  unfold Inference.computePathLength, Metrics.computePathLength.
  destruct (length t) as [|n] eqn:Hlen.
  - reflexivity.
  - rewrite for_loop_shift.
    destruct n as [|n]; [reflexivity|].
    change (Datatypes.S (Datatypes.S n) <? 2)%nat with false.
    cbv beta iota. simpl Nat.sub.
    apply for_loop_ext. intros i acc _.
    rewrite Nat.add_1_r. simpl Nat.sub. rewrite Nat.sub_0_r. reflexivity.
Qed.

Lemma computeAverageCurvature_agree (t : Trajectory F) :
  Inference.computeAverageCurvature t = Metrics.computeAverageCurvature t.
Proof.
  unfold Inference.computeAverageCurvature, Metrics.computeAverageCurvature,
    Metrics.computeCurvatures, Metrics.accumulate.
  destruct (length t <? 3)%nat; reflexivity.
Qed.

Lemma computeSmoothnessScore_agree (t : Trajectory F) :
  Inference.computeSmoothnessScore t = Metrics.computeSmoothnessScore t.
Proof.
  unfold Inference.computeSmoothnessScore, Metrics.computeSmoothnessScore.
  now rewrite computeAverageCurvature_agree.
Qed.

End Duplicates.

(** C10. For every trajectory, over any arithmetic (so in particular in
    binary32 and in exact arithmetic), [computePathLength] and
    [computeAverageCurvature] of trajectory_inference.cpp return the same
    values as the functions of the same names of trajectory_metrics.cpp,
    and hence so do the two [computeSmoothnessScore]. *)
Theorem C10_duplicate_metrics_agree :
  forall (F : Type) (ops : FloatOps F) (t : Trajectory F),
    Inference.computePathLength t = Metrics.computePathLength t
    /\ Inference.computeAverageCurvature t = Metrics.computeAverageCurvature t
    /\ Inference.computeSmoothnessScore t = Metrics.computeSmoothnessScore t.
Proof.
  intros F ops t. split; [|split].
  - apply computePathLength_agree.
  - apply computeAverageCurvature_agree.
  - apply computeSmoothnessScore_agree.
Qed.

(** ** The empty trajectory *)

(** C9. For the empty trajectory and any expected end waypoint,
    [evaluateTrajectory] returns the default-constructed bundle, whose eleven
    fields are all [0.0f]; in particular its [smoothness_score] is [0.0f],
    although [computeSmoothnessScore] of the empty trajectory is [1.0f]. *)
Theorem C9_evaluate_empty_is_default :
  forall (acos : B32.float -> B32.float) (expected_end : Waypoint B32.float),
    let ops := binary32 acos in
    let zero := S754_zero false in
    let one := S754_finite false 8388608 (-23) in
    Metrics.evaluateTrajectory [] expected_end
    = Metrics.mkMetrics zero zero zero zero zero zero zero zero zero zero zero
    /\ Metrics.smoothness_score (Metrics.evaluateTrajectory [] expected_end) = zero
    /\ Metrics.computeSmoothnessScore [] = one
    /\ SFeqb one zero = false.
Proof.
  intros acos expected_end. cbv zeta.
  repeat split; vm_compute; reflexivity.
Qed.

(** The same holds over any arithmetic: the bundle is the default one, and
    the standalone score is [1 / (1 + 0)]. *)
Lemma evaluate_empty_generic {F : Type} `{FloatOps F} (expected_end : Waypoint F) :
  Metrics.evaluateTrajectory [] expected_end = Metrics.TrajectoryMetrics0
  /\ Metrics.computeSmoothnessScore [] = fdiv f1 (fadd f1 f0).
Proof. split; reflexivity. Qed.

(** ** Diversity *)

(** The documented defaults on the empty trajectory and on fewer than two
    trajectories, over any arithmetic. *)
Lemma degenerate_defaults {F : Type} `{FloatOps F} (expected_end : Waypoint F) :
  Metrics.computePathLength [] = f0
  /\ Metrics.computeStraightLineDistance [] = f0
  /\ Metrics.computePathEfficiency [] = f1
  /\ Metrics.computeCurvatures [] = []
  /\ Metrics.computeAverageCurvature [] = f0
  /\ Metrics.computeMaxCurvature [] = f0
  /\ Metrics.computeSecondOrderSmoothness [] = f0
  /\ Metrics.computeEndpointError [] expected_end = f0
  /\ Metrics.computeAverageVelocity [] = f0
  /\ (forall c lo hi, Metrics.isTrajectoryValid [] c lo hi = false)
  /\ Metrics.computeDiversity [] = f0
  /\ (forall t, Metrics.computeDiversity [t] = f0).
Proof. repeat split. Qed.

(** C3 (what the code does instead). [computeDiversity] is not guarded
    against an empty pair: it divides the summed distance of a pair by
    [min_len] unconditionally, so that on a set of two empty trajectories
    the division is [0.0f / 0] and the function returns NaN. *)
Theorem C3_diversity_of_empty_pair_is_nan :
  forall acos : B32.float -> B32.float,
    @Metrics.computeDiversity _ (binary32 acos) [[]; []] = S754_nan.
Proof. intros acos. vm_compute. reflexivity. Qed.

Lemma computeDiversity_few {F : Type} `{FloatOps F} (ts : list (Trajectory F)) :
  length ts < 2 -> Metrics.computeDiversity ts = f0.
Proof.
  intros Hlen. unfold Metrics.computeDiversity.
  destruct (Nat.ltb_spec (length ts) 2) as [_|Hge]; [reflexivity|lia].
Qed.

(** For exactly two trajectories the two outer loops visit the single pair
    (0, 1): the result is the mean per-index distance over the shorter
    length, divided by the pair count 1. *)
Lemma computeDiversity_pair {F : Type} `{FloatOps F} (t1 t2 : Trajectory F) :
  Metrics.computeDiversity [t1; t2]
  = fdiv (fadd f0 (Metrics.pair_distance t1 t2)) (of_size 1).
Proof. reflexivity. Qed.

(** C7 (what the code does instead). Two identical trajectories need not
    have diversity 0: for two empty trajectories the per-pair mean is
    [0.0f / 0], the result is NaN, and NaN compares unequal to [0.0f]. *)
Theorem C7_diversity_of_identical_empty_not_zero :
  forall acos : B32.float -> B32.float,
    let ops := binary32 acos in
    let t : Trajectory B32.float := [] in
    Metrics.pair_distance t t = S754_nan
    /\ SFeqb (Metrics.computeDiversity [t; t]) f0 = false.
Proof. intros acos. split; vm_compute; reflexivity. Qed.

(** *** Conversion of small integers to binary32 *)

Lemma digits2_pos_lower (p : positive) :
  (2 ^ (Z.pos (digits2_pos p) - 1) <= Z.pos p)%Z.
Proof.
  induction p as [p IH|p IH|]; simpl digits2_pos.
  - rewrite Pos2Z.inj_succ.
    replace (Z.succ (Z.pos (digits2_pos p)) - 1)%Z
      with (Z.succ (Z.pos (digits2_pos p) - 1))%Z by lia.
    rewrite Z.pow_succ_r by lia. lia.
  - rewrite Pos2Z.inj_succ.
    replace (Z.succ (Z.pos (digits2_pos p)) - 1)%Z
      with (Z.succ (Z.pos (digits2_pos p) - 1))%Z by lia.
    rewrite Z.pow_succ_r by lia. lia.
  - simpl. lia.
Qed.

Lemma digits2_pos_small (p : positive) :
  (Z.pos p < 2 ^ 24)%Z -> (Z.pos (digits2_pos p) <= 24)%Z.
Proof.
  intros Hp. pose proof (digits2_pos_lower p) as Hlow.
  destruct (Z.le_gt_cases (Z.pos (digits2_pos p)) 24) as [|Hgt]; [assumption|].
  assert (2 ^ 24 <= 2 ^ (Z.pos (digits2_pos p) - 1))%Z
    by (apply Z.pow_le_mono_r; lia).
  lia.
Qed.

Lemma digits2_pos_iter_xO (p k : positive) :
  digits2_pos (Pos.iter xO p k) = (digits2_pos p + k)%positive.
Proof.
  induction k as [|k IH] using Pos.peano_ind.
  - simpl. lia.
  - rewrite Pos.iter_succ. simpl. rewrite IH. lia.
Qed.

(** A mantissa of 24 digits with an exponent in range is already rounded. *)
Lemma binary_round_aux_canonical (s : bool) (m : positive) (e : Z) :
  digits2_pos m = 24%positive -> (-149 <= e <= 104)%Z ->
  binary_round_aux B32.prec B32.emax s (Z.pos m) e loc_Exact = S754_finite s m e.
Proof.
  intros Hd He. unfold binary_round_aux, shr_fexp, Zdigits2. rewrite Hd.
  assert (Hfexp : (fexp B32.prec B32.emax (24 + e) - e = 0)%Z).
  { unfold fexp, emin, B32.prec, B32.emax. lia. }
  rewrite Hfexp. cbn [shr shr_record_of_loc shr_m loc_of_shr_record round_nearest_even].
  unfold Zdigits2. rewrite Hd, Hfexp. cbn [shr shr_record_of_loc shr_m].
  destruct (Z.leb_spec e (B32.emax - B32.prec)) as [_|Hgt]; [reflexivity|].
  unfold B32.emax, B32.prec in Hgt. lia.
Qed.

(** Integers from 1 to [2^24 - 1] convert to finite nonzero floats. *)
Lemma of_Z_small (p : positive) :
  (Z.pos p < 2 ^ 24)%Z ->
  exists m e, B32.of_Z (Z.pos p) = S754_finite false m e.
Proof.
  intros Hp. pose proof (@digits2_pos_small p Hp) as Hd.
  unfold B32.of_Z, binary_normalize, binary_round.
  assert (Hfexp : fexp B32.prec B32.emax (Z.pos (digits2_pos p) + 0)
                  = (Z.pos (digits2_pos p) - 24)%Z).
  { unfold fexp, emin, B32.prec, B32.emax. lia. }
  rewrite Hfexp. unfold shl_align. rewrite Z.sub_0_r.
  destruct (Z.pos (digits2_pos p) - 24)%Z as [|k|k] eqn:Hk; try lia.
  - rewrite binary_round_aux_canonical; [eauto| |lia].
    apply Pos2Z.inj. lia.
  - rewrite binary_round_aux_canonical; [eauto| |lia].
    rewrite digits2_pos_iter_xO. lia.
Qed.

(** *** Identical trajectories, away from the defect *)

Lemma SFsub_diag (a : B32.float) :
  B32.is_finite a = true -> SFsub B32.prec B32.emax a a = S754_zero false.
Proof.
  destruct a as [[]|[]| |s m e]; try discriminate; try reflexivity.
  intros _. unfold SFsub. rewrite Z.sub_diag. reflexivity.
Qed.

Lemma for_loop_add_zero (lo hi : nat) :
  for_loop lo hi (fun _ acc => SFadd B32.prec B32.emax acc (S754_zero false))
           (S754_zero false)
  = S754_zero false.
Proof.
  unfold for_loop. induction (seq lo (hi - lo)) as [|i l IH]; simpl; auto.
Qed.

Lemma pair_distance_self (acos : B32.float -> B32.float)
    (t : Trajectory B32.float) :
  let ops := binary32 acos in
  Forall (fun w => finite_waypoint w = true) t ->
  1 <= length t -> (Z.of_nat (length t) < 2 ^ 24)%Z ->
  Metrics.pair_distance t t = S754_zero false.
Proof.
  intros ops Hfin Hne Hsmall. unfold Metrics.pair_distance.
  rewrite Nat.min_id.
  rewrite for_loop_ext
    with (body' := fun _ acc => SFadd B32.prec B32.emax acc (S754_zero false)).
  - change (@f0 _ ops) with (S754_zero false). rewrite for_loop_add_zero.
    destruct (length t) as [|n] eqn:Hn; [lia|].
    cbn [of_size ops binary32]. rewrite <- Hn in *.
    destruct (Z.of_nat (length t)) as [|p|p] eqn:Hp; try lia.
    destruct (@of_Z_small p Hsmall) as (m & e & ->). reflexivity.
  - intros i acc Hi. cbv zeta.
    assert (Hw : finite_waypoint (at_ t i) = true).
    { rewrite Forall_forall in Hfin. apply Hfin. apply nth_In. lia. }
    unfold finite_waypoint in Hw.
    apply andb_prop in Hw. destruct Hw as [Hw Hz].
    apply andb_prop in Hw. destruct Hw as [Hx Hy].
    cbn [fsub fadd ops binary32].
    rewrite !SFsub_diag by assumption. reflexivity.
Qed.

(** Two identical trajectories that are not empty, have fewer than [2^24]
    waypoints and only finite coordinates have diversity [0.0f]. *)
Lemma diversity_of_identical_finite (acos : B32.float -> B32.float)
    (t : Trajectory B32.float) :
  let ops := binary32 acos in
  Forall (fun w => finite_waypoint w = true) t ->
  1 <= length t -> (Z.of_nat (length t) < 2 ^ 24)%Z ->
  Metrics.computeDiversity [t; t] = S754_zero false.
Proof.
  intros ops Hfin Hne Hsmall.
  pose proof (@pair_distance_self acos t Hfin Hne Hsmall) as Hpd.
  cbv zeta in Hpd. subst ops.
  rewrite computeDiversity_pair, Hpd. reflexivity.
Qed.

(** ** Path efficiency *)

Lemma computePathEfficiency_cases {F : Type} `{FloatOps F} (t : Trajectory F) :
  (length t < 2 -> Metrics.computePathEfficiency t = f1)
  /\ (2 <= length t -> flt (Metrics.computePathLength t) feps = true ->
      Metrics.computePathEfficiency t = f0)
  /\ (2 <= length t -> flt (Metrics.computePathLength t) feps = false ->
      Metrics.computePathEfficiency t
      = fdiv (Metrics.computeStraightLineDistance t) (Metrics.computePathLength t)).
Proof.
  unfold Metrics.computePathEfficiency.
  destruct (Nat.ltb_spec (length t) 2) as [Hlt|Hge].
  - split; [reflexivity|split; lia].
  - split; [lia|]. split; intros _ Hcmp; rewrite Hcmp; reflexivity.
Qed.

(** *** Straight trajectories, in exact arithmetic *)

Section StraightExact.

Open Scope R_scope.

Variables p d : Waypoint R.

(** The length of the direction vector. *)
Let D : R := sqrt (x d * x d + y d * y d + z d * z d).

Lemma norm3_on_ray (s1 s2 : R) :
  s1 <= s2 ->
  norm3 (x (on_ray p d s2) - x (on_ray p d s1))%fl
        (y (on_ray p d s2) - y (on_ray p d s1))%fl
        (z (on_ray p d s2) - z (on_ray p d s1))%fl
  = (s2 - s1) * D.
Proof.
  intros Hle. unfold norm3, D. cbn.
  replace ((x p + s2 * x d - (x p + s1 * x d)) * (x p + s2 * x d - (x p + s1 * x d))
           + (y p + s2 * y d - (y p + s1 * y d)) * (y p + s2 * y d - (y p + s1 * y d))
           + (z p + s2 * z d - (z p + s1 * z d)) * (z p + s2 * z d - (z p + s1 * z d)))
    with ((s2 - s1) * (s2 - s1) * (x d * x d + y d * y d + z d * z d)) by ring.
  rewrite sqrt_mult_alt by nra.
  rewrite sqrt_square by lra. reflexivity.
Qed.

Lemma at_on_ray (ss : list R) (i : nat) :
  (i < length ss)%nat ->
  at_ (map (on_ray p d) ss) i = on_ray p d (nth i ss 0).
Proof.
  intros Hi. unfold at_.
  rewrite (nth_indep _ Waypoint0 (on_ray p d 0)) by (now rewrite length_map).
  apply map_nth.
Qed.

(** The path length telescopes. *)
Lemma path_sum_on_ray (ss : list R) (k : nat) :
  fold_left (fun acc i => acc + (nth (i + 1) ss 0 - nth i ss 0) * D) (seq 0 k) 0
  = (nth k ss 0 - nth 0 ss 0) * D.
Proof.
  induction k as [|k IH].
  - simpl. ring.
  - rewrite seq_S, fold_left_app, IH. simpl.
    rewrite Nat.add_1_r. ring.
Qed.

Lemma computePathLength_on_ray (ss : list R) :
  nondecreasing ss -> (2 <= length ss)%nat ->
  Metrics.computePathLength (map (on_ray p d) ss)
  = (nth (length ss - 1) ss 0 - nth 0 ss 0) * D.
Proof.
  intros Hmono Hlen. unfold Metrics.computePathLength.
  rewrite length_map.
  destruct (Nat.ltb_spec (length ss) 2) as [Hlt|_]; [lia|].
  rewrite for_loop_ext
    with (body' := fun i acc => acc + (nth (i + 1) ss 0 - nth i ss 0) * D).
  - unfold for_loop. rewrite Nat.sub_0_r.
    replace (@f0 R exact) with 0 by (unfold f0; simpl; field).
    apply path_sum_on_ray.
  - intros i acc Hi. cbv zeta.
    rewrite !at_on_ray by lia.
    rewrite norm3_on_ray by (apply Hmono; lia).
    reflexivity.
Qed.

Lemma computeStraightLineDistance_on_ray (ss : list R) :
  nondecreasing ss -> (2 <= length ss)%nat ->
  Metrics.computeStraightLineDistance (map (on_ray p d) ss)
  = (nth (length ss - 1) ss 0 - nth 0 ss 0) * D.
Proof.
  intros Hmono Hlen. unfold Metrics.computeStraightLineDistance, front, back.
  rewrite length_map.
  destruct (Nat.ltb_spec (length ss) 2) as [Hlt|_]; [lia|].
  cbv zeta. rewrite !at_on_ray by lia.
  apply norm3_on_ray. apply Hmono. lia.
Qed.

End StraightExact.

(** *** One segment, in binary32 *)

(** In binary32 the quotient of a finite nonzero float by itself is
    exactly [1.0f]. *)
Lemma SFdiv_diag (s : bool) (m : positive) (e : Z) :
  SFdiv B32.prec B32.emax (S754_finite s m e) (S754_finite s m e)
  = S754_finite false 8388608 (-23).
Proof.
  unfold SFdiv, SFdiv_core_binary.
  replace (Zdigits2 (Z.pos m) + e - (Zdigits2 (Z.pos m) + e))%Z with 0%Z by lia.
  rewrite Z.sub_diag.
  change (Z.min (fexp B32.prec B32.emax 0) 0) with (-24)%Z.
  change (0 - -24)%Z with 24%Z. cbv iota beta.
  rewrite Z.shiftl_mul_pow2 by lia.
  assert (Hdiv : Z.div_eucl (Z.pos m * 2 ^ 24) (Z.pos m) = (2 ^ 24, 0)%Z).
  { pose proof (Z_div_mod (Z.pos m * 2 ^ 24) (Z.pos m)) as Hdm.
    destruct (Z.div_eucl (Z.pos m * 2 ^ 24) (Z.pos m)) as [q r].
    destruct Hdm as [Heq Hr]; [lia|].
    assert (q = 2 ^ 24)%Z by nia. subst q. f_equal. lia. }
  rewrite Hdiv.
  assert (Hloc : new_location (Z.pos m) 0 = loc_Exact).
  { unfold new_location, new_location_even, new_location_odd.
    destruct (Z.even (Z.pos m)); reflexivity. }
  rewrite Hloc. destruct s; reflexivity.
Qed.

(** Hence a single segment of finite length has efficiency exactly [1.0f]
    in binary32, unless the guard sends it to [0.0f]. *)
Lemma segment_efficiency_binary32 (acos : B32.float -> B32.float)
    (a b : Waypoint B32.float) :
  let ops := binary32 acos in
  let len := norm3 (fsub (x b) (x a)) (fsub (y b) (y a)) (fsub (z b) (z a)) in
  B32.is_finite len = true ->
  Metrics.computePathEfficiency [a; b]
  = if SFltb len feps then S754_zero false else S754_finite false 8388608 (-23).
Proof.
  intros ops len Hfin.
  assert (Hlen : Metrics.computePathLength [a; b] = fadd f0 len) by reflexivity.
  assert (Hstraight : Metrics.computeStraightLineDistance [a; b] = len)
    by reflexivity.
  unfold Metrics.computePathEfficiency.
  rewrite Hlen, Hstraight. cbn [length Nat.ltb Nat.leb].
  change (@f0 _ ops) with (S754_zero false).
  change (@feps _ ops) with (S754_finite false 8796093 (-43)).
  cbn [fadd fdiv flt ops binary32].
  destruct len as [[]|[]| |s m e]; try discriminate; try reflexivity.
  change (SFadd B32.prec B32.emax (S754_zero false) (S754_finite s m e))
    with (S754_finite s m e).
  destruct (SFltb (S754_finite s m e) (S754_finite false 8796093 (-43)));
    [reflexivity|apply SFdiv_diag].
Qed.

(** C6, as amended. [computePathEfficiency] returns [1.0f] below two
    points, [0.0f] when there are at least two points and
    [path_length < 1e-6f], and [straight_line_distance / path_length]
    otherwise (over any arithmetic).  For a perfectly straight trajectory of
    two or more points the result is exactly 1 in exact arithmetic when the
    distance from its first to its last waypoint is at least [1e-6], and 0
    when it is shorter.  In binary32 a single segment whose computed length
    [sqrt (dx*dx + dy*dy + dz*dz)] is finite has efficiency exactly [1.0f]
    when that length is not below [1e-6f], and [0.0f] when it is.  The
    distances are written out in the arithmetic itself, not through the
    functions under test. *)
Theorem C6_computePathEfficiency :
  (forall (F : Type) (ops : FloatOps F) (t : Trajectory F),
      (length t < 2 -> Metrics.computePathEfficiency t = f1)
      /\ (2 <= length t -> flt (Metrics.computePathLength t) feps = true ->
          Metrics.computePathEfficiency t = f0)
      /\ (2 <= length t -> flt (Metrics.computePathLength t) feps = false ->
          Metrics.computePathEfficiency t
          = fdiv (Metrics.computeStraightLineDistance t)
                 (Metrics.computePathLength t)))
  /\ (forall t : Trajectory R,
        straight t ->
        2 <= length t ->
        let dx := (x (back t) - x (front t))%R in
        let dy := (y (back t) - y (front t))%R in
        let dz := (z (back t) - z (front t))%R in
        let dist := sqrt (dx * dx + dy * dy + dz * dz) in
        ((1 / 10 ^ 6 <= dist)%R -> Metrics.computePathEfficiency t = 1%R)
        /\ ((dist < 1 / 10 ^ 6)%R -> Metrics.computePathEfficiency t = 0%R))
  /\ (forall (acos : B32.float -> B32.float) (a b : Waypoint B32.float),
        let ops := binary32 acos in
        let dx := SFsub B32.prec B32.emax (x b) (x a) in
        let dy := SFsub B32.prec B32.emax (y b) (y a) in
        let dz := SFsub B32.prec B32.emax (z b) (z a) in
        let len :=
          SFsqrt B32.prec B32.emax
            (SFadd B32.prec B32.emax
               (SFadd B32.prec B32.emax (SFmul B32.prec B32.emax dx dx)
                                        (SFmul B32.prec B32.emax dy dy))
               (SFmul B32.prec B32.emax dz dz)) in
        B32.is_finite len = true ->
        Metrics.computePathEfficiency [a; b]
        = if SFltb len (B32.lit 1 6) then S754_zero false
          else S754_finite false 8388608 (-23)).
Proof.
  split; [|split].
  - intros F ops t. apply computePathEfficiency_cases.
  - intros t (p & d & ss & Hmono & ->) Hlen.
    rewrite length_map in Hlen.
    destruct (@computePathEfficiency_cases R exact (map (on_ray p d) ss))
      as (_ & Hzero & Hdiv).
    rewrite length_map in *.
    specialize (Hzero Hlen). specialize (Hdiv Hlen).
    pose proof (computeStraightLineDistance_on_ray p d Hmono Hlen) as Hstraight.
    assert (Hdist :
      sqrt ((x (back (map (on_ray p d) ss)) - x (front (map (on_ray p d) ss)))
            * (x (back (map (on_ray p d) ss)) - x (front (map (on_ray p d) ss)))
            + (y (back (map (on_ray p d) ss)) - y (front (map (on_ray p d) ss)))
              * (y (back (map (on_ray p d) ss)) - y (front (map (on_ray p d) ss)))
            + (z (back (map (on_ray p d) ss)) - z (front (map (on_ray p d) ss)))
              * (z (back (map (on_ray p d) ss)) - z (front (map (on_ray p d) ss))))%R
      = Metrics.computeStraightLineDistance (map (on_ray p d) ss)).
    { unfold Metrics.computeStraightLineDistance. rewrite length_map.
      destruct (Nat.ltb_spec (length ss) 2) as [Hlt|_]; [lia|]. reflexivity. }
    cbv zeta. rewrite Hdist, Hstraight.
    rewrite <- (computePathLength_on_ray p d Hmono Hlen).
    set (len := Metrics.computePathLength (map (on_ray p d) ss)) in *.
    assert (Heps : @feps R exact = (1 / 10 ^ 6)%R) by reflexivity.
    split.
    + intros Hlong.
      assert (Hguard : flt len feps = false).
      { cbn [flt exact]. unfold Rltb. rewrite Heps.
        destruct (Rlt_dec len (1 / 10 ^ 6)) as [Hlt|_]; [lra|reflexivity]. }
      rewrite (Hdiv Hguard), Hstraight.
      rewrite <- (computePathLength_on_ray p d Hmono Hlen). fold len.
      apply Rdiv_diag. intros Hnull. rewrite Hnull in Hlong.
      assert (0 < 1 / 10 ^ 6)%R by (apply Rdiv_lt_0_compat; simpl; lra). lra.
    + intros Hshort.
      assert (Hguard : flt len feps = true).
      { cbn [flt exact]. unfold Rltb. rewrite Heps.
        destruct (Rlt_dec len (1 / 10 ^ 6)) as [_|Hn]; [reflexivity|lra]. }
      rewrite (Hzero Hguard). unfold f0. cbn. field.
  - intros acos a b. exact (segment_efficiency_binary32 acos a b).
Qed.

(** The unit segment in exact arithmetic, and the 3-4-5 segment in
    binary32. *)
Lemma C6_computePathEfficiency_witness :
  Metrics.computePathEfficiency
    ([mkWaypoint 0 0 0; mkWaypoint 1 0 0]%R : Trajectory R) = 1%R
  /\ @Metrics.computePathEfficiency _ binary32_no_acos
       [waypoint 0 0 0; waypoint 3 4 0]
     = S754_finite false 8388608 (-23).
Proof.
  split.
  - assert (Hstraight :
      straight ([mkWaypoint 0 0 0; mkWaypoint 1 0 0]%R : Trajectory R)).
    { exists (mkWaypoint 0 0 0)%R, (mkWaypoint 1 0 0)%R, [0; 1]%R. split.
      - intros i j Hij. simpl in Hij.
        destruct i as [|[|i]], j as [|[|j]]; simpl; try lra; lia.
      - unfold on_ray. simpl. f_equal; [|f_equal]; f_equal; ring. }
    apply (proj1 (proj1 (proj2 C6_computePathEfficiency) _ Hstraight (le_n 2))).
    unfold back, front, at_. cbn [length Nat.sub nth x y z].
    replace ((1 - 0) * (1 - 0) + (0 - 0) * (0 - 0) + (0 - 0) * (0 - 0))%R
      with 1%R by ring.
    rewrite sqrt_1. simpl. lra.
  - apply (proj2 (proj2 C6_computePathEfficiency) acos_not_called
             (waypoint 0 0 0) (waypoint 3 4 0)).
    vm_compute. reflexivity.
Defined.

(** C6, as stated, fails in float arithmetic: the squares of the coordinate
    differences overflow long before the coordinates do.  In binary32, on
    the straight segment from the origin to [(2e19, 0, 0)] both distances
    are [+inf] and the efficiency is NaN; on the three evenly spaced points
    [0], [1e19], [2e19] of the x axis the path length is finite, the
    straight-line distance is [+inf] and so is the efficiency.  Neither is
    within a tolerance of [1.0f]. *)
Lemma C6_straight_overflow_counterexample :
  let ops := binary32_no_acos in
  let near := B32.of_Z (10 ^ 19) in
  let far := B32.of_Z (2 * 10 ^ 19) in
  let t2 := [waypoint 0 0 0; mkWaypoint far f0 f0] in
  let t3 := [waypoint 0 0 0; mkWaypoint near f0 f0; mkWaypoint far f0 f0] in
  B32.is_finite far = true
  /\ SFadd B32.prec B32.emax near near = far
  /\ Metrics.computePathEfficiency t2 = S754_nan
  /\ B32.is_finite (Metrics.computePathLength t3) = true
  /\ Metrics.computePathEfficiency t3 = S754_infinity false
  /\ (forall tol, within tol (Metrics.computePathEfficiency t2) f1 = false)
  /\ (forall tol, B32.is_finite tol = true ->
        within tol (Metrics.computePathEfficiency t3) f1 = false).
Proof.
  cbv zeta.
  split; [vm_compute; reflexivity|].
  split; [vm_compute; reflexivity|].
  split; [vm_compute; reflexivity|].
  split; [vm_compute; reflexivity|].
  split; [vm_compute; reflexivity|].
  split.
  - intros tol.
    replace (@Metrics.computePathEfficiency _ binary32_no_acos
               [waypoint 0 0 0;
                mkWaypoint (B32.of_Z (2 * 10 ^ 19)) (@f0 _ binary32_no_acos)
                           (@f0 _ binary32_no_acos)])
      with S754_nan by (vm_compute; reflexivity).
    reflexivity.
  - intros tol Htol.
    replace (@Metrics.computePathEfficiency _ binary32_no_acos
               [waypoint 0 0 0;
                mkWaypoint (B32.of_Z (10 ^ 19)) (@f0 _ binary32_no_acos)
                           (@f0 _ binary32_no_acos);
                mkWaypoint (B32.of_Z (2 * 10 ^ 19)) (@f0 _ binary32_no_acos)
                           (@f0 _ binary32_no_acos)])
      with (S754_infinity false) by (vm_compute; reflexivity).
    destruct tol as [s|s| |s m e]; try discriminate Htol; reflexivity.
Qed.

(** In binary32 the quotient of a straight trajectory is 1 up to rounding:
    exactly [1.0f] for the 3-4-5 segment, one unit in the last place above
    it for four collinear points on the diagonal. *)
Example path_efficiency_binary32 :
  let ops := binary32_no_acos in
  Metrics.computePathLength [waypoint 0 0 0; waypoint 3 4 0] = B32.of_Z 5
  /\ Metrics.computePathEfficiency [waypoint 0 0 0; waypoint 3 4 0] = B32.of_Z 1
  /\ Metrics.computePathEfficiency [waypoint 0 0 0; waypoint 1 1 1; waypoint 2 2 2; waypoint 5 5 5]
     = S754_finite false 8388609 (-23).
Proof. repeat split; vm_compute; reflexivity. Qed.

(** ** Normalization round trip *)

(** C2, as amended. In exact arithmetic [denormalize (normalize wp)] is
    [wp] whenever the three [std] components are nonzero. *)
Theorem C2_roundtrip_exact :
  forall (Session : Type) (g : Inference.TrajectoryGenerator R Session)
         (wp : Waypoint R),
    let std := Inference.std (Inference.norm_params_ g) in
    Inference.a0 std <> 0%R -> Inference.a1 std <> 0%R -> Inference.a2 std <> 0%R ->
    @Inference.denormalize R exact Session g
      (@Inference.normalize R exact Session g wp) = wp.
Proof.
  intros Session g [wx wy wz] std H0 H1 H2.
  unfold Inference.denormalize, Inference.normalize. cbn.
  fold std. f_equal; field; assumption.
Qed.

Lemma C2_roundtrip_exact_witness :
  let g := Inference.mkGenerator (Inference.GeneratorConfig_of_path "model.onnx")
             (Inference.mkNorm (Inference.mkArray3 400 300 150)
                               (Inference.mkArray3 250 200 50))%R
             (Some tt) 0 in
  let wp := (mkWaypoint 800 600 200)%R in
  @Inference.denormalize R exact unit g (@Inference.normalize R exact unit g wp) = wp.
Proof.
  cbv zeta. apply C2_roundtrip_exact; cbn; lra.
Defined.

(** C2, as stated, fails in binary32. With [mean = (4096, 0, 0)] and
    [std = (256, 1, 1)] the waypoint [(0.0001, 0, 0)] comes back as
    [(0, 0, 0)]: [0.0001f - 4096.0f] rounds to [-4096.0f], since floats just
    below 4096 are [2^-12] apart. The error [0.0001] is ten times the
    tolerance. *)
Lemma C2_roundtrip_binary32_counterexample :
  let ops := binary32_no_acos in
  let g := Inference.mkGenerator (Inference.GeneratorConfig_of_path "model.onnx")
             (Inference.mkNorm
                (Inference.mkArray3 (B32.lit 4096 0) (B32.lit 0 0) (B32.lit 0 0))
                (Inference.mkArray3 (B32.lit 256 0) (B32.lit 1 0) (B32.lit 1 0)))
             (Some tt) 0 in
  let wp := mkWaypoint (B32.lit 1 4) (B32.lit 0 0) (B32.lit 0 0) in
  let back := Inference.denormalize g (Inference.normalize g wp) in
  SFeqb (Inference.a0 (Inference.std (Inference.norm_params_ g))) f0 = false
  /\ SFeqb (Inference.a1 (Inference.std (Inference.norm_params_ g))) f0 = false
  /\ SFeqb (Inference.a2 (Inference.std (Inference.norm_params_ g))) f0 = false
  /\ Inference.a0 (Inference.normalize g wp) = B32.of_Z (-16)
  /\ x back = S754_zero false
  /\ within (B32.lit 1 5) (x back) (x wp) = false.
Proof. repeat split; vm_compute; reflexivity. Qed.

(** With parameters of the size the application works with,
    [mean = (400, 300, 150)] and [std = (250, 200, 50)], the waypoint
    [(0.2, 0, 100)] comes back with [x] off by about [1.22e-5]. *)
Example roundtrip_binary32_typical :
  let ops := binary32_no_acos in
  let g := Inference.mkGenerator (Inference.GeneratorConfig_of_path "model.onnx")
             (Inference.mkNorm
                (Inference.mkArray3 (B32.lit 400 0) (B32.lit 300 0) (B32.lit 150 0))
                (Inference.mkArray3 (B32.lit 250 0) (B32.lit 200 0) (B32.lit 50 0)))
             (Some tt) 0 in
  let wp := mkWaypoint (B32.lit 2 1) (B32.lit 0 0) (B32.lit 100 0) in
  let back := Inference.denormalize g (Inference.normalize g wp) in
  SFsub B32.prec B32.emax (x back) (x wp) = S754_finite false 13418496 (-40)
  /\ within (B32.lit 1 5) (x back) (x wp) = false.
Proof. split; vm_compute; reflexivity. Qed.

(** ** Comparison of floats *)

Ltac compare_cases :=
  repeat match goal with
  | |- context [Z.compare ?a ?b] => destruct (Z.compare_spec a b); subst
  | H : context [Z.compare ?a ?b] |- _ => destruct (Z.compare_spec a b); subst
  | |- context [Pos.compare_cont Eq ?a ?b] =>
    change (Pos.compare_cont Eq a b) with (Pos.compare a b);
    destruct (Pos.compare_spec a b); subst
  | H : context [Pos.compare_cont Eq ?a ?b] |- _ =>
    change (Pos.compare_cont Eq a b) with (Pos.compare a b) in H;
    destruct (Pos.compare_spec a b); subst
  end.

Lemma SFltb_irrefl (a : spec_float) : SFltb a a = false.
Proof.
  unfold SFltb, SFcompare. destruct a as [[]|[]| |[] m e]; try reflexivity;
    rewrite Z.compare_refl;
    change (Pos.compare_cont Eq m m) with (Pos.compare m m);
    rewrite Pos.compare_refl; reflexivity.
Qed.

Lemma SFltb_trans (a b c : spec_float) :
  SFltb a b = true -> SFltb b c = true -> SFltb a c = true.
Proof.
  unfold SFltb, SFcompare.
  destruct a as [[]|[]| |[] ma ea], b as [[]|[]| |[] mb eb],
           c as [[]|[]| |[] mc ec];
    try discriminate; try reflexivity; intros H1 H2;
    compare_cases; simpl in *; try discriminate; try reflexivity; try lia.
Qed.

(** Incomparability is transitive through a middle element that is not NaN. *)
Lemma SFltb_incomparable_trans (a b c : spec_float) :
  B32.is_nan b = false ->
  SFltb a b = false -> SFltb b a = false ->
  SFltb b c = false -> SFltb c b = false ->
  SFltb a c = false /\ SFltb c a = false.
Proof.
  unfold SFltb, SFcompare.
  destruct a as [[]|[]| |[] ma ea], b as [[]|[]| |[] mb eb],
           c as [[]|[]| |[] mc ec];
    simpl; try discriminate; try (split; reflexivity); intros _ H1 H2 H3 H4;
    compare_cases; simpl in *; try discriminate; try (split; reflexivity);
    try lia.
Qed.

(** Away from NaN, "not less" is "greater or equal". *)
Lemma SFltb_false_leb (a b : spec_float) :
  B32.is_nan a = false -> B32.is_nan b = false ->
  SFltb a b = false -> SFleb b a = true.
Proof.
  unfold SFltb, SFleb, SFcompare.
  destruct a as [[]|[]| |[] ma ea], b as [[]|[]| |[] mb eb];
    simpl; try discriminate; try reflexivity; intros _ _ H1;
    compare_cases; simpl in *; try discriminate; try reflexivity; try lia.
Qed.

(** ** Insertion sort meets the contract of [std::sort] *)

Section InsertionSort.

Context {A : Type}.
Variable comp : A -> A -> bool.

(** The elements being sorted, and the ordering axioms on them. *)
Variable dom : A -> Prop.
Hypothesis comp_irrefl : forall a, dom a -> comp a a = false.
Hypothesis comp_trans : forall a b c, dom a -> dom b -> dom c ->
  comp a b = true -> comp b c = true -> comp a c = true.
Hypothesis comp_equiv : forall a b c, dom a -> dom b -> dom c ->
  comp a b = false -> comp b a = false ->
  comp b c = false -> comp c b = false ->
  comp a c = false /\ comp c a = false.

Lemma comp_asym (a b : A) : dom a -> dom b -> comp a b = true -> comp b a = false.
Proof.
  intros Ha Hb Hab. destruct (comp b a) eqn:Hba; [|reflexivity].
  rewrite <- (comp_irrefl Ha). symmetry. now apply comp_trans with b.
Qed.

Lemma comp_negative_trans (a b c : A) :
  dom a -> dom b -> dom c ->
  comp a b = false -> comp b c = false -> comp a c = false.
Proof.
  intros Ha Hb Hc Hab Hbc.
  destruct (comp a c) eqn:Hac; [|reflexivity].
  destruct (comp b a) eqn:Hba.
  - rewrite <- Hbc. symmetry. now apply comp_trans with a.
  - destruct (comp c b) eqn:Hcb.
    + rewrite <- Hab. symmetry. now apply comp_trans with c.
    + destruct (comp_equiv Ha Hb Hc Hab Hba Hbc Hcb) as [Hac' _]. congruence.
Qed.

Lemma insert_perm (v : A) (l : list A) : Permutation (v :: l) (insert comp v l).
Proof.
  induction l as [|u l IH]; simpl; [reflexivity|].
  destruct (comp u v); [|reflexivity].
  rewrite perm_swap. now apply perm_skip.
Qed.

Lemma insert_sorted (v : A) (l : list A) :
  dom v -> Forall dom l ->
  StronglySorted (not_after comp) l ->
  StronglySorted (not_after comp) (insert comp v l).
Proof.
  intros Hv Hdom Hsorted.
  induction Hsorted as [|u l Hsorted IH Hu]; simpl.
  - repeat constructor.
  - inversion Hdom as [|? ? Hdu Hdl]; subst.
    destruct (comp u v) eqn:Huv.
    + constructor; [now apply IH|].
      apply (Permutation_Forall (insert_perm v l)).
      constructor; [|exact Hu].
      unfold not_after. now apply comp_asym.
    + constructor; [now constructor|].
      constructor; [exact Huv|].
      rewrite Forall_forall in Hu, Hdl |- *. intros w Hw.
      unfold not_after in *.
      apply comp_negative_trans with u; auto.
Qed.

End InsertionSort.

Section SortsMeetContract.

Context {A : Type}.

Lemma insertion_sort_meets_contract : std_sort_contract (@insertion_sort A).
Proof.
  intros comp l (Hirr & Htrans & Hequiv).
  set (dom := fun a => In a l).
  assert (Hgen : forall l', incl l' l ->
            Permutation l' (insertion_sort comp l')
            /\ StronglySorted (not_after comp) (insertion_sort comp l')).
  { induction l' as [|v l' IH]; intros Hincl; simpl.
    - split; constructor.
    - destruct IH as [Hperm Hsorted].
      { intros a Ha. apply Hincl. now right. }
      split.
      + rewrite <- insert_perm. now apply perm_skip.
      + apply insert_sorted with (dom := dom); auto.
        * apply Hincl. now left.
        * apply (Permutation_Forall Hperm). apply Forall_forall.
          intros a Ha. apply Hincl. now right. }
  apply Hgen. apply incl_refl.
Qed.

Lemma insertion_sort_left_meets_contract :
  std_sort_contract (@insertion_sort_left A).
Proof.
  intros comp l (Hirr & Htrans & Hequiv).
  set (dom := fun a => In a l).
  assert (Hgen : forall l' sorted,
            incl l' l -> Forall dom sorted ->
            StronglySorted (not_after comp) sorted ->
            let out := fold_left (fun sorted v => insert comp v sorted) l' sorted in
            Permutation (sorted ++ l') out
            /\ StronglySorted (not_after comp) out).
  { induction l' as [|v l' IH]; intros sorted Hincl Hdom Hsorted; simpl.
    - rewrite app_nil_r. split; [reflexivity|exact Hsorted].
    - assert (Hv : dom v) by (apply Hincl; now left).
      destruct (IH (insert comp v sorted)) as [Hperm Hout].
      + intros a Ha. apply Hincl. now right.
      + apply (Permutation_Forall (insert_perm comp v sorted)).
        now constructor.
      + apply insert_sorted with (dom := dom); auto.
      + split; [|exact Hout].
        rewrite <- Hperm, <- insert_perm.
        symmetry. apply Permutation_middle. }
  destruct (Hgen l [] (incl_refl l)) as [Hperm Hout]; [constructor..|].
  split; assumption.
Qed.

End SortsMeetContract.

Lemma StronglySorted_nth {A : Type} (R : A -> A -> Prop) (l : list A) (d : A) :
  StronglySorted R l ->
  forall i j, i < j < length l -> R (nth i l d) (nth j l d).
Proof.
  induction 1 as [|a l Hsorted IH Ha]; intros i j Hij; simpl in Hij; [lia|].
  destruct j as [|j]; [lia|]. destruct i as [|i]; simpl.
  - rewrite Forall_forall in Ha. apply Ha. apply nth_In. lia.
  - apply IH. lia.
Qed.

(** ** Ranking *)

Section Ranking.

Context {F : Type} `{FloatOps F}.

Variables (ts : list (Trajectory F)) (expected_end : Waypoint F) (w1 w2 w3 : F).

(** The score of candidate [i]. *)
Let sc (i : nat) : F := Metrics.score w1 w2 w3 (nth i ts []) expected_end.

Lemma scores_eq :
  Metrics.scores ts expected_end w1 w2 w3
  = map (fun i => (sc i, i)) (seq 0 (length ts)).
Proof.
  unfold Metrics.scores. rewrite for_loop_push_back, Nat.sub_0_r. reflexivity.
Qed.

Lemma scores_indices :
  map snd (Metrics.scores ts expected_end w1 w2 w3) = seq 0 (length ts).
Proof.
  rewrite scores_eq, map_map. simpl. apply map_id.
Qed.

Lemma in_scores (a : F * nat) :
  In a (Metrics.scores ts expected_end w1 w2 w3) ->
  snd a < length ts /\ fst a = sc (snd a).
Proof.
  rewrite scores_eq, in_map_iff. intros (i & <- & Hi).
  apply in_seq in Hi. simpl. split; [lia|reflexivity].
Qed.

End Ranking.

(** The comparator of [rankTrajectories] is a strict weak ordering on the
    score vector as soon as no score is NaN. *)
Lemma by_score_strict_weak_order (acos : B32.float -> B32.float)
    (ts : list (Trajectory B32.float)) (expected_end : Waypoint B32.float)
    (w1 w2 w3 : B32.float) :
  let ops := binary32 acos in
  (forall i, i < length ts ->
     B32.is_nan (Metrics.score w1 w2 w3 (nth i ts []) expected_end) = false) ->
  strict_weak_order Metrics.by_score (Metrics.scores ts expected_end w1 w2 w3).
Proof.
  intros ops Hnan. unfold Metrics.by_score, fgt. cbn [flt ops binary32].
  split; [|split].
  - intros a _. apply SFltb_irrefl.
  - intros a b c _ _ _ Hab Hbc. now apply SFltb_trans with (fst b).
  - intros a b c _ Hb _ Hab Hba Hbc Hcb.
    apply in_scores in Hb. destruct Hb as [Hlt Hfst].
    assert (Hb : B32.is_nan (fst b) = false) by (rewrite Hfst; now apply Hnan).
    destruct (SFltb_incomparable_trans (fst a) (fst b) (fst c)); auto.
Qed.

(** C1, as amended. For every [std::sort] that meets the standard's
    contract, every list of [n] candidates none of whose scores is NaN and
    every expected end waypoint, [rankTrajectories] returns a permutation of
    [0..n-1] along which the quality score
    [w1 * path_efficiency + w2 * smoothness_score - w3 * (endpoint_error / 100)]
    never increases (for any weights, the defaults 0.3, 0.5, 0.2 included).
    Nothing is promised about the order of candidates with equal scores. *)
Theorem C1_rankTrajectories_sorted_permutation :
  forall (std_sort : (B32.float * nat -> B32.float * nat -> bool) ->
                     list (B32.float * nat) -> list (B32.float * nat))
         (acos : B32.float -> B32.float)
         (ts : list (Trajectory B32.float)) (expected_end : Waypoint B32.float)
         (w1 w2 w3 : B32.float),
    let ops := binary32 acos in
    let sc i := Metrics.score w1 w2 w3 (nth i ts []) expected_end in
    let ranked := Metrics.rankTrajectories std_sort ts expected_end w1 w2 w3 in
    std_sort_contract std_sort ->
    (forall i, i < length ts -> B32.is_nan (sc i) = false) ->
    Permutation ranked (seq 0 (length ts))
    /\ (forall i j, i < j < length ts ->
          SFleb (sc (nth j ranked 0)) (sc (nth i ranked 0)) = true)
    /\ (forall i,
          sc i = let m := Metrics.evaluateTrajectory (nth i ts []) expected_end in
                 fsub (fadd (fmul w1 (Metrics.path_efficiency m))
                            (fmul w2 (Metrics.smoothness_score m)))
                      (fmul w3 (fdiv (Metrics.endpoint_error m) f100))).
Proof.
  intros std_sort acos ts expected_end w1 w2 w3 ops sc ranked Hsort Hnan.
  destruct (Hsort Metrics.by_score (Metrics.scores ts expected_end w1 w2 w3))
    as [Hperm Hsorted].
  { now apply by_score_strict_weak_order. }
  set (sorted := std_sort Metrics.by_score
                   (Metrics.scores ts expected_end w1 w2 w3)) in *.
  assert (Hin : forall a, In a sorted -> snd a < length ts /\ fst a = sc (snd a)).
  { intros a Ha. apply (in_scores ts expected_end w1 w2 w3).
    apply Permutation_in with sorted; [now symmetry|exact Ha]. }
  assert (Hlen : length sorted = length ts).
  { rewrite <- (Permutation_length Hperm), <- (length_map snd), scores_indices.
    apply length_seq. }
  split; [|split].
  - unfold ranked, Metrics.rankTrajectories. fold sorted.
    rewrite <- scores_indices with (expected_end := expected_end)
                                   (w1 := w1) (w2 := w2) (w3 := w3).
    symmetry. now apply Permutation_map.
  - intros i j Hij. unfold ranked, Metrics.rankTrajectories. fold sorted.
    change 0 with (snd (S754_nan, 0)). rewrite !map_nth.
    set (d := (S754_nan, 0)).
    assert (Hord : not_after Metrics.by_score (nth i sorted d) (nth j sorted d))
      by (apply StronglySorted_nth; [exact Hsorted|lia]).
    destruct (Hin (nth i sorted d)) as [Hi Hsi]; [apply nth_In; lia|].
    destruct (Hin (nth j sorted d)) as [Hj Hsj]; [apply nth_In; lia|].
    assert (Hle : SFleb (fst (nth j sorted d)) (fst (nth i sorted d)) = true).
    { apply SFltb_false_leb.
      - rewrite Hsi. now apply Hnan.
      - rewrite Hsj. now apply Hnan.
      - exact Hord. }
    rewrite Hsi, Hsj in Hle. exact Hle.
  - intros i. reflexivity.
Qed.

Lemma C1_rankTrajectories_sorted_permutation_witness :
  let ops := binary32_no_acos in
  let ts := [[waypoint 0 0 100; waypoint 800 600 150]; [waypoint 0 0 100; waypoint 800 600 200];
             [waypoint 0 0 100; waypoint 700 600 200]] in
  let expected_end := waypoint 800 600 200 in
  let sc i := Metrics.score Metrics.w1_default Metrics.w2_default
                Metrics.w3_default (nth i ts []) expected_end in
  let ranked := Metrics.rankTrajectories (@insertion_sort _) ts expected_end
                  Metrics.w1_default Metrics.w2_default Metrics.w3_default in
  Permutation ranked (seq 0 3)
  /\ (forall i j, i < j < 3 ->
        SFleb (sc (nth j ranked 0)) (sc (nth i ranked 0)) = true).
Proof.
  cbv zeta.
  refine (let H := @C1_rankTrajectories_sorted_permutation
                     (@insertion_sort _) acos_not_called _ _ _ _ _ _ _ in
          conj (proj1 H) (proj1 (proj2 H))).
  - apply insertion_sort_meets_contract.
  - intros i Hi. simpl in Hi.
    destruct i as [|[|[|i]]]; [vm_compute; reflexivity..|lia].
Defined.

(** On that input the ranking is: candidate 1 (which ends on the expected
    end), then 0, then 2. *)
Example rankTrajectories_three_candidates :
  let ops := binary32_no_acos in
  let ts := [[waypoint 0 0 100; waypoint 800 600 150]; [waypoint 0 0 100; waypoint 800 600 200];
             [waypoint 0 0 100; waypoint 700 600 200]] in
  Metrics.rankTrajectories (@insertion_sort _) ts (waypoint 800 600 200)
    Metrics.w1_default Metrics.w2_default Metrics.w3_default = [1; 0; 2].
Proof. vm_compute. reflexivity. Qed.

(** C1, as stated, fails on ties: the comparator sees the score only and
    [std::sort] need not keep equivalent elements in order.  Among identical
    candidates, whose scores are equal:
    - a sort that meets the contract of [std::sort] ranks two of them as
      [1; 0];
    - GNU libstdc++'s [std::sort] ranks seventeen of them starting with 8
      and 16 (the median-of-three step and the partition swap elements that
      compare equal), while it keeps sixteen in order, since vectors of at
      most 16 elements are sorted by insertion only. *)
Lemma C1_ties_not_broken_by_index_counterexample :
  let ops := binary32_no_acos in
  let t := [waypoint 0 0 100; waypoint 800 600 200] in
  let expected_end := waypoint 800 600 200 in
  let sc := Metrics.score Metrics.w1_default Metrics.w2_default
              Metrics.w3_default t expected_end in
  let rank std_sort n :=
    Metrics.rankTrajectories std_sort (repeat t n) expected_end
      Metrics.w1_default Metrics.w2_default Metrics.w3_default in
  SFeqb sc sc = true
  /\ std_sort_contract (@insertion_sort_left (B32.float * nat))
  /\ rank (@insertion_sort_left _) 2 = [1; 0]
  /\ Libstdcxx.sort Metrics.by_score
       (Metrics.scores (repeat t 17) expected_end
          Metrics.w1_default Metrics.w2_default Metrics.w3_default) <> None
  /\ rank (@Libstdcxx.std_sort _) 17
     = [8; 16; 15; 14; 13; 12; 11; 10; 9; 0; 7; 6; 5; 4; 3; 2; 1]
  /\ rank (@Libstdcxx.std_sort _) 16 = seq 0 16.
Proof.
  cbv zeta.
  split; [vm_compute; reflexivity|].
  split; [apply insertion_sort_left_meets_contract|].
  split; [vm_compute; reflexivity|].
  split; [vm_compute; discriminate|].
  split; vm_compute; reflexivity.
Qed.

(** ** Diversity is the average over the index pairs *)

Section DiversityAverage.

Context {F : Type} `{FloatOps F}.

Lemma nested_loops_pairs {S : Type} (n : nat) (step : nat -> nat -> S -> S)
    (init : S) :
  for_loop 0 n (fun i st => for_loop (i + 1) n (step i) st) init
  = fold_left (fun st p => step (fst p) (snd p) st) (index_pairs n) init.
Proof.
  unfold for_loop, index_pairs. rewrite Nat.sub_0_r.
  revert init. generalize (seq 0 n) as is_.
  induction is_ as [|i is_ IH]; intros init; simpl; [reflexivity|].
  rewrite fold_left_app, <- IH. f_equal.
  generalize (seq (i + 1) (n - (i + 1))) as js. intros js. revert init.
  induction js as [|j js IHj]; intros init; simpl; [reflexivity|apply IHj].
Qed.

Lemma sum_and_count (pd : nat * nat -> F) (ps : list (nat * nat))
    (total : F) (count : nat) :
  fold_left (fun (st : F * nat) p => let '(t, c) := st in (fadd t (pd p), S c))
            ps (total, count)
  = (fold_left fadd (map pd ps) total, count + length ps).
Proof.
  revert total count.
  induction ps as [|p ps IH]; intros total count; simpl.
  - now rewrite Nat.add_0_r.
  - rewrite IH. f_equal. lia.
Qed.

(** For at least two trajectories: the sum of the per-pair means over all
    pairs [i < j], divided by the number of pairs. *)
Lemma computeDiversity_average (ts : list (Trajectory F)) :
  2 <= length ts ->
  let pd p := Metrics.pair_distance (nth (fst p) ts []) (nth (snd p) ts []) in
  let ps := index_pairs (length ts) in
  Metrics.computeDiversity ts
  = if (0 <? length ps)%nat
    then fdiv (fold_left fadd (map pd ps) f0) (of_size (length ps))
    else f0.
Proof.
  intros Hlen pd ps. unfold Metrics.computeDiversity.
  destruct (Nat.ltb_spec (length ts) 2) as [Hlt|_]; [lia|].
  rewrite (nested_loops_pairs (length ts)
             (fun i j (st : F * nat) =>
                let '(total_distance, n_pairs) := st in
                (fadd total_distance
                      (Metrics.pair_distance (nth i ts []) (nth j ts [])),
                 S n_pairs))).
  fold ps.
  rewrite (sum_and_count pd ps f0 0). reflexivity.
Qed.

End DiversityAverage.

(** ** Loading the normalization parameters *)

Section Loading.

Import Inference.

Context {F : Type} `{FloatOps F} {Session : Type}.
Variable read_file : string -> option string.
Variable stof : string -> option F.

Lemma parse_field_absent (key content : string) (a : array3 F) :
  Regex.regex_search key content = None ->
  parse_field stof key content a = Ok a.
Proof. intros Hnone. unfold parse_field. now rewrite Hnone. Qed.

(** An unreadable file is reported, and the generator is left as it was. *)
Lemma loadNormalization_unreadable (g : TrajectoryGenerator F Session)
    (path : string) :
  read_file path = None ->
  loadNormalization read_file stof g path = (false, g).
Proof.
  intros Hnone. unfold loadNormalization, parseNormalizationJSON.
  now rewrite Hnone.
Qed.

(** An absent [std] is not reported either. *)
Lemma loadNormalization_std_absent (g : TrajectoryGenerator F Session)
    (path content : string) (m : array3 F) :
  read_file path = Some content ->
  parse_field stof "mean" content (mean NormalizationParams0) = Ok m ->
  Regex.regex_search "std" content = None ->
  loadNormalization read_file stof g path
  = (true, mkGenerator (config_ g) (mkNorm m (std NormalizationParams0))
                       (session_ g) (rng_state_ g)).
Proof.
  intros Hfile Hmean Hstd. unfold loadNormalization, parseNormalizationJSON.
  rewrite Hfile, Hmean. cbn [bind].
  rewrite (parse_field_absent _ _ _ Hstd). reflexivity.
Qed.

End Loading.

(** C4 (what the code does instead). An absent field is not reported: when
    the file is readable and has no [mean] field, [loadNormalization]
    returns [true] and installs parameters whose [std] is the parsed one and
    whose [mean] is the default [{0,0,0}]. *)
Theorem C4_absent_mean_loads_silently :
  forall (F : Type) (ops : FloatOps F) (Session : Type)
         (read_file : string -> option string) (stof : string -> option F)
         (g : Inference.TrajectoryGenerator F Session)
         (path content : string) (s : Inference.array3 F),
    read_file path = Some content ->
    Regex.regex_search "mean" content = None ->
    Inference.parse_field stof "std" content
      (Inference.std Inference.NormalizationParams0) = Ok s ->
    Inference.loadNormalization read_file stof g path
    = (true,
       Inference.mkGenerator (Inference.config_ g)
         (Inference.mkNorm (Inference.mkArray3 f0 f0 f0) s)
         (Inference.session_ g) (Inference.rng_state_ g)).
Proof.
  intros F ops Session read_file stof g path content s Hfile Hmean Hstd.
  unfold Inference.loadNormalization, Inference.parseNormalizationJSON.
  rewrite Hfile, (parse_field_absent _ _ _ _ Hmean). cbn [bind].
  rewrite Hstd. reflexivity.
Qed.

Lemma C4_absent_mean_loads_silently_witness :
  let ops := binary32_no_acos in
  let g := Inference.mkGenerator (Inference.GeneratorConfig_of_path "model.onnx")
             Inference.NormalizationParams0 (Some tt) 0 in
  Inference.loadNormalization
    (one_file "norm.json" (json_one_field "std")) stof_unsigned g "norm.json"
  = (true,
     Inference.mkGenerator (Inference.GeneratorConfig_of_path "model.onnx")
       (Inference.mkNorm
          (Inference.mkArray3 f0 f0 f0)
          (Inference.mkArray3 (B32.of_Z 2) (B32.of_Z 2) (B32.of_Z 2)))
       (Some tt) 0).
Proof.
  intros ops g.
  apply (@C4_absent_mean_loads_silently B32.float ops unit
           (one_file "norm.json" (json_one_field "std")) stof_unsigned
           g "norm.json" (json_one_field "std")
           (Inference.mkArray3 (B32.of_Z 2) (B32.of_Z 2) (B32.of_Z 2))).
  - reflexivity.
  - reflexivity.
  - reflexivity.
Defined.

(** The same file system, asked for a file that is not there: the failure
    is reported. *)
Example loadNormalization_missing_file :
  let ops := binary32_no_acos in
  let g := Inference.mkGenerator (Inference.GeneratorConfig_of_path "model.onnx")
             Inference.NormalizationParams0 (Some tt) 0 in
  Inference.loadNormalization
    (one_file "norm.json" (json_one_field "std")) stof_unsigned g "other.json"
  = (false, g).
Proof. reflexivity. Qed.

(** ** Generation *)

Section Generation.

Import Inference.

Context {F : Type} `{FloatOps F} {Session : Type}.
Variable session_run :
  Session -> list F -> array3 F -> array3 F -> option (Tensor F).
Variable normal_draw : Z -> nat -> F.

Lemma to_int32_small (v : Z) : (0 <= v < 2 ^ 31)%Z -> to_int32 v = v.
Proof.
  intros Hv. unfold to_int32.
  rewrite Z.mod_small by lia. lia.
Qed.

Lemma sampleLatent_ok (g : TrajectoryGenerator F Session) :
  (0 <= latent_dim (config_ g))%Z ->
  sampleLatent normal_draw g
  = Ok (map (normal_draw (rng_state_ g))
            (seq 0 (Z.to_nat (latent_dim (config_ g)))),
        mkGenerator (config_ g) (norm_params_ g) (session_ g)
                    (to_uint32 (rng_state_ g + 1))).
Proof.
  intros Hdim. unfold sampleLatent.
  destruct (Z.ltb_spec (latent_dim (config_ g)) 0) as [Hneg|_]; [lia|].
  rewrite for_loop_assign. reflexivity.
Qed.

(** The conversion loop succeeds when the buffer is long enough, and
    appends one waypoint per iteration. *)
Lemma convert_loop_ok (g : TrajectoryGenerator F Session) (output_data : list F)
    (n i : nat) (trajectory : Trajectory F) :
  3 * (i + n) <= length output_data ->
  exists t, convert_loop g output_data i n trajectory = Ok t
            /\ length t = length trajectory + n.
Proof.
  revert i trajectory.
  induction n as [|n IH]; intros i trajectory Hlen; simpl.
  - exists trajectory. split; [reflexivity|lia].
  - unfold read.
    destruct (nth_error output_data (i * 3 + 0)) as [n0|] eqn:H0;
      [|apply nth_error_None in H0; lia].
    destruct (nth_error output_data (i * 3 + 1)) as [n1|] eqn:H1;
      [|apply nth_error_None in H1; lia].
    destruct (nth_error output_data (i * 3 + 2)) as [n2|] eqn:H2;
      [|apply nth_error_None in H2; lia].
    cbn [bind].
    destruct (IH (S i) (trajectory ++ [denormalize g (mkArray3 n0 n1 n2)]))
      as (t & Ht & Hlt); [lia|].
    exists t. split; [exact Ht|].
    rewrite Hlt, length_app. simpl. lia.
Qed.

Lemma to_int32_int (v : Z) : (- 2 ^ 31 <= v < 2 ^ 31)%Z -> to_int32 v = v.
Proof.
  intros Hv. unfold to_int32.
  rewrite Z.mod_small by lia. lia.
Qed.

(** Whatever the buffer, a conversion that succeeds has appended [n]
    waypoints. *)
Lemma convert_loop_length (g : TrajectoryGenerator F Session)
    (output_data : list F) (n i : nat) (trajectory t : Trajectory F) :
  convert_loop g output_data i n trajectory = Ok t ->
  length t = length trajectory + n.
Proof.
  revert i trajectory.
  induction n as [|n IH]; intros i trajectory Hloop; simpl in Hloop.
  - injection Hloop as <-. lia.
  - destruct (read output_data (i * 3 + 0)) as [n0|]; [|discriminate].
    destruct (read output_data (i * 3 + 1)) as [n1|]; [|discriminate].
    destruct (read output_data (i * 3 + 2)) as [n2|]; [|discriminate].
    cbn [bind] in Hloop. apply IH in Hloop.
    rewrite Hloop, length_app. simpl. lia.
Qed.

Lemma runInference_length (g : TrajectoryGenerator F Session) (s : Session)
    (latent : list F) (start end_ : Waypoint F) (t : Trajectory F) :
  inference_contract session_run (config_ g) ->
  (- 2 ^ 31 <= seq_len (config_ g) < 2 ^ 31)%Z ->
  runInference session_run g s latent start end_ = Ok t ->
  Z.of_nat (length t) = seq_len (config_ g).
Proof.
  intros Hcontract Hint Hrun. unfold runInference in Hrun.
  destruct (Hcontract s latent (normalize g start) (normalize g end_))
    as (output & Hout & Hshape & _).
  rewrite Hout, Hshape, to_int32_int in Hrun by assumption.
  destruct (Z.ltb_spec (seq_len (config_ g)) 0) as [Hneg|Hpos]; [discriminate|].
  apply convert_loop_length in Hrun. rewrite Hrun. simpl. lia.
Qed.

Lemma runInference_ok (g : TrajectoryGenerator F Session) (s : Session)
    (latent : list F) (start end_ : Waypoint F) :
  inference_contract session_run (config_ g) ->
  (0 <= seq_len (config_ g) < 2 ^ 31)%Z ->
  exists t, runInference session_run g s latent start end_ = Ok t
            /\ Z.of_nat (length t) = seq_len (config_ g).
Proof.
  intros Hcontract Hrange. unfold runInference.
  destruct (Hcontract s latent (normalize g start) (normalize g end_))
    as (output & -> & -> & Hdata).
  rewrite to_int32_small by assumption.
  destruct (Z.ltb_spec (seq_len (config_ g)) 0) as [Hneg|_]; [lia|].
  destruct (convert_loop_ok g (data output) (Z.to_nat (seq_len (config_ g))) 0 [])
    as (t & Ht & Hlt); [simpl; lia|].
  exists t. split; [exact Ht|].
  rewrite Hlt. simpl. lia.
Qed.

End Generation.

(** C5. Let the model honour its inference contract for the configured
    sequence length [seq_len] (an [int]).  Then every trajectory that
    [generate] returns has exactly [seq_len] waypoints, for every start and
    end; and [generate] does return one when the generator is initialized
    and neither [latent_dim] nor [seq_len] is negative. *)
Theorem C5_generate_length :
  forall (F : Type) (ops : FloatOps F) (Session : Type)
         (session_run : Session -> list F -> Inference.array3 F ->
                        Inference.array3 F -> option (Inference.Tensor F))
         (normal_draw : Z -> nat -> F)
         (g : Inference.TrajectoryGenerator F Session) (start end_ : Waypoint F),
    inference_contract session_run (Inference.config_ g) ->
    (- 2 ^ 31 <= Inference.getSeqLen g < 2 ^ 31)%Z ->
    (forall t g',
        Inference.generate session_run normal_draw g start end_ = Ok (t, g') ->
        Z.of_nat (length t) = Inference.getSeqLen g)
    /\ (Inference.isReady g = true ->
        (0 <= Inference.latent_dim (Inference.config_ g))%Z ->
        (0 <= Inference.getSeqLen g)%Z ->
        exists t g',
          Inference.generate session_run normal_draw g start end_ = Ok (t, g')).
Proof.
  intros F ops Session session_run normal_draw g start end_ Hcontract Hint.
  unfold Inference.getSeqLen in *.
  split.
  - intros t g' Hgen. unfold Inference.generate in Hgen.
    destruct (Inference.session_ g) as [s|]; [|discriminate].
    destruct (Inference.sampleLatent normal_draw g) as [[latent g1]|] eqn:Hs;
      [|discriminate].
    cbn [bind] in Hgen.
    destruct (Inference.runInference session_run g1 s latent start end_)
      as [t1|] eqn:Hrun; [|discriminate].
    cbn [bind] in Hgen. injection Hgen as Ht Hg. subst t1 g1.
    assert (Hcfg : Inference.config_ g' = Inference.config_ g).
    { unfold Inference.sampleLatent in Hs.
      destruct (Inference.latent_dim (Inference.config_ g) <? 0)%Z;
        [discriminate|].
      injection Hs as _ <-. reflexivity. }
    rewrite <- Hcfg in *.
    now apply (@runInference_length F ops Session session_run g' s latent
                 start end_).
  - intros Hready Hdim Hlen. unfold Inference.generate, Inference.isReady in *.
    destruct (Inference.session_ g) as [s|] eqn:Hs; [|discriminate].
    rewrite sampleLatent_ok by assumption. cbn [bind].
    set (g' := Inference.mkGenerator _ _ _ _).
    destruct (@runInference_ok F ops Session session_run g' s
                (map (normal_draw (Inference.rng_state_ g))
                     (seq 0 (Z.to_nat (Inference.latent_dim (Inference.config_ g)))))
                start end_) as (t & Ht & _); [assumption|simpl; lia|].
    exists t, g'. rewrite Ht. reflexivity.
Qed.

Lemma C5_generate_length_witness :
  let ops := binary32_no_acos in
  let gen := Inference.generate two_point_model (fun _ _ => f0)
               two_point_generator (waypoint 0 0 100) (waypoint 800 600 200) in
  (forall t g', gen = Ok (t, g') -> Z.of_nat (length t) = 2%Z)
  /\ (exists t g', gen = Ok (t, g')).
Proof.
  intros ops gen.
  destruct (@C5_generate_length B32.float ops unit two_point_model
              (fun _ _ => f0) two_point_generator
              (waypoint 0 0 100) (waypoint 800 600 200)) as [Hlen Hret].
  - intros s latent start_norm end_norm. eexists.
    split; [reflexivity|]. split; reflexivity.
  - unfold Inference.getSeqLen, two_point_generator.
    cbn [Inference.seq_len Inference.config_]. lia.
  - split; [exact Hlen|].
    apply Hret; [reflexivity|simpl; lia|].
    unfold Inference.getSeqLen, two_point_generator.
    cbn [Inference.seq_len Inference.config_]. lia.
Defined.

(** The length is the model's, not the configuration's: with the default
    configuration ([seq_len = 50]) and a model that breaks the contract by
    returning two waypoints, [generate] returns two waypoints. *)
Example generate_length_follows_model :
  let ops := binary32_no_acos in
  let g := Inference.mkGenerator (Inference.GeneratorConfig_of_path "model.onnx")
             Inference.NormalizationParams0 (Some tt) 0 in
  Inference.getSeqLen g = 50%Z
  /\ exists g',
       Inference.generate two_point_model (fun _ _ => f0) g
         (waypoint 0 0 100) (waypoint 800 600 200)
       = Ok ([waypoint 0 0 100; waypoint 800 600 200], g').
Proof.
  cbv zeta. split; [reflexivity|]. eexists. vm_compute. reflexivity.
Qed.

(** ** Latent sampling *)

Section Sampling.

Import Inference.

Context {F : Type} `{FloatOps F} {Session : Type}.
Variable normal_draw : Z -> nat -> F.

Lemma seed_of_call_step (state : Z) (k : nat) :
  seed_of_call (to_uint32 (state + 1)) k = seed_of_call state (S k).
Proof.
  unfold seed_of_call, to_uint32.
  rewrite Z.add_mod_idemp_l by lia. f_equal. lia.
Qed.

(** [n] calls succeed, and call [k] draws from an engine seeded with
    [state + k] modulo [2^32]. *)
Lemma sample_loop_ok (n : nat) :
  forall g : TrajectoryGenerator F Session,
    (0 <= latent_dim (config_ g))%Z ->
    (0 <= rng_state_ g < 2 ^ 32)%Z ->
    exists g',
      sample_loop normal_draw g n
      = Ok (map (fun k => map (normal_draw (seed_of_call (rng_state_ g) k))
                              (seq 0 (Z.to_nat (latent_dim (config_ g)))))
                (seq 0 n), g')
      /\ config_ g' = config_ g.
Proof.
  induction n as [|n IH]; intros g Hdim Hstate.
  - exists g. split; reflexivity.
  - cbn [sample_loop]. rewrite sampleLatent_ok by assumption. cbn [bind].
    set (g1 := mkGenerator _ _ _ _).
    destruct (IH g1) as (g' & Hloop & Hcfg); [exact Hdim| |].
    { unfold g1, to_uint32. cbn [rng_state_]. apply Z.mod_pos_bound. lia. }
    rewrite Hloop. cbn [bind]. exists g'. split; [|exact Hcfg].
    change (seq 0 (S n)) with (0 :: seq 1 n). cbn [map].
    f_equal. f_equal. f_equal.
    + unfold seed_of_call, to_uint32. change (Z.of_nat 0) with 0%Z.
      rewrite Z.add_0_r, Z.mod_small by assumption. reflexivity.
    + rewrite <- seq_shift, map_map. apply map_ext. intros k.
      change (rng_state_ g1) with (to_uint32 (rng_state_ g + 1)).
      change (config_ g1) with (config_ g).
      now rewrite seed_of_call_step.
Qed.

Lemma seed_of_call_distinct (state : Z) (k k' : nat) :
  k < k' -> (Z.of_nat k' - Z.of_nat k < 2 ^ 32)%Z ->
  seed_of_call state k <> seed_of_call state k'.
Proof.
  intros Hlt Hgap. unfold seed_of_call, to_uint32.
  change (2 ^ 32)%Z with 4294967296%Z in *. intros Heq.
  apply (f_equal (fun v => (state + Z.of_nat k' - v) mod 4294967296)%Z) in Heq.
  rewrite Zminus_mod_idemp_r in Heq.
  rewrite (Zminus_mod_idemp_r (state + Z.of_nat k') (state + Z.of_nat k')) in Heq.
  rewrite Z.sub_diag, Zmod_0_l in Heq.
  replace (state + Z.of_nat k' - (state + Z.of_nat k))%Z
    with (Z.of_nat k' - Z.of_nat k)%Z in Heq by ring.
  rewrite Z.mod_small in Heq by lia. lia.
Qed.

End Sampling.

(** C8, as amended. The random state of a generator is the wall-clock time
    of its construction, reduced modulo [2^32], and nothing else; call
    number [k] of [sampleLatent] seeds a fresh engine with that state plus
    [k] modulo [2^32], so any two calls fewer than [2^32] apart use distinct
    seeds. *)
Theorem C8_sampling_seeds :
  forall (F : Type) (ops : FloatOps F) (Session : Type)
         (load_session : string -> option Session) (normal_draw : Z -> nat -> F)
         (config : Inference.GeneratorConfig) (now : Z)
         (g : Inference.TrajectoryGenerator F Session),
    Inference.new_TrajectoryGenerator load_session config now = Ok g ->
    (0 <= Inference.latent_dim config)%Z ->
    Inference.rng_state_ g = Inference.to_uint32 now
    /\ (forall n, exists g',
          sample_loop normal_draw g n
          = Ok (map (fun k =>
                       map (normal_draw (seed_of_call (Inference.to_uint32 now) k))
                           (seq 0 (Z.to_nat (Inference.latent_dim config))))
                    (seq 0 n), g'))
    /\ (forall k k', k < k' -> (Z.of_nat k' - Z.of_nat k < 2 ^ 32)%Z ->
          seed_of_call (Inference.to_uint32 now) k
          <> seed_of_call (Inference.to_uint32 now) k').
Proof.
  intros F ops Session load_session normal_draw config now g Hnew Hdim.
  unfold Inference.new_TrajectoryGenerator in Hnew.
  destruct (load_session (Inference.model_path config)) as [s|]; [|discriminate].
  injection Hnew as <-. split; [reflexivity|]. split.
  - intros n.
    destruct (sample_loop_ok normal_draw n
                (Inference.mkGenerator config Inference.NormalizationParams0
                   (Some s) (Inference.to_uint32 now)))
      as (g' & Hloop & _).
    + exact Hdim.
    + simpl. unfold Inference.to_uint32. apply Z.mod_pos_bound. lia.
    + exists g'. exact Hloop.
  - intros k k'. apply seed_of_call_distinct.
Qed.

Lemma C8_sampling_seeds_witness :
  let ops := binary32_no_acos in
  let normal_draw := fun (seed : Z) (i : nat) => B32.of_Z (seed + Z.of_nat i) in
  let g := Inference.mkGenerator (Inference.GeneratorConfig_of_path "model.onnx")
             Inference.NormalizationParams0 (Some tt) 1700000000 in
  Inference.rng_state_ g = Inference.to_uint32 1700000000
  /\ (forall n, exists g',
        sample_loop normal_draw g n
        = Ok (map (fun k =>
                     map (normal_draw
                            (seed_of_call (Inference.to_uint32 1700000000) k))
                         (seq 0 (Z.to_nat 64)))
                  (seq 0 n), g'))
  /\ (forall k k', k < k' -> (Z.of_nat k' - Z.of_nat k < 2 ^ 32)%Z ->
        seed_of_call (Inference.to_uint32 1700000000) k
        <> seed_of_call (Inference.to_uint32 1700000000) k').
Proof.
  intros ops normal_draw g.
  apply (@C8_sampling_seeds B32.float ops unit always_loads normal_draw
           (Inference.GeneratorConfig_of_path "model.onnx") 1700000000 g).
  - reflexivity.
  - simpl. lia.
Defined.

(** C8, as stated, fails: the state is not seedable. The constructor takes
    the configuration only, and two generators built from the same
    configuration one second apart start from different states, hence draw
    their first latent vectors from engines seeded differently. *)
Lemma C8_not_seedable_counterexample :
  let ops := binary32_no_acos in
  let config := Inference.GeneratorConfig_of_path "model.onnx" in
  exists g1 g2 : Inference.TrajectoryGenerator B32.float unit,
    Inference.new_TrajectoryGenerator always_loads config 1700000000 = Ok g1
    /\ Inference.new_TrajectoryGenerator always_loads config 1700000001 = Ok g2
    /\ Inference.config_ g1 = Inference.config_ g2
    /\ Inference.rng_state_ g1 = 1700000000%Z
    /\ Inference.rng_state_ g2 = 1700000001%Z
    /\ Inference.rng_state_ g1 <> Inference.rng_state_ g2.
Proof.
  intros ops config. eexists. eexists.
  split; [reflexivity|]. split; [reflexivity|].
  split; [reflexivity|]. split; [reflexivity|]. split; [reflexivity|].
  discriminate.
Qed.

(** * Further properties *)

(** ** Exact arithmetic: distances *)

Section ExactDistances.

Open Scope R_scope.

Lemma f0_exact : @f0 R exact = 0.
Proof. unfold f0. cbn. field. Qed.

Lemma f1_exact : @f1 R exact = 1.
Proof. unfold f1. cbn. field. Qed.

Lemma feps_exact_pos : 0 < @feps R exact.
Proof. unfold feps. cbn. apply Rdiv_lt_0_compat; lra. Qed.

Lemma sum_squares_nonneg (a b c : R) : 0 <= a * a + b * b + c * c.
Proof.
  pose proof (Rle_0_sqr a). pose proof (Rle_0_sqr b). pose proof (Rle_0_sqr c).
  unfold Rsqr in *. lra.
Qed.

Lemma norm3_nonneg (a b c : R) : 0 <= norm3 a b c.
Proof. unfold norm3. apply sqrt_pos. Qed.

Lemma norm3_square (a b c : R) :
  norm3 a b c * norm3 a b c = a * a + b * b + c * c.
Proof. unfold norm3. cbn. apply sqrt_sqrt. apply sum_squares_nonneg. Qed.

(** Cauchy-Schwarz in three dimensions. *)
Lemma dot3_le_norms (a1 a2 a3 b1 b2 b3 : R) :
  a1 * b1 + a2 * b2 + a3 * b3 <= norm3 a1 a2 a3 * norm3 b1 b2 b3.
Proof.
  pose proof (norm3_nonneg a1 a2 a3) as Ha.
  pose proof (norm3_nonneg b1 b2 b3) as Hb.
  apply Rsqr_incr_0_var; [|now apply Rmult_le_pos].
  unfold Rsqr.
  replace (norm3 a1 a2 a3 * norm3 b1 b2 b3 * (norm3 a1 a2 a3 * norm3 b1 b2 b3))
    with ((norm3 a1 a2 a3 * norm3 a1 a2 a3) * (norm3 b1 b2 b3 * norm3 b1 b2 b3))
    by ring.
  rewrite !norm3_square.
  pose proof (Rle_0_sqr (a1 * b2 - a2 * b1)) as H12.
  pose proof (Rle_0_sqr (a1 * b3 - a3 * b1)) as H13.
  pose proof (Rle_0_sqr (a2 * b3 - a3 * b2)) as H23.
  unfold Rsqr in H12, H13, H23.
  replace ((a1 * a1 + a2 * a2 + a3 * a3) * (b1 * b1 + b2 * b2 + b3 * b3))
    with ((a1 * b1 + a2 * b2 + a3 * b3) * (a1 * b1 + a2 * b2 + a3 * b3)
          + (a1 * b2 - a2 * b1) * (a1 * b2 - a2 * b1)
          + (a1 * b3 - a3 * b1) * (a1 * b3 - a3 * b1)
          + (a2 * b3 - a3 * b2) * (a2 * b3 - a3 * b2)) by ring.
  lra.
Qed.

(** The triangle inequality for [norm3]. *)
Lemma norm3_triangle (a1 a2 a3 b1 b2 b3 : R) :
  norm3 (a1 + b1) (a2 + b2) (a3 + b3) <= norm3 a1 a2 a3 + norm3 b1 b2 b3.
Proof.
  pose proof (dot3_le_norms a1 a2 a3 b1 b2 b3) as Hcs.
  pose proof (norm3_nonneg a1 a2 a3) as Ha.
  pose proof (norm3_nonneg b1 b2 b3) as Hb.
  pose proof (norm3_square a1 a2 a3) as Hsa.
  pose proof (norm3_square b1 b2 b3) as Hsb.
  pose proof (norm3_square (a1 + b1) (a2 + b2) (a3 + b3)) as Hsc.
  apply Rsqr_incr_0_var; [|lra].
  unfold Rsqr. rewrite Hsc.
  replace ((norm3 a1 a2 a3 + norm3 b1 b2 b3) * (norm3 a1 a2 a3 + norm3 b1 b2 b3))
    with (norm3 a1 a2 a3 * norm3 a1 a2 a3 + norm3 b1 b2 b3 * norm3 b1 b2 b3
          + 2 * (norm3 a1 a2 a3 * norm3 b1 b2 b3)) by ring.
  rewrite Hsa, Hsb. lra.
Qed.

End ExactDistances.

(** ** Exact arithmetic: path length against straight-line distance *)

Section ExactPaths.

Open Scope R_scope.

Lemma segment_nonneg (a b : Waypoint R) : 0 <= segment a b.
Proof. apply norm3_nonneg. Qed.

Lemma segment_triangle (a b c : Waypoint R) :
  segment a c <= segment a b + segment b c.
Proof.
  unfold segment. cbn [fsub exact].
  replace (x c - x a) with ((x b - x a) + (x c - x b)) by ring.
  replace (y c - y a) with ((y b - y a) + (y c - y b)) by ring.
  replace (z c - z a) with ((z b - z a) + (z c - z b)) by ring.
  apply norm3_triangle.
Qed.

Lemma segment_refl (a : Waypoint R) : segment a a = 0.
Proof.
  unfold segment, norm3. cbn.
  replace ((x a - x a) * (x a - x a) + (y a - y a) * (y a - y a)
           + (z a - z a) * (z a - z a)) with 0 by ring.
  apply sqrt_0.
Qed.

(** The sum of the first [k] segments of a trajectory. *)
Lemma path_prefix_bound (t : Trajectory R) (k : nat) :
  0 <= fold_left (fun acc i => acc + segment (at_ t i) (at_ t (i + 1))) (seq 0 k) 0
  /\ segment (at_ t 0) (at_ t k)
     <= fold_left (fun acc i => acc + segment (at_ t i) (at_ t (i + 1))) (seq 0 k) 0.
Proof.
  induction k as [|k [IH0 IH]].
  - cbn [seq fold_left]. rewrite segment_refl. lra.
  - rewrite seq_S, fold_left_app. cbn [fold_left Nat.add].
    pose proof (segment_nonneg (at_ t k) (at_ t (k + 1))) as Hk.
    pose proof (segment_triangle (at_ t 0) (at_ t k) (at_ t (k + 1))) as Htri.
    rewrite Nat.add_1_r in *. lra.
Qed.

Lemma computePathLength_segments (t : Trajectory R) :
  (2 <= length t)%nat ->
  Metrics.computePathLength t
  = fold_left (fun acc i => acc + segment (at_ t i) (at_ t (i + 1)))
              (seq 0 (length t - 1)) 0.
Proof.
  intros Hlen. unfold Metrics.computePathLength.
  destruct (Nat.ltb_spec (length t) 2) as [Hlt|_]; [lia|].
  unfold for_loop. rewrite Nat.sub_0_r, f0_exact. reflexivity.
Qed.

Lemma computeStraightLineDistance_segment (t : Trajectory R) :
  (2 <= length t)%nat ->
  Metrics.computeStraightLineDistance t = segment (at_ t 0) (at_ t (length t - 1)).
Proof.
  intros Hlen. unfold Metrics.computeStraightLineDistance.
  destruct (Nat.ltb_spec (length t) 2) as [Hlt|_]; [lia|]. reflexivity.
Qed.

Lemma straight_le_path (t : Trajectory R) :
  0 <= Metrics.computeStraightLineDistance t <= Metrics.computePathLength t.
Proof.
  destruct (Nat.lt_ge_cases (length t) 2) as [Hlt|Hge].
  - unfold Metrics.computeStraightLineDistance, Metrics.computePathLength.
    destruct (Nat.ltb_spec (length t) 2) as [_|Hge]; [|lia].
    rewrite f0_exact. lra.
  - rewrite computePathLength_segments, computeStraightLineDistance_segment
      by assumption.
    split; [apply segment_nonneg|apply path_prefix_bound].
Qed.

Lemma path_efficiency_range (t : Trajectory R) :
  0 <= Metrics.computePathEfficiency t <= 1.
Proof.
  pose proof (straight_le_path t) as [H0 Hle].
  destruct (computePathEfficiency_cases t) as (Hfew & Hzero & Hdiv).
  destruct (Nat.lt_ge_cases (length t) 2) as [Hlt|Hge].
  - rewrite Hfew by assumption. rewrite f1_exact. lra.
  - destruct (flt (Metrics.computePathLength t) feps) eqn:Hguard.
    + rewrite (Hzero Hge eq_refl), f0_exact. lra.
    + rewrite (Hdiv Hge eq_refl). cbn [fdiv exact].
      cbn [flt exact] in Hguard. unfold Rltb in Hguard.
      destruct (Rlt_dec _ _) as [|Hnlt] in Hguard; [discriminate|].
      pose proof feps_exact_pos as Heps.
      assert (Hpos : 0 < Metrics.computePathLength t) by lra.
      split.
      * apply Rmult_le_pos; [lra|]. left. now apply Rinv_0_lt_compat.
      * apply Rmult_le_reg_r with (Metrics.computePathLength t); [lra|].
        unfold Rdiv. rewrite Rmult_assoc, Rinv_l by lra. lra.
Qed.

End ExactPaths.

(** X1. In exact arithmetic the straight-line distance of a trajectory
    never exceeds its path length (the triangle inequality along the
    path), both are nonnegative, and [computePathEfficiency] lies in
    [[0, 1]] for every trajectory. *)
Theorem X1_path_efficiency_in_unit_interval :
  forall t : Trajectory R,
    (0 <= Metrics.computeStraightLineDistance t <= Metrics.computePathLength t)%R
    /\ (0 <= Metrics.computePathEfficiency t <= 1)%R.
Proof.
  intros t. split; [apply straight_le_path|apply path_efficiency_range].
Qed.

(** ** Loop invariants *)

Lemma for_loop_invariant {S : Type} (P : S -> Prop) (lo hi : nat)
    (body : nat -> S -> S) (s : S) :
  P s ->
  (forall i acc, lo <= i < hi -> P acc -> P (body i acc)) ->
  P (for_loop lo hi body s).
Proof.
  intros Hs Hstep. unfold for_loop.
  assert (Hin : forall i, In i (seq lo (hi - lo)) -> lo <= i < hi).
  { intros i Hi. apply in_seq in Hi. lia. }
  revert s Hs Hin. generalize (seq lo (hi - lo)) as l.
  induction l as [|i l IH]; intros s Hs Hin; simpl; [exact Hs|].
  apply IH.
  - apply Hstep; [apply Hin; now left|exact Hs].
  - intros j Hj. apply Hin. now right.
Qed.

(** ** Exact arithmetic: curvature and smoothness *)

Section ExactCurvature.

Open Scope R_scope.

(** Every curvature the loop records is an angle in [[0, pi]] divided by a
    segment length above [1e-6]. *)
Lemma computeCurvatures_nonneg (t : Trajectory R) :
  Forall (fun c => 0 <= c) (Metrics.computeCurvatures t).
Proof.
  unfold Metrics.computeCurvatures.
  destruct (length t <? 3)%nat; [constructor|].
  apply for_loop_invariant; [constructor|].
  intros i acc _ Hacc. cbv zeta.
  destruct (fgt _ feps && fgt _ feps) eqn:Hguard; [|exact Hacc].
  apply andb_prop in Hguard. destruct Hguard as [Hn1 _].
  apply Forall_app. split; [exact Hacc|]. constructor; [|constructor].
  unfold fgt in Hn1. cbn [flt exact] in Hn1. unfold Rltb in Hn1.
  destruct (Rlt_dec _ _) as [Hlt|] in Hn1; [|discriminate].
  pose proof feps_exact_pos as Heps.
  cbn [fdiv facos exact].
  apply Rmult_le_pos; [apply acos_bound|].
  left. apply Rinv_0_lt_compat. lra.
Qed.

Lemma fold_left_Rplus_nonneg (l : list R) (a : R) :
  Forall (fun c => 0 <= c) l -> 0 <= a -> 0 <= fold_left Rplus l a.
Proof.
  revert a. induction l as [|c l IH]; intros a Hl Ha; simpl; [exact Ha|].
  inversion Hl; subst. apply IH; [assumption|lra].
Qed.

(** [max_element] dominates its first element and every other one, and the
    running sum stays below [length * max]. *)
Lemma max_element_upper (l : list R) (v0 : R) :
  v0 <= Metrics.max_element v0 l
  /\ Forall (fun c => c <= Metrics.max_element v0 l) l.
Proof.
  unfold Metrics.max_element. revert v0.
  induction l as [|c l IH]; intros v0; cbn [fold_left];
    [split; [apply Rle_refl|constructor]|].
  destruct (flt v0 c) eqn:Hcmp; cbn [flt exact] in Hcmp; unfold Rltb in Hcmp;
    destruct (Rlt_dec v0 c) as [Hlt|Hge]; try discriminate.
  - destruct (IH c) as [Hc Hl]. split; [lra|]. constructor; assumption.
  - destruct (IH v0) as [Hv Hl]. split; [exact Hv|]. constructor; [lra|exact Hl].
Qed.

Lemma fold_left_Rplus_le (l : list R) (a m : R) :
  Forall (fun c => c <= m) l ->
  fold_left Rplus l a <= a + INR (length l) * m.
Proof.
  revert a. induction l as [|c l IH]; intros a Hl.
  - simpl. lra.
  - inversion Hl; subst. cbn [fold_left]. 
    specialize (IH (a + c) H2). rewrite length_cons, S_INR. lra.
Qed.

Lemma average_curvature_range (t : Trajectory R) :
  0 <= Metrics.computeAverageCurvature t <= Metrics.computeMaxCurvature t.
Proof.
  pose proof (computeCurvatures_nonneg t) as Hpos.
  unfold Metrics.computeAverageCurvature, Metrics.computeMaxCurvature.
  destruct (Metrics.computeCurvatures t) as [|c cs] eqn:Hcs.
  - rewrite f0_exact. lra.
  - cbv zeta. unfold Metrics.accumulate. rewrite f0_exact.
    cbn [fdiv fadd of_size exact].
    assert (Hn : 0 < INR (length (c :: cs))) by (apply lt_0_INR; simpl; lia).
    destruct (max_element_upper cs c) as [Hc Hrest].
    pose proof (@fold_left_Rplus_nonneg (c :: cs) 0 Hpos (Rle_refl 0)) as Hsum0.
    assert (Hall : Forall (fun c0 => c0 <= Metrics.max_element c cs) (c :: cs))
      by (constructor; assumption).
    pose proof (@fold_left_Rplus_le (c :: cs) 0 (Metrics.max_element c cs) Hall)
      as Hsum.
    split.
    + apply Rmult_le_pos; [exact Hsum0|]. left. now apply Rinv_0_lt_compat.
    + apply Rmult_le_reg_r with (INR (length (c :: cs))); [exact Hn|].
      unfold Rdiv. rewrite Rmult_assoc, Rinv_l by lra. lra.
Qed.

Lemma smoothness_range (t : Trajectory R) :
  0 < Metrics.computeSmoothnessScore t <= 1.
Proof.
  pose proof (average_curvature_range t) as [Havg _].
  unfold Metrics.computeSmoothnessScore. cbv zeta.
  rewrite f1_exact. cbn [fdiv fadd exact].
  set (a := Metrics.computeAverageCurvature t) in *.
  split.
  - apply Rdiv_lt_0_compat; lra.
  - apply Rmult_le_reg_r with (1 + a); [lra|].
    unfold Rdiv. rewrite Rmult_assoc, Rinv_l by lra. lra.
Qed.

End ExactCurvature.

(** X2. In exact arithmetic every curvature [computeCurvatures] records is
    nonnegative, the average curvature lies between 0 and the maximum
    curvature, and the smoothness score lies in [(0, 1]], for every
    trajectory. *)
Theorem X2_smoothness_in_unit_interval :
  forall t : Trajectory R,
    Forall (fun c => 0 <= c)%R (Metrics.computeCurvatures t)
    /\ (0 <= Metrics.computeAverageCurvature t <= Metrics.computeMaxCurvature t)%R
    /\ (0 < Metrics.computeSmoothnessScore t <= 1)%R.
Proof.
  intros t. split; [apply computeCurvatures_nonneg|].
  split; [apply average_curvature_range|apply smoothness_range].
Qed.

Section ExactCollinear.

Open Scope R_scope.

Lemma fneg1_exact : @fneg1 R exact = -1.
Proof. unfold fneg1. cbn. field. Qed.

Lemma fold_left_Rplus_zeros (l : list R) :
  Forall (fun c => c = 0) l -> fold_left Rplus l 0 = 0.
Proof.
  induction l as [|c l IH]; intros Hl; simpl; [reflexivity|].
  inversion Hl; subst. rewrite Rplus_0_l. now apply IH.
Qed.

(** Along a ray, the angle between consecutive segments is zero. *)
Lemma computeCurvatures_on_ray (p d : Waypoint R) (ss : list R) :
  nondecreasing ss ->
  Forall (fun c => c = 0) (Metrics.computeCurvatures (map (on_ray p d) ss)).
Proof.
  intros Hmono. unfold Metrics.computeCurvatures. rewrite length_map.
  destruct (Nat.ltb_spec (length ss) 3) as [|Hlen]; [constructor|].
  apply for_loop_invariant; [constructor|].
  intros i acc Hi Hacc. cbv zeta.
  rewrite !at_on_ray by lia.
  rewrite (norm3_on_ray p d (s1 := nth (i - 1) ss 0) (s2 := nth i ss 0))
    by (apply Hmono; lia).
  rewrite (norm3_on_ray p d (s1 := nth i ss 0) (s2 := nth (i + 1) ss 0))
    by (apply Hmono; lia).
  set (D := sqrt (x d * x d + y d * y d + z d * z d)).
  set (h1 := nth i ss 0 - nth (i - 1) ss 0).
  set (h2 := nth (i + 1) ss 0 - nth i ss 0).
  destruct (fgt (h1 * D) feps && fgt (h2 * D) feps) eqn:Hguard; [|exact Hacc].
  apply andb_prop in Hguard. destruct Hguard as [Hn1 Hn2].
  unfold fgt in Hn1, Hn2. cbn [flt exact] in Hn1, Hn2. unfold Rltb in Hn1, Hn2.
  destruct (Rlt_dec _ _) as [Hlt1|] in Hn1; [|discriminate].
  destruct (Rlt_dec _ _) as [Hlt2|] in Hn2; [|discriminate].
  pose proof feps_exact_pos as Heps.
  apply Forall_app. split; [exact Hacc|]. constructor; [|constructor].
  assert (HD : D * D = x d * x d + y d * y d + z d * z d).
  { unfold D. apply sqrt_sqrt. apply sum_squares_nonneg. }
  assert (Hcos :
    fdiv (fadd (fadd (fmul (fsub (x (on_ray p d (nth i ss 0)))
                                 (x (on_ray p d (nth (i - 1) ss 0))))
                           (fsub (x (on_ray p d (nth (i + 1) ss 0)))
                                 (x (on_ray p d (nth i ss 0)))))
                     (fmul (fsub (y (on_ray p d (nth i ss 0)))
                                 (y (on_ray p d (nth (i - 1) ss 0))))
                           (fsub (y (on_ray p d (nth (i + 1) ss 0)))
                                 (y (on_ray p d (nth i ss 0))))))
               (fmul (fsub (z (on_ray p d (nth i ss 0)))
                           (z (on_ray p d (nth (i - 1) ss 0))))
                     (fsub (z (on_ray p d (nth (i + 1) ss 0)))
                           (z (on_ray p d (nth i ss 0))))))
         (fmul (h1 * D) (h2 * D)) = 1).
  { cbn. fold h1 h2.
    replace ((x p + nth i ss 0 * x d - (x p + nth (i - 1) ss 0 * x d))
             * (x p + nth (i + 1) ss 0 * x d - (x p + nth i ss 0 * x d))
             + (y p + nth i ss 0 * y d - (y p + nth (i - 1) ss 0 * y d))
               * (y p + nth (i + 1) ss 0 * y d - (y p + nth i ss 0 * y d))
             + (z p + nth i ss 0 * z d - (z p + nth (i - 1) ss 0 * z d))
               * (z p + nth (i + 1) ss 0 * z d - (z p + nth i ss 0 * z d)))
      with (h1 * D * (h2 * D)).
    - apply Rdiv_diag. nra.
    - unfold h1, h2.
      replace ((nth i ss 0 - nth (i - 1) ss 0) * D
               * ((nth (i + 1) ss 0 - nth i ss 0) * D))
        with ((nth i ss 0 - nth (i - 1) ss 0)
              * (nth (i + 1) ss 0 - nth i ss 0) * (D * D)) by ring.
      rewrite HD. ring. }
  rewrite Hcos.
  unfold fmin, fmax. rewrite f1_exact, fneg1_exact. cbn [flt exact].
  unfold Rltb.
  destruct (Rlt_dec 1 1) as [Habs|_]; [lra|].
  destruct (Rlt_dec (-1) 1) as [_|Habs]; [|lra].
  cbn [facos fdiv exact]. rewrite acos_1. unfold Rdiv. ring.
Qed.

Lemma smoothness_on_ray (p d : Waypoint R) (ss : list R) :
  nondecreasing ss ->
  Metrics.computeAverageCurvature (map (on_ray p d) ss) = 0
  /\ Metrics.computeMaxCurvature (map (on_ray p d) ss) = 0
  /\ Metrics.computeSmoothnessScore (map (on_ray p d) ss) = 1.
Proof.
  intros Hmono. pose proof (computeCurvatures_on_ray p d Hmono) as Hzero.
  assert (Havg : Metrics.computeAverageCurvature (map (on_ray p d) ss) = 0).
  { unfold Metrics.computeAverageCurvature.
    destruct (Metrics.computeCurvatures (map (on_ray p d) ss)) as [|c cs];
      [apply f0_exact|].
    cbv zeta. unfold Metrics.accumulate. rewrite f0_exact.
    rewrite fold_left_Rplus_zeros by assumption.
    cbn [fdiv exact]. unfold Rdiv. ring. }
  split; [exact Havg|]. split.
  - pose proof (average_curvature_range (map (on_ray p d) ss)) as Hrange.
    unfold Metrics.computeMaxCurvature in *.
    destruct (Metrics.computeCurvatures (map (on_ray p d) ss)) as [|c cs];
      [apply f0_exact|].
    inversion Hzero as [|? ? Hc Hcs]; subst.
    clear Hrange Havg Hzero. unfold Metrics.max_element.
    induction cs as [|c cs IH]; [reflexivity|].
    inversion Hcs; subst. cbn [fold_left flt exact]. unfold Rltb.
    destruct (Rlt_dec 0 0); [lra|]. now apply IH.
  - unfold Metrics.computeSmoothnessScore. cbv zeta. rewrite Havg, f1_exact.
    cbn [fdiv fadd exact]. field.
Qed.

End ExactCollinear.

(** X3. In exact arithmetic a perfectly straight trajectory has average
    and maximum curvature 0 and smoothness score exactly 1: every interior
    point either is skipped by the [1e-6] guard or has angle [acos 1 = 0]. *)
Theorem X3_straight_is_perfectly_smooth :
  forall t : Trajectory R,
    straight t ->
    Metrics.computeAverageCurvature t = 0%R
    /\ Metrics.computeMaxCurvature t = 0%R
    /\ Metrics.computeSmoothnessScore t = 1%R.
Proof.
  intros t (p & d & ss & Hmono & ->). now apply smoothness_on_ray.
Qed.

Lemma X3_straight_is_perfectly_smooth_witness :
  let t : Trajectory R :=
    [mkWaypoint 0 0 0; mkWaypoint 1 0 0; mkWaypoint 3 0 0]%R in
  Metrics.computeAverageCurvature t = 0%R
  /\ Metrics.computeMaxCurvature t = 0%R
  /\ Metrics.computeSmoothnessScore t = 1%R.
Proof.
  apply X3_straight_is_perfectly_smooth.
  exists (mkWaypoint 0 0 0)%R, (mkWaypoint 1 0 0)%R, [0; 1; 3]%R. split.
  - intros i j Hij. simpl in Hij.
    destruct i as [|[|[|i]]], j as [|[|[|j]]]; simpl; try lra; lia.
  - unfold on_ray. simpl. repeat (f_equal; try ring).
Defined.

(** ** Exact arithmetic: altitude statistics *)

Section ExactAltitude.

Open Scope R_scope.

Lemma fmin_exact (a b : R) : @fmin R exact a b = Rmin a b.
Proof.
  unfold fmin. cbn [flt exact]. unfold Rltb, Rmin.
  destruct (Rlt_dec b a), (Rle_dec a b); lra.
Qed.

Lemma fmax_exact (a b : R) : @fmax R exact a b = Rmax a b.
Proof.
  unfold fmax. cbn [flt exact]. unfold Rltb, Rmax.
  destruct (Rlt_dec a b), (Rle_dec a b); lra.
Qed.

(** The state of the altitude loop after the waypoints [l], started from
    [(mn0, mx0, s0)]. *)
Lemma altitude_fold (l : list (Waypoint R)) (mn0 mx0 s0 : R) :
  let '(mn, mx, s) :=
    fold_left (fun '(mn, mx, sum) wp =>
                 (fmin mn (z wp), fmax mx (z wp), fadd sum (z wp)))
              l (mn0, mx0, s0) in
  mn <= mn0 /\ mx0 <= mx
  /\ Forall (fun wp => mn <= z wp <= mx) l
  /\ (mn = mn0 \/ exists wp, In wp l /\ z wp = mn)
  /\ (mx = mx0 \/ exists wp, In wp l /\ z wp = mx)
  /\ s0 + INR (length l) * mn <= s <= s0 + INR (length l) * mx.
Proof.
  revert mn0 mx0 s0.
  induction l as [|w l IH]; intros mn0 mx0 s0; cbn [fold_left].
  - cbn [length INR]. repeat split; try lra; try constructor; now left.
  - specialize (IH (fmin mn0 (z w)) (fmax mx0 (z w)) (fadd s0 (z w))).
    destruct (fold_left _ l _) as [[mn mx] s].
    destruct IH as (Hmn & Hmx & Hall & Hmin & Hmax & Hsum).
    rewrite fmin_exact in *. rewrite fmax_exact in *. cbn [fadd exact] in *.
    pose proof (Rmin_l mn0 (z w)). pose proof (Rmin_r mn0 (z w)).
    pose proof (Rmax_l mx0 (z w)). pose proof (Rmax_r mx0 (z w)).
    split; [lra|]. split; [lra|]. split; [|split; [|split]].
    + constructor; [lra|exact Hall].
    + destruct Hmin as [Hmin|(wp & Hin & Hz)].
      * unfold Rmin in Hmin. destruct (Rle_dec mn0 (z w)).
        -- now left.
        -- right. exists w. split; [now left|congruence].
      * right. exists wp. split; [now right|exact Hz].
    + destruct Hmax as [Hmax|(wp & Hin & Hz)].
      * unfold Rmax in Hmax. destruct (Rle_dec mx0 (z w)).
        -- right. exists w. split; [now left|congruence].
        -- now left.
      * right. exists wp. split; [now right|exact Hz].
    + rewrite length_cons, S_INR. 
      assert (Hmnw : mn <= z w) by lra. assert (Hmxw : z w <= mx) by lra.
      nra.
Qed.

Lemma evaluateTrajectory_altitudes (w : Waypoint R) (t : Trajectory R)
    (expected_end : Waypoint R) :
  let m := Metrics.evaluateTrajectory (w :: t) expected_end in
  Forall (fun wp => Metrics.min_altitude m <= z wp <= Metrics.max_altitude m)
         (w :: t)
  /\ (exists wp, In wp (w :: t) /\ z wp = Metrics.min_altitude m)
  /\ (exists wp, In wp (w :: t) /\ z wp = Metrics.max_altitude m)
  /\ Metrics.min_altitude m <= Metrics.avg_altitude m <= Metrics.max_altitude m.
Proof.
  unfold Metrics.evaluateTrajectory, Metrics.altitude_loop.
  pose proof (altitude_fold (w :: t) (z (at_ (w :: t) 0)) (z (at_ (w :: t) 0))
                (@f0 R exact)) as Hfold.
  destruct (fold_left _ (w :: t) _) as [[mn mx] s].
  destruct Hfold as (Hmn & Hmx & Hall & Hmin & Hmax & Hsum).
  cbn [Metrics.min_altitude Metrics.max_altitude Metrics.avg_altitude].
  change (at_ (w :: t) 0) with w in *.
  assert (Hw : mn <= z w <= mx) by (inversion Hall; assumption).
  split; [exact Hall|]. split; [|split].
  - destruct Hmin as [->|Hex]; [|exact Hex]. exists w. split; [now left|reflexivity].
  - destruct Hmax as [->|Hex]; [|exact Hex]. exists w. split; [now left|reflexivity].
  - rewrite f0_exact in Hsum. cbn [fdiv of_size exact].
    assert (Hn : 0 < INR (length (w :: t))) by (apply lt_0_INR; simpl; lia).
    split.
    + apply Rmult_le_reg_r with (INR (length (w :: t))); [exact Hn|].
      unfold Rdiv. rewrite Rmult_assoc, Rinv_l by lra. lra.
    + apply Rmult_le_reg_r with (INR (length (w :: t))); [exact Hn|].
      unfold Rdiv. rewrite Rmult_assoc, Rinv_l by lra. lra.
Qed.

End ExactAltitude.

(** X4. In exact arithmetic, the altitude statistics of a non-empty
    trajectory bracket it: every waypoint's altitude lies between
    [min_altitude] and [max_altitude], both are attained by some waypoint,
    and [avg_altitude] lies between them. *)
Theorem X4_altitude_statistics :
  forall (w : Waypoint R) (t : Trajectory R) (expected_end : Waypoint R),
    let m := Metrics.evaluateTrajectory (w :: t) expected_end in
    Forall (fun wp => Metrics.min_altitude m <= z wp <= Metrics.max_altitude m)%R
           (w :: t)
    /\ (exists wp, In wp (w :: t) /\ z wp = Metrics.min_altitude m)
    /\ (exists wp, In wp (w :: t) /\ z wp = Metrics.max_altitude m)
    /\ (Metrics.min_altitude m <= Metrics.avg_altitude m
        <= Metrics.max_altitude m)%R.
Proof. intros w t expected_end. apply evaluateTrajectory_altitudes. Qed.

(** ** Exact arithmetic: endpoint error *)

Section ExactEndpoint.

Open Scope R_scope.

Lemma back_snoc {F : Type} `{FloatOps F} (t : Trajectory F) (w : Waypoint F) :
  back (t ++ [w]) = w.
Proof.
  unfold back, at_. rewrite length_app. cbn [length].
  replace (length t + 1 - 1)%nat with (length t) by lia.
  rewrite app_nth2 by lia. now rewrite Nat.sub_diag.
Qed.

Lemma norm3_zero_iff (a b c : R) : norm3 a b c = 0 <-> a = 0 /\ b = 0 /\ c = 0.
Proof.
  split.
  - intros Hn. pose proof (norm3_square a b c) as Hsq. rewrite Hn in Hsq.
    pose proof (Rle_0_sqr a). pose proof (Rle_0_sqr b). pose proof (Rle_0_sqr c).
    unfold Rsqr in *.
    assert (a * a = 0) by lra. assert (b * b = 0) by lra.
    assert (c * c = 0) by lra.
    repeat split; now apply Rsqr_0_uniq.
  - intros (-> & -> & ->). unfold norm3. cbn.
    replace (0 * 0 + 0 * 0 + 0 * 0) with 0 by ring. apply sqrt_0.
Qed.

Lemma computeEndpointError_snoc (t : Trajectory R) (w expected_end : Waypoint R) :
  Metrics.computeEndpointError (t ++ [w]) expected_end
  = norm3 (x w - x expected_end) (y w - y expected_end) (z w - z expected_end).
Proof.
  unfold Metrics.computeEndpointError. rewrite back_snoc.
  destruct (t ++ [w]) eqn:Ht; [|reflexivity].
  now destruct t.
Qed.

End ExactEndpoint.

(** X5. In exact arithmetic the endpoint error is nonnegative, and on a
    non-empty trajectory it is 0 exactly when the last waypoint is the
    expected end; on the empty trajectory it is 0 whatever the expected end. *)
Theorem X5_endpoint_error_zero_iff :
  forall (t : Trajectory R) (w expected_end : Waypoint R),
    (0 <= Metrics.computeEndpointError (t ++ [w]) expected_end)%R
    /\ (Metrics.computeEndpointError (t ++ [w]) expected_end = 0%R
        <-> w = expected_end)
    /\ Metrics.computeEndpointError [] expected_end = 0%R.
Proof.
  intros t w expected_end. rewrite computeEndpointError_snoc.
  split; [apply norm3_nonneg|]. split; [|apply f0_exact].
  rewrite norm3_zero_iff. destruct w as [wx wy wz], expected_end as [ex ey ez].
  cbn [x y z]. split.
  - intros (Hx & Hy & Hz). f_equal; lra.
  - intros Heq. injection Heq as -> -> ->. lra.
Qed.

(** ** Batches of trajectories *)

Section Batches.

Import Inference.

Context {F : Type} `{FloatOps F} {Session : Type}.
Variable session_run :
  Session -> list F -> array3 F -> array3 F -> option (Tensor F).
Variable normal_draw : Z -> nat -> F.

Lemma generate_loop_ok (n : nat) :
  forall (g : TrajectoryGenerator F Session) (start end_ : Waypoint F)
         (trajectories : list (Trajectory F)),
    inference_contract session_run (config_ g) ->
    isReady g = true ->
    (0 <= latent_dim (config_ g))%Z ->
    (0 <= seq_len (config_ g) < 2 ^ 31)%Z ->
    (0 <= rng_state_ g < 2 ^ 32)%Z ->
    exists ts,
      generate_loop session_run normal_draw g start end_ n trajectories
      = Ok (trajectories ++ ts,
            mkGenerator (config_ g) (norm_params_ g) (session_ g)
                        (to_uint32 (rng_state_ g + Z.of_nat n)))
      /\ length ts = n
      /\ Forall (fun t => Z.of_nat (length t) = seq_len (config_ g)) ts.
Proof.
  induction n as [|n IH];
    intros g start end_ trajectories Hc Hready Hdim Hlen Hrng.
  - exists []. cbn [generate_loop]. rewrite app_nil_r.
    split; [|split; [reflexivity|constructor]].
    destruct g as [c p s r]. cbn [config_ norm_params_ session_ rng_state_] in *.
    unfold to_uint32. change (Z.of_nat 0) with 0%Z.
    rewrite Z.add_0_r, Z.mod_small by assumption. reflexivity.
  - cbn [generate_loop].
    assert (Hgen : exists t,
               generate session_run normal_draw g start end_
               = Ok (t, mkGenerator (config_ g) (norm_params_ g) (session_ g)
                                    (to_uint32 (rng_state_ g + 1)))
               /\ Z.of_nat (length t) = seq_len (config_ g)).
    { unfold generate, isReady in *.
      destruct (session_ g) as [s|] eqn:Hs; [|discriminate].
      rewrite sampleLatent_ok by assumption. cbn [bind]. rewrite Hs.
      set (g1 := mkGenerator _ _ _ _).
      destruct (@runInference_ok F _ Session session_run g1 s
                  (map (normal_draw (rng_state_ g))
                       (seq 0 (Z.to_nat (latent_dim (config_ g)))))
                  start end_) as (t & Ht & Hlt); [assumption|assumption|].
      exists t. rewrite Ht. split; [reflexivity|exact Hlt]. }
    destruct Hgen as (t & Hgen & Hlt). rewrite Hgen. cbn [bind].
    set (g1 := mkGenerator _ _ _ _).
    destruct (IH g1 start end_ (trajectories ++ [t])) as (ts & Hloop & Hn & Hall).
    + exact Hc.
    + exact Hready.
    + exact Hdim.
    + exact Hlen.
    + unfold g1, to_uint32. cbn [rng_state_]. apply Z.mod_pos_bound. lia.
    + exists (t :: ts). rewrite Hloop.
      split; [|split; [cbn [length]; now rewrite Hn|now constructor]].
      rewrite <- app_assoc. cbn [app]. f_equal. f_equal.
      unfold g1. cbn [config_ norm_params_ session_ rng_state_]. f_equal.
      unfold to_uint32. rewrite Z.add_mod_idemp_l by lia. f_equal. lia.
Qed.

End Batches.

(** X6. [generateMultiple] on a ready generator whose model honours the
    inference contract: for [n_samples >= 0] it returns exactly [n_samples]
    trajectories, each of the configured length, and leaves the generator as
    it was except for the random state, which has advanced by [n_samples]
    modulo [2^32]; a negative [n_samples] raises [std::length_error] from
    [reserve]; a generator without a session raises [std::runtime_error]
    whatever [n_samples]. *)
Theorem X6_generateMultiple_count :
  forall (F : Type) (ops : FloatOps F) (Session : Type)
         (session_run : Session -> list F -> Inference.array3 F ->
                        Inference.array3 F -> option (Inference.Tensor F))
         (normal_draw : Z -> nat -> F)
         (g : Inference.TrajectoryGenerator F Session) (start end_ : Waypoint F)
         (n_samples : Z),
    inference_contract session_run (Inference.config_ g) ->
    (0 <= Inference.latent_dim (Inference.config_ g))%Z ->
    (0 <= Inference.getSeqLen g < 2 ^ 31)%Z ->
    (0 <= Inference.rng_state_ g < 2 ^ 32)%Z ->
    (Inference.isReady g = true -> (0 <= n_samples)%Z ->
       exists ts,
         Inference.generateMultiple session_run normal_draw g start end_ n_samples
         = Ok (ts,
               Inference.mkGenerator (Inference.config_ g)
                 (Inference.norm_params_ g) (Inference.session_ g)
                 (Inference.to_uint32 (Inference.rng_state_ g + n_samples)))
         /\ Z.of_nat (length ts) = n_samples
         /\ Forall (fun t => Z.of_nat (length t) = Inference.getSeqLen g) ts)
    /\ (Inference.isReady g = true -> (n_samples < 0)%Z ->
          Inference.generateMultiple session_run normal_draw g start end_ n_samples
          = Throw length_error)
    /\ (Inference.isReady g = false ->
          Inference.generateMultiple session_run normal_draw g start end_ n_samples
          = Throw (runtime_error "Generator not initialized")).
Proof.
  intros F ops Session session_run normal_draw g start end_ n_samples
         Hc Hdim Hlen Hrng.
  unfold Inference.getSeqLen in *.
  split; [|split].
  - intros Hready Hn.
    destruct (@generate_loop_ok F ops Session session_run normal_draw
                (Z.to_nat n_samples) g start end_ [])
      as (ts & Hloop & Hcount & Hall); try assumption.
    exists ts. unfold Inference.generateMultiple.
    unfold Inference.isReady in Hready.
    destruct (Inference.session_ g) as [s|] eqn:Hs; [|discriminate].
    destruct (Z.ltb_spec n_samples 0) as [Hneg|_]; [lia|].
    rewrite Hloop. cbn [app].
    rewrite Z2Nat.id by assumption.
    split; [reflexivity|]. split; [lia|exact Hall].
  - intros Hready Hneg. unfold Inference.generateMultiple.
    unfold Inference.isReady in Hready.
    destruct (Inference.session_ g) as [s|]; [|discriminate].
    destruct (Z.ltb_spec n_samples 0) as [_|Hpos]; [reflexivity|lia].
  - intros Hready. unfold Inference.generateMultiple.
    unfold Inference.isReady in Hready.
    now destruct (Inference.session_ g) as [s|].
Qed.

Lemma X6_generateMultiple_count_witness :
  let ops := binary32_no_acos in
  let run := Inference.generateMultiple two_point_model (fun _ _ => f0)
               two_point_generator (waypoint 0 0 100) (waypoint 800 600 200) in
  (exists ts,
     run 10%Z
     = Ok (ts,
           Inference.mkGenerator (Inference.config_ two_point_generator)
             (Inference.norm_params_ two_point_generator)
             (Inference.session_ two_point_generator)
             (Inference.to_uint32 (0 + 10)))
     /\ Z.of_nat (length ts) = 10%Z
     /\ Forall (fun t => Z.of_nat (length t) = 2%Z) ts)
  /\ run (-1)%Z = Throw length_error.
Proof.
  intros ops run.
  destruct (@X6_generateMultiple_count B32.float ops unit two_point_model
              (fun _ _ => f0) two_point_generator
              (waypoint 0 0 100) (waypoint 800 600 200) 10%Z)
    as (Hok & _ & _).
  - intros s latent start_norm end_norm. eexists.
    split; [reflexivity|]. split; reflexivity.
  - simpl. lia.
  - unfold Inference.getSeqLen, two_point_generator.
    cbn [Inference.seq_len Inference.config_]. lia.
  - unfold two_point_generator. cbn [Inference.rng_state_]. lia.
  - split; [apply Hok; [reflexivity|lia]|].
    destruct (@X6_generateMultiple_count B32.float ops unit two_point_model
                (fun _ _ => f0) two_point_generator
                (waypoint 0 0 100) (waypoint 800 600 200) (-1)%Z)
      as (_ & Hneg & _).
    + intros s latent start_norm end_norm. eexists.
      split; [reflexivity|]. split; reflexivity.
    + simpl. lia.
    + unfold Inference.getSeqLen, two_point_generator.
      cbn [Inference.seq_len Inference.config_]. lia.
    + unfold two_point_generator. cbn [Inference.rng_state_]. lia.
    + apply Hneg; [reflexivity|lia].
Defined.

(** ** Exact arithmetic: second-order smoothness *)

Section ExactSecondOrder.

Open Scope R_scope.

Lemma f2_exact : @f2 R exact = 2.
Proof. unfold f2. cbn. field. Qed.

(** A loop that adds nonnegative terms: the sum is at least the initial
    value, and equal to it exactly when every term is zero. *)
Lemma sum_loop_nonneg {A : Type} (g : A -> R) (l : list A) (s : R) :
  (forall i, In i l -> 0 <= g i) ->
  s <= fold_left (fun acc i => acc + g i) l s
  /\ (fold_left (fun acc i => acc + g i) l s = s
      <-> forall i, In i l -> g i = 0).
Proof.
  revert s. induction l as [|i l IH]; intros s Hpos; cbn [fold_left].
  - split; [lra|]. split; [intros _ j []|reflexivity].
  - assert (Hi : 0 <= g i) by (apply Hpos; now left).
    destruct (IH (s + g i)) as [Hle Hiff].
    { intros j Hj. apply Hpos. now right. }
    split; [lra|]. split.
    + intros Heq. assert (Hgi : g i = 0) by lra.
      intros j [<-|Hj]; [exact Hgi|].
      apply Hiff; [|exact Hj]. lra.
    + intros Hall. rewrite (proj2 Hiff).
      * rewrite (Hall i) by now left. lra.
      * intros j Hj. apply Hall. now right.
Qed.

Lemma square_sum_zero (a b c : R) :
  a * a + b * b + c * c = 0 <-> a = 0 /\ b = 0 /\ c = 0.
Proof.
  split.
  - intros Hs.
    pose proof (Rle_0_sqr a). pose proof (Rle_0_sqr b). pose proof (Rle_0_sqr c).
    unfold Rsqr in *.
    assert (a * a = 0) by lra. assert (b * b = 0) by lra.
    assert (c * c = 0) by lra.
    repeat split; now apply Rsqr_0_uniq.
  - intros (-> & -> & ->). ring.
Qed.

End ExactSecondOrder.

(** X7. In exact arithmetic [computeSecondOrderSmoothness] is never
    negative, and on a trajectory of three or more waypoints it is 0 exactly
    when every waypoint but the first and the last is the midpoint of its
    two neighbours, that is, when the waypoints are evenly spaced along one
    line. *)
Theorem X7_second_order_smoothness_zero_iff :
  forall t : Trajectory R,
    (0 <= Metrics.computeSecondOrderSmoothness t)%R
    /\ (3 <= length t ->
        (Metrics.computeSecondOrderSmoothness t = 0%R
         <-> forall i, 1 <= i < length t - 1 ->
               (x (at_ t (i + 1)) - x (at_ t i) = x (at_ t i) - x (at_ t (i - 1))
                /\ y (at_ t (i + 1)) - y (at_ t i) = y (at_ t i) - y (at_ t (i - 1))
                /\ z (at_ t (i + 1)) - z (at_ t i) = z (at_ t i) - z (at_ t (i - 1)))%R)).
Proof.
  intros t. unfold Metrics.computeSecondOrderSmoothness.
  destruct (Nat.ltb_spec (length t) 3) as [Hshort|Hlong].
  { split; [rewrite f0_exact; lra|lia]. }
  set (g := fun i : nat =>
    ((x (at_ t (i + 1)) - 2 * x (at_ t i) + x (at_ t (i - 1)))
     * (x (at_ t (i + 1)) - 2 * x (at_ t i) + x (at_ t (i - 1)))
     + (y (at_ t (i + 1)) - 2 * y (at_ t i) + y (at_ t (i - 1)))
       * (y (at_ t (i + 1)) - 2 * y (at_ t i) + y (at_ t (i - 1)))
     + (z (at_ t (i + 1)) - 2 * z (at_ t i) + z (at_ t (i - 1)))
       * (z (at_ t (i + 1)) - 2 * z (at_ t i) + z (at_ t (i - 1))))%R).
  cbv zeta. unfold for_loop. rewrite f0_exact, f2_exact.
  change (fold_left _ (seq 1 (length t - 1 - 1)) 0%R)
    with (fold_left (fun acc i => acc + g i)%R (seq 1 (length t - 1 - 1)) 0%R).
  destruct (@sum_loop_nonneg nat g (seq 1 (length t - 1 - 1)) 0%R) as [Hle Hiff].
  { intros i _. unfold g. apply sum_squares_nonneg. }
  assert (Hn : (0 < INR (length t - 2))%R) by (apply lt_0_INR; lia).
  cbn [fdiv of_size exact].
  split.
  - apply Rmult_le_pos; [exact Hle|].
    left. now apply Rinv_0_lt_compat.
  - intros _. split.
    + intros Hzero.
      assert (Hsum : fold_left (fun acc i => acc + g i)%R
                       (seq 1 (length t - 1 - 1)) 0%R = 0%R).
      { apply Rmult_integral in Hzero. destruct Hzero as [Hz|Hz]; [exact Hz|].
        pose proof (Rinv_0_lt_compat _ Hn). lra. }
      intros i Hi.
      assert (Hg : g i = 0%R).
      { apply (proj1 Hiff Hsum). apply in_seq. lia. }
      unfold g in Hg. apply square_sum_zero in Hg.
      destruct Hg as (Hx & Hy & Hz). repeat split; lra.
    + intros Hmid. rewrite (proj2 Hiff); [unfold Rdiv; ring|].
      intros i Hi. apply in_seq in Hi. unfold g.
      apply square_sum_zero.
      destruct (Hmid i) as (Hx & Hy & Hz); [lia|]. repeat split; lra.
Qed.

(** ** Validity against the reported metrics *)

Lemma evaluateTrajectory_max_curvature {F : Type} `{FloatOps F}
    (w : Waypoint F) (t : Trajectory F) (expected_end : Waypoint F) :
  Metrics.max_curvature (Metrics.evaluateTrajectory (w :: t) expected_end)
  = Metrics.computeMaxCurvature (w :: t).
Proof.
  unfold Metrics.evaluateTrajectory.
  destruct (Metrics.altitude_loop (w :: t)) as [[mn mx] s]. reflexivity.
Qed.

Lemma Rltb_false (a b : R) : Rltb a b = false <-> (b <= a)%R.
Proof. unfold Rltb. destruct (Rlt_dec a b); split; intros; (lra || discriminate). Qed.

(** X8. In exact arithmetic [isTrajectoryValid] accepts a trajectory exactly
    when it is non-empty and the metrics [evaluateTrajectory] reports for it
    are within the limits: [max_curvature] at most the curvature limit, and
    the range from [min_altitude] to [max_altitude] inside the altitude
    limits.  The empty trajectory is rejected whatever the limits. *)
Theorem X8_valid_iff_metrics_within_limits :
  forall (t : Trajectory R) (expected_end : Waypoint R)
         (max_curv min_alt max_alt : R),
    let m := Metrics.evaluateTrajectory t expected_end in
    Metrics.isTrajectoryValid t max_curv min_alt max_alt = true
    <-> t <> []
        /\ (Metrics.max_curvature m <= max_curv)%R
        /\ (min_alt <= Metrics.min_altitude m)%R
        /\ (Metrics.max_altitude m <= max_alt)%R.
Proof.
  intros t expected_end max_curv min_alt max_alt.
  destruct t as [|w t].
  { cbn. split; [discriminate|]. intros [Hne _]. now contradiction Hne. }
  cbv zeta. rewrite evaluateTrajectory_max_curvature.
  destruct (evaluateTrajectory_altitudes w t expected_end)
    as (Hall & (wmin & Hinmin & Hzmin) & (wmax & Hinmax & Hzmax) & _).
  set (m := Metrics.evaluateTrajectory (w :: t) expected_end) in *.
  unfold Metrics.isTrajectoryValid.
  change (Metrics.computeMaxCurvature (w :: t) >? max_curv)%fl
    with (Rltb max_curv (Metrics.computeMaxCurvature (w :: t))).
  rewrite Forall_forall in Hall.
  split.
  - intros Hvalid.
    destruct (Rltb max_curv (Metrics.computeMaxCurvature (w :: t))) eqn:Hcurv;
      [discriminate|].
    apply Rltb_false in Hcurv. rewrite forallb_forall in Hvalid.
    split; [discriminate|]. split; [exact Hcurv|]. split.
    + specialize (Hvalid wmin Hinmin).
      apply negb_true_iff, orb_false_iff in Hvalid. destruct Hvalid as [Hlo _].
      apply Rltb_false in Hlo. lra.
    + specialize (Hvalid wmax Hinmax).
      apply negb_true_iff, orb_false_iff in Hvalid. destruct Hvalid as [_ Hhi].
      apply Rltb_false in Hhi. lra.
  - intros (_ & Hcurv & Hlo & Hhi).
    apply Rltb_false in Hcurv. rewrite Hcurv.
    apply forallb_forall. intros wp Hin.
    apply negb_true_iff, orb_false_iff. specialize (Hall wp Hin).
    split; apply Rltb_false; lra.
Qed.

(** ** binary32: the validity check and NaN *)

Lemma SFltb_nan_l (a : B32.float) : SFltb S754_nan a = false.
Proof. reflexivity. Qed.

Lemma SFltb_nan_r (a : B32.float) : SFltb a S754_nan = false.
Proof. now destruct a as [s|s| |s m e]. Qed.

Lemma is_nan_eq (a : B32.float) : B32.is_nan a = true -> a = S754_nan.
Proof. now destruct a. Qed.

(** X9. In binary32 the altitude check of [isTrajectoryValid] never rejects
    a NaN: a non-empty trajectory that passes the curvature check is
    accepted when all its altitudes are NaN, whatever the altitude limits,
    and it is accepted whatever its altitudes when both limits are NaN. *)
Theorem X9_validity_accepts_nan :
  forall (acos : B32.float -> B32.float) (t : Trajectory B32.float)
         (max_curv min_alt max_alt : B32.float),
    let ops := binary32 acos in
    t <> [] ->
    (Metrics.computeMaxCurvature t >? max_curv)%fl = false ->
    Forall (fun wp => B32.is_nan (z wp) = true) t
    \/ (B32.is_nan min_alt = true /\ B32.is_nan max_alt = true) ->
    Metrics.isTrajectoryValid t max_curv min_alt max_alt = true.
Proof.
  intros acos t max_curv min_alt max_alt ops Hne Hcurv Hnan.
  unfold Metrics.isTrajectoryValid.
  destruct t as [|w t]; [now contradiction Hne|].
  rewrite Hcurv. apply forallb_forall. intros wp Hin.
  apply negb_true_iff, orb_false_iff.
  destruct Hnan as [Hall|[Hmin Hmax]].
  - rewrite Forall_forall in Hall. specialize (Hall wp Hin).
    apply is_nan_eq in Hall. rewrite Hall. split; [reflexivity|].
    unfold fgt. cbn [flt ops binary32]. apply SFltb_nan_r.
  - apply is_nan_eq in Hmin, Hmax. subst min_alt max_alt.
    split; [apply SFltb_nan_r|reflexivity].
Qed.

Lemma X9_validity_accepts_nan_witness :
  let ops := binary32_no_acos in
  Metrics.isTrajectoryValid
    [mkWaypoint (B32.of_Z 0) (B32.of_Z 0) S754_nan;
     mkWaypoint (B32.of_Z 10) (B32.of_Z 0) S754_nan]
    (B32.of_Z 1) (B32.of_Z 50) (B32.of_Z 500) = true.
Proof.
  intros ops.
  apply (@X9_validity_accepts_nan acos_not_called
           [mkWaypoint (B32.of_Z 0) (B32.of_Z 0) S754_nan;
            mkWaypoint (B32.of_Z 10) (B32.of_Z 0) S754_nan]
           (B32.of_Z 1) (B32.of_Z 50) (B32.of_Z 500)).
  - discriminate.
  - reflexivity.
  - left. repeat constructor.
Defined.

(** ** Exact arithmetic: diversity *)

Lemma in_index_pairs (n i j : nat) :
  In (i, j) (index_pairs n) <-> i < j < n.
Proof.
  unfold index_pairs. rewrite in_flat_map. split.
  - intros (i' & Hi' & Hin). apply in_map_iff in Hin.
    destruct Hin as (j' & Heq & Hj'). injection Heq as <- <-.
    apply in_seq in Hi', Hj'. lia.
  - intros Hij. exists i. split; [apply in_seq; lia|].
    apply in_map_iff. exists j. split; [reflexivity|apply in_seq; lia].
Qed.

Lemma index_pairs_nonempty (n : nat) : 2 <= n -> 0 < length (index_pairs n).
Proof.
  intros Hn. assert (Hin : In (0, 1) (index_pairs n)) by (apply in_index_pairs; lia).
  destruct (index_pairs n); [contradiction|simpl; lia].
Qed.

Section ExactDiversity.

Open Scope R_scope.

Lemma fold_left_Rplus_map {A : Type} (g : A -> R) (l : list A) (s : R) :
  fold_left Rplus (map g l) s = fold_left (fun acc a => acc + g a) l s.
Proof.
  revert s. induction l as [|a l IH]; intros s; simpl; [reflexivity|apply IH].
Qed.

Lemma waypoint_eq_iff (a b : Waypoint R) :
  norm3 (x a - x b) (y a - y b) (z a - z b) = 0 <-> a = b.
Proof.
  rewrite norm3_zero_iff. destruct a as [ax ay az], b as [bx b_y bz].
  cbn [x y z]. split.
  - intros (Hx & Hy & Hz). f_equal; lra.
  - intros Heq. injection Heq as -> -> ->. lra.
Qed.

(** The mean distance of a pair of non-empty trajectories is nonnegative,
    and zero exactly when they agree on their common prefix. *)
Lemma pair_distance_zero_iff (t1 t2 : Trajectory R) :
  t1 <> [] -> t2 <> [] ->
  0 <= Metrics.pair_distance t1 t2
  /\ (Metrics.pair_distance t1 t2 = 0
      <-> forall k, (k < Nat.min (length t1) (length t2))%nat ->
            at_ t1 k = at_ t2 k).
Proof.
  intros H1 H2. unfold Metrics.pair_distance. cbv zeta.
  set (m := Nat.min (length t1) (length t2)).
  assert (Hm : 0 < INR m).
  { apply lt_0_INR. unfold m. destruct t1, t2; simpl; try contradiction; lia. }
  unfold for_loop. rewrite f0_exact, Nat.sub_0_r.
  set (g := fun k : nat =>
    norm3 (x (at_ t1 k) - x (at_ t2 k)) (y (at_ t1 k) - y (at_ t2 k))
          (z (at_ t1 k) - z (at_ t2 k))).
  change (fold_left _ (seq 0 m) 0)
    with (fold_left (fun acc k => acc + g k) (seq 0 m) 0).
  destruct (@sum_loop_nonneg nat g (seq 0 m) 0) as [Hle Hiff].
  { intros k _. apply norm3_nonneg. }
  cbn [fdiv of_size exact].
  pose proof (Rinv_0_lt_compat _ Hm) as Hinv.
  split.
  - apply Rmult_le_pos; [exact Hle|lra].
  - split.
    + intros Hzero. apply Rmult_integral in Hzero.
      destruct Hzero as [Hz|Hz]; [|lra].
      intros k Hk. apply waypoint_eq_iff.
      apply (proj1 Hiff Hz). apply in_seq. lia.
    + intros Hagree. rewrite (proj2 Hiff); [unfold Rdiv; ring|].
      intros k Hk. apply in_seq in Hk. unfold g.
      apply waypoint_eq_iff. apply Hagree. lia.
Qed.

End ExactDiversity.

(** X10. In exact arithmetic, the diversity of two to 65536 non-empty
    trajectories is nonnegative, and it is 0 exactly when every two of them
    agree on their common prefix: waypoints beyond the length of the shorter
    trajectory of a pair are not compared.  Up to 65536 trajectories the
    number of pairs, at most [65536 * 65535 / 2 = 2147450880], fits the
    [int n_pairs] of the source; from 65537 on it does not. *)
Theorem X10_diversity_zero_iff :
  forall ts : list (Trajectory R),
    2 <= length ts ->
    (Z.of_nat (length ts) <= 65536)%Z ->
    Forall (fun t => t <> []) ts ->
    (0 <= Metrics.computeDiversity ts)%R
    /\ (Metrics.computeDiversity ts = 0%R
        <-> forall i j, i < j < length ts ->
              forall k, k < Nat.min (length (nth i ts [])) (length (nth j ts [])) ->
                at_ (nth i ts []) k = at_ (nth j ts []) k).
Proof.
  intros ts Hlen _ Hne.
  rewrite (computeDiversity_average ts Hlen). cbv zeta.
  pose proof (index_pairs_nonempty Hlen) as Hps.
  destruct (Nat.ltb_spec 0 (length (index_pairs (length ts)))) as [_|Hz]; [|lia].
  set (pd := fun p : nat * nat =>
    Metrics.pair_distance (nth (fst p) ts []) (nth (snd p) ts [])).
  rewrite f0_exact.
  change (fold_left fadd (map _ (index_pairs (length ts))) 0%R)
    with (fold_left Rplus (map pd (index_pairs (length ts))) 0%R).
  rewrite fold_left_Rplus_map.
  assert (Hnth : forall i, i < length ts -> nth i ts [] <> []).
  { intros i Hi. rewrite Forall_forall in Hne. apply Hne. now apply nth_In. }
  assert (Hpd : forall p, In p (index_pairs (length ts)) ->
            (0 <= pd p)%R
            /\ (pd p = 0%R
                <-> forall k,
                      k < Nat.min (length (nth (fst p) ts []))
                                  (length (nth (snd p) ts [])) ->
                      at_ (nth (fst p) ts []) k = at_ (nth (snd p) ts []) k)).
  { intros [i j] Hin. apply in_index_pairs in Hin. unfold pd. cbn [fst snd].
    assert (Hi : nth i ts [] <> []) by (apply Hnth; lia).
    assert (Hj : nth j ts [] <> []) by (apply Hnth; lia).
    exact (pair_distance_zero_iff Hi Hj). }
  destruct (@sum_loop_nonneg _ pd (index_pairs (length ts)) 0%R) as [Hle Hiff].
  { intros p Hp. now apply Hpd. }
  assert (Hn : (0 < INR (length (index_pairs (length ts))))%R)
    by now apply lt_0_INR.
  pose proof (Rinv_0_lt_compat _ Hn) as Hinv.
  cbn [fdiv of_size exact].
  split.
  - apply Rmult_le_pos; [exact Hle|lra].
  - split.
    + intros Hzero. apply Rmult_integral in Hzero.
      destruct Hzero as [Hsum|Hbad]; [|lra].
      intros i j Hij.
      assert (Hin : In (i, j) (index_pairs (length ts)))
        by now apply in_index_pairs.
      apply (proj1 (proj2 (Hpd (i, j) Hin))).
      now apply (proj1 Hiff Hsum).
    + intros Hagree. rewrite (proj2 Hiff); [unfold Rdiv; ring|].
      intros [i j] Hin. apply (proj2 (proj2 (Hpd (i, j) Hin))).
      cbn [fst snd]. apply Hagree. now apply in_index_pairs.
Qed.

Lemma X10_diversity_zero_iff_witness :
  let a := mkWaypoint 0%R 0%R 100%R in
  let b := mkWaypoint 800%R 600%R 200%R in
  let ts := [[a; b]; [a]] in
  (0 <= Metrics.computeDiversity ts)%R
  /\ (Metrics.computeDiversity ts = 0%R
      <-> forall i j, i < j < length ts ->
            forall k, k < Nat.min (length (nth i ts [])) (length (nth j ts [])) ->
              at_ (nth i ts []) k = at_ (nth j ts []) k).
Proof.
  intros a b ts. apply (@X10_diversity_zero_iff ts).
  - cbn [length ts]. lia.
  - cbn [length ts]. lia.
  - repeat constructor; discriminate.
Defined.

(** ** Diversity reads common prefixes only *)

Lemma at_app_l {F : Type} `{FloatOps F} (t extra : Trajectory F) (k : nat) :
  k < length t -> at_ (t ++ extra) k = at_ t k.
Proof. intros Hk. unfold at_. now apply app_nth1. Qed.

(** X11. Whatever the arithmetic, the waypoints of the longer trajectory of
    a pair beyond the length of the shorter one do not enter the diversity:
    extending the trajectory that is already at least as long as the other
    changes neither the per-pair mean distance nor the diversity of the
    pair. *)
Theorem X11_diversity_ignores_tail :
  forall (F : Type) (ops : FloatOps F) (t1 t2 extra : Trajectory F),
    length t1 <= length t2 ->
    Metrics.pair_distance t1 (t2 ++ extra) = Metrics.pair_distance t1 t2
    /\ Metrics.pair_distance (t2 ++ extra) t1 = Metrics.pair_distance t2 t1
    /\ Metrics.computeDiversity [t1; t2 ++ extra] = Metrics.computeDiversity [t1; t2]
    /\ Metrics.computeDiversity [t2 ++ extra; t1] = Metrics.computeDiversity [t2; t1].
Proof.
  intros F ops t1 t2 extra Hlen.
  assert (Hr : Metrics.pair_distance t1 (t2 ++ extra) = Metrics.pair_distance t1 t2).
  { unfold Metrics.pair_distance. cbv zeta. rewrite length_app.
    replace (Nat.min (length t1) (length t2 + length extra)) with (length t1) by lia.
    replace (Nat.min (length t1) (length t2)) with (length t1) by lia.
    f_equal. apply for_loop_ext. intros k acc Hk.
    rewrite at_app_l by lia. reflexivity. }
  assert (Hl : Metrics.pair_distance (t2 ++ extra) t1 = Metrics.pair_distance t2 t1).
  { unfold Metrics.pair_distance. cbv zeta. rewrite length_app.
    replace (Nat.min (length t2 + length extra) (length t1)) with (length t1) by lia.
    replace (Nat.min (length t2) (length t1)) with (length t1) by lia.
    f_equal. apply for_loop_ext. intros k acc Hk.
    rewrite at_app_l by lia. reflexivity. }
  split; [exact Hr|]. split; [exact Hl|].
  split.
  - rewrite (computeDiversity_pair t1 (t2 ++ extra)), (computeDiversity_pair t1 t2).
    now rewrite Hr.
  - rewrite (computeDiversity_pair (t2 ++ extra) t1), (computeDiversity_pair t2 t1).
    now rewrite Hl.
Qed.

Lemma X11_diversity_ignores_tail_witness :
  let ops := binary32_no_acos in
  let t1 := [waypoint 0 0 100] in
  let t2 := [waypoint 0 0 100; waypoint 800 600 200] in
  let extra := [waypoint 900 900 900] in
  Metrics.pair_distance t1 (t2 ++ extra) = Metrics.pair_distance t1 t2
  /\ Metrics.pair_distance (t2 ++ extra) t1 = Metrics.pair_distance t2 t1
  /\ Metrics.computeDiversity [t1; t2 ++ extra] = Metrics.computeDiversity [t1; t2]
  /\ Metrics.computeDiversity [t2 ++ extra; t1] = Metrics.computeDiversity [t2; t1].
Proof.
  intros ops t1 t2 extra.
  apply (@X11_diversity_ignores_tail B32.float ops t1 t2 extra).
  simpl. lia.
Defined.

(** ** Parsing a rendered normalization file *)

Section Strings.

Open Scope string_scope.

Lemma append_assoc (a b c : string) : (a ++ b) ++ c = a ++ (b ++ c).
Proof. induction a as [|ch a IH]; simpl; [reflexivity|now rewrite IH]. Qed.

Lemma append_nil_r (a : string) : a ++ EmptyString = a.
Proof. induction a as [|ch a IH]; simpl; [reflexivity|now rewrite IH]. Qed.

Lemma all_chars_app (p : ascii -> bool) (a b : string) :
  all_chars p (a ++ b) = all_chars p a && all_chars p b.
Proof.
  induction a as [|ch a IH]; simpl; [reflexivity|].
  now rewrite IH, andb_assoc.
Qed.

Lemma all_chars_impl (p q : ascii -> bool) (s : string) :
  (forall c, p c = true -> q c = true) ->
  all_chars p s = true -> all_chars q s = true.
Proof.
  intros Himp. induction s as [|ch s IH]; simpl; [reflexivity|].
  intros Hs. apply andb_true_iff in Hs. destruct Hs as [Hc Hs].
  now rewrite (Himp _ Hc), IH.
Qed.

Lemma literal_key (key p s : string) :
  Regex.literal (key ++ p) (key ++ s) = Regex.literal p s.
Proof.
  induction key as [|ch key IH]; simpl; [reflexivity|].
  now rewrite Ascii.eqb_refl.
Qed.

Lemma in_class_not_dquote (c : ascii) :
  Regex.in_class c = true -> Ascii.eqb c Regex.dquote = false.
Proof.
  intros Hc. destruct (Ascii.eqb_spec c Regex.dquote) as [->|]; [|reflexivity].
  discriminate Hc.
Qed.

(** The search moves past a character at which no match starts. *)
Lemma regex_search_step (key : string) (c : ascii) (s : string) :
  Regex.match_here key (String c s) = None ->
  Regex.regex_search key (String c s) = Regex.regex_search key s.
Proof. intros Hnone. cbn [Regex.regex_search]. now rewrite Hnone. Qed.

Lemma match_here_not_dquote (key : string) (c : ascii) (s : string) :
  Ascii.eqb c Regex.dquote = false ->
  Regex.match_here key (String c s) = None.
Proof.
  intros Hc. unfold Regex.match_here. cbn [Regex.literal].
  now rewrite Ascii.eqb_sym, Hc.
Qed.

Lemma regex_search_skip (key pre s : string) :
  all_chars (fun c => negb (Ascii.eqb c Regex.dquote)) pre = true ->
  Regex.regex_search key (pre ++ s) = Regex.regex_search key s.
Proof.
  induction pre as [|ch pre IH]; intros Hpre; [reflexivity|].
  cbn [all_chars] in Hpre. apply andb_true_iff in Hpre.
  destruct Hpre as [Hc Hpre]. apply negb_true_iff in Hc.
  cbn [append]. rewrite regex_search_step by now apply match_here_not_dquote.
  now apply IH.
Qed.

Lemma regex_search_here (key s run : string) :
  Regex.match_here key s = Some run -> Regex.regex_search key s = Some run.
Proof. intros Hm. destruct s; cbn [Regex.regex_search]; now rewrite Hm. Qed.

(** The class run stops at the closing bracket. *)
Lemma span_class_run (run rest : string) :
  all_chars Regex.in_class run = true ->
  Regex.span_class (run ++ String "]" rest) = (run, String "]" rest).
Proof.
  induction run as [|ch run IH]; intros Hrun; [reflexivity|].
  cbn [all_chars] in Hrun. apply andb_true_iff in Hrun.
  destruct Hrun as [Hc Hrun].
  cbn [append Regex.span_class]. rewrite Hc, IH by assumption. reflexivity.
Qed.

Lemma is_token_class (t : string) :
  is_token t = true -> all_chars Regex.in_class t = true.
Proof.
  apply all_chars_impl. intros c Hc. now apply andb_true_iff in Hc.
Qed.

Lemma is_token_no_comma (t : string) :
  is_token t = true ->
  all_chars (fun c => negb (Ascii.eqb c ",")) t = true.
Proof.
  apply all_chars_impl. intros c Hc. now apply andb_true_iff in Hc.
Qed.

Lemma is_array_cons (t u : string) (ts : list string) :
  is_array (t :: u :: ts) = true ->
  is_token t = true /\ is_array (u :: ts) = true.
Proof.
  unfold is_array. intros Ha. apply andb_true_iff in Ha.
  destruct Ha as [Hall Hlast]. cbn [forallb] in Hall.
  apply andb_true_iff in Hall. destruct Hall as [Ht Hall].
  split; [exact Ht|]. apply andb_true_iff. split; [exact Hall|exact Hlast].
Qed.

Lemma is_array_one (t : string) :
  is_array [t] = true -> is_token t = true /\ t <> EmptyString.
Proof.
  unfold is_array. cbn [forallb last]. intros Ha.
  apply andb_true_iff in Ha. destruct Ha as [Ht Hne].
  rewrite andb_true_r in Ht. split; [exact Ht|].
  intros ->. discriminate Hne.
Qed.

Lemma join_class (ts : list string) :
  is_array ts = true -> all_chars Regex.in_class (join ts) = true.
Proof.
  induction ts as [|t ts IH]; intros Ha; [reflexivity|].
  destruct ts as [|u ts].
  - apply is_array_one in Ha. now apply is_token_class.
  - apply is_array_cons in Ha. destruct Ha as [Ht Ha].
    cbn [join]. rewrite !all_chars_app. cbn [all_chars].
    rewrite (is_token_class _ Ht). cbn [andb Regex.in_class].
    now apply IH.
Qed.

Lemma join_not_empty (ts : list string) :
  is_array ts = true -> join ts <> EmptyString.
Proof.
  destruct ts as [|t [|u ts]]; intros Ha.
  - discriminate Ha.
  - now apply is_array_one in Ha.
  - cbn [join]. destruct t; discriminate.
Qed.

(** A match starts at a rendered field of the key. *)
Lemma match_here_field (key : string) (ts : list string) (rest : string) :
  is_array ts = true ->
  Regex.match_here key (render_field key ts ++ rest) = Some (join ts).
Proof.
  intros Ht. unfold Regex.match_here, render_field.
  cbn [append Regex.literal]. rewrite Ascii.eqb_refl.
  rewrite append_assoc, literal_key. cbn [append Regex.literal].
  rewrite Ascii.eqb_refl.
  change (Regex.skip_spaces (String ":" ?s)) with (String ":" s).
  cbn [Regex.literal]. rewrite Ascii.eqb_refl. cbv beta iota.
  change (Regex.skip_spaces (String " " (String "[" ?s))) with (String "[" s).
  cbv beta iota. rewrite Ascii.eqb_refl. cbv beta iota.
  rewrite append_assoc. cbn [append].
  rewrite span_class_run by now apply join_class.
  destruct (join ts) eqn:Hr; [now apply join_not_empty in Hr|].
  rewrite Ascii.eqb_refl. reflexivity.
Qed.

(** [std::getline] splits a rendered array into its tokens. *)
Lemma getline_tokens_aux_token (cur t s : string) :
  all_chars (fun c => negb (Ascii.eqb c ",")) t = true ->
  Regex.getline_tokens_aux cur (t ++ s) = Regex.getline_tokens_aux (cur ++ t) s.
Proof.
  revert cur. induction t as [|ch t IH]; intros cur Ht.
  - now rewrite append_nil_r.
  - cbn [all_chars] in Ht. apply andb_true_iff in Ht. destruct Ht as [Hc Ht].
    apply negb_true_iff in Hc.
    cbn [append Regex.getline_tokens_aux]. rewrite Hc, IH by assumption.
    rewrite append_assoc. reflexivity.
Qed.

Lemma getline_tokens_join (ts : list string) :
  is_array ts = true -> Regex.getline_tokens (join ts) = ts.
Proof.
  unfold Regex.getline_tokens.
  induction ts as [|t ts IH]; intros Ha; [discriminate Ha|].
  destruct ts as [|u ts].
  - apply is_array_one in Ha. destruct Ha as [Ht Hne]. cbn [join].
    rewrite <- (append_nil_r t) at 1.
    rewrite getline_tokens_aux_token by now apply is_token_no_comma.
    cbn [append Regex.getline_tokens_aux]. now destruct t.
  - apply is_array_cons in Ha. destruct Ha as [Ht Ha]. cbn [join].
    rewrite getline_tokens_aux_token by now apply is_token_no_comma.
    cbn [append Regex.getline_tokens_aux]. rewrite Ascii.eqb_refl.
    f_equal. now apply IH.
Qed.

(** The first match for ["mean"] in a rendered document is its [mean] field,
    and the first match for ["std"] its [std] field. *)
Lemma regex_search_mean (ms ss : list string) :
  is_array ms = true ->
  Regex.regex_search "mean" (render_document ms ss) = Some (join ms).
Proof.
  intros Hm. unfold render_document.
  change ("{" ++ ?s) with (String "{" s).
  rewrite regex_search_step by (now apply match_here_not_dquote).
  apply regex_search_here. now apply match_here_field.
Qed.

Lemma regex_search_std (ms ss : list string) :
  is_array ms = true ->
  is_array ss = true ->
  Regex.regex_search "std" (render_document ms ss) = Some (join ss).
Proof.
  intros Hm Hs. unfold render_document.
  change ("{" ++ ?s) with (String "{" s).
  rewrite regex_search_step by (now apply match_here_not_dquote).
  unfold render_field at 1. cbn [append].
  rewrite regex_search_step by reflexivity.
  do 4 (rewrite regex_search_step by (now apply match_here_not_dquote)).
  rewrite regex_search_step by reflexivity.
  do 3 (rewrite regex_search_step by (now apply match_here_not_dquote)).
  rewrite append_assoc, regex_search_skip.
  - cbn [append].
    do 3 (rewrite regex_search_step by (now apply match_here_not_dquote)).
    apply regex_search_here. now apply match_here_field.
  - apply all_chars_impl with (p := Regex.in_class).
    + intros c Hc. now apply negb_true_iff, in_class_not_dquote.
    + now apply join_class.
Qed.

End Strings.

Section LoadingRendered.

Import Inference.

Context {F : Type} `{FloatOps F} {Session : Type}.
Variable read_file : string -> option string.
Variable stof : string -> option F.

(** Loading a rendered document comes down to converting its tokens. *)
Lemma loadNormalization_rendered (g : TrajectoryGenerator F Session)
    (path : string) (ms ss : list string) :
  read_file path = Some (render_document ms ss) ->
  is_array ms = true ->
  is_array ss = true ->
  loadNormalization read_file stof g path
  = match (m <- fill_array stof ms 0 (mean NormalizationParams0) ;;
           s <- fill_array stof ss 0 (std NormalizationParams0) ;;
           Ok (mkNorm m s)) with
    | Ok params =>
      (true, mkGenerator (config_ g) params (session_ g) (rng_state_ g))
    | Throw _ => (false, g)
    end.
Proof.
  intros Hfile Hm Hs. unfold loadNormalization, parseNormalizationJSON.
  rewrite Hfile. unfold parse_field.
  rewrite (@regex_search_mean ms ss Hm), (@regex_search_std ms ss Hm Hs).
  rewrite !getline_tokens_join by assumption. reflexivity.
Qed.

(** The conversion loop stores the first three converted tokens at most. *)
Lemma fill_array_converted (ts : list string) (vs : list F) (a : array3 F) :
  map stof (firstn 3 ts) = map Some vs ->
  fill_array stof ts 0 a
  = Ok (mkArray3 (nth 0 vs (a0 a)) (nth 1 vs (a1 a)) (nth 2 vs (a2 a))).
Proof.
  intros Hconv. destruct a as [x0 x1 x2].
  destruct ts as [|t1 [|t2 [|t3 ts]]]; cbn [firstn map] in Hconv.
  - destruct vs; [reflexivity|discriminate].
  - destruct vs as [|v1 [|? ?]]; try discriminate.
    injection Hconv as H1. cbn. now rewrite H1.
  - destruct vs as [|v1 [|v2 [|? ?]]]; try discriminate.
    injection Hconv as H1 H2. cbn. now rewrite H1, H2.
  - destruct vs as [|v1 [|v2 [|v3 [|? ?]]]]; try discriminate.
    injection Hconv as H1 H2 H3. cbn. rewrite H1, H2, H3.
    now destruct ts.
Qed.

End LoadingRendered.

(** X12. Loading a normalization file of the form
    [{"mean": [m1,m2,m3], "std": [s1,s2,s3]}]: when [std::stof] converts
    all six tokens, [loadNormalization] returns [true] and installs exactly
    the six converted values, the other members of the generator unchanged;
    when it rejects any of them, [loadNormalization] returns [false] and the
    generator keeps the parameters it had, also those of the field that did
    parse. *)
Theorem X12_load_rendered_document :
  forall (F : Type) (ops : FloatOps F) (Session : Type)
         (read_file : string -> option string) (stof : string -> option F)
         (g : Inference.TrajectoryGenerator F Session)
         (path m1 m2 m3 s1 s2 s3 : string),
    read_file path = Some (render_document [m1; m2; m3] [s1; s2; s3]) ->
    is_array [m1; m2; m3] = true ->
    is_array [s1; s2; s3] = true ->
    Inference.loadNormalization read_file stof g path
    = match stof m1, stof m2, stof m3, stof s1, stof s2, stof s3 with
      | Some a1, Some a2, Some a3, Some b1, Some b2, Some b3 =>
        (true,
         Inference.mkGenerator (Inference.config_ g)
           (Inference.mkNorm (Inference.mkArray3 a1 a2 a3)
                             (Inference.mkArray3 b1 b2 b3))
           (Inference.session_ g) (Inference.rng_state_ g))
      | _, _, _, _, _, _ => (false, g)
      end.
Proof.
  intros F ops Session read_file stof g path m1 m2 m3 s1 s2 s3 Hfile Hm Hs.
  rewrite (@loadNormalization_rendered F ops Session read_file stof g path _ _ Hfile Hm Hs).
  cbn [Inference.fill_array Nat.ltb Nat.leb].
  destruct (stof m1) as [a1|]; [|reflexivity].
  destruct (stof m2) as [a2|]; [|reflexivity].
  destruct (stof m3) as [a3|]; [|reflexivity].
  cbn [bind].
  destruct (stof s1) as [b1|]; [|reflexivity].
  destruct (stof s2) as [b2|]; [|reflexivity].
  destruct (stof s3) as [b3|]; reflexivity.
Qed.

Lemma X12_load_rendered_document_witness :
  let ops := binary32_no_acos in
  let g := Inference.mkGenerator (Inference.GeneratorConfig_of_path "model.onnx")
             Inference.NormalizationParams0 (Some tt) 0 in
  Inference.loadNormalization
    (one_file "norm.json" (render_document ["1"; " 2"; " 3"]%string ["4"; " 5"; " 6"]%string))
    stof_unsigned g "norm.json"
  = (true,
     Inference.mkGenerator (Inference.GeneratorConfig_of_path "model.onnx")
       (Inference.mkNorm
          (Inference.mkArray3 (B32.of_Z 1) (B32.of_Z 2) (B32.of_Z 3))
          (Inference.mkArray3 (B32.of_Z 4) (B32.of_Z 5) (B32.of_Z 6)))
       (Some tt) 0).
Proof.
  intros ops g.
  exact (@X12_load_rendered_document B32.float ops unit
           (one_file "norm.json"
              (render_document ["1"; " 2"; " 3"]%string ["4"; " 5"; " 6"]%string))
           stof_unsigned g "norm.json" "1" " 2" " 3" "4" " 5" " 6"
           eq_refl eq_refl eq_refl).
Defined.

(** X13. The length of the arrays is not checked.  For a file
    [{"mean": [...], "std": [...]}] whose arrays hold any positive number of
    tokens, [loadNormalization] converts the first three tokens of each
    array at most; when [std::stof] converts those, it returns [true], and
    component [i] of a parameter is the [i]-th converted token if the array
    has one and the default otherwise (0 for the mean, 1 for the standard
    deviation).  Tokens after the third are never converted, so they cannot
    make the load fail. *)
Theorem X13_array_length_not_checked :
  forall (F : Type) (ops : FloatOps F) (Session : Type)
         (read_file : string -> option string) (stof : string -> option F)
         (g : Inference.TrajectoryGenerator F Session)
         (path : string) (ms ss : list string) (vm vs : list F),
    read_file path = Some (render_document ms ss) ->
    is_array ms = true ->
    is_array ss = true ->
    map stof (firstn 3 ms) = map Some vm ->
    map stof (firstn 3 ss) = map Some vs ->
    Inference.loadNormalization read_file stof g path
    = (true,
       Inference.mkGenerator (Inference.config_ g)
         (Inference.mkNorm
            (Inference.mkArray3 (nth 0 vm f0) (nth 1 vm f0) (nth 2 vm f0))
            (Inference.mkArray3 (nth 0 vs f1) (nth 1 vs f1) (nth 2 vs f1)))
         (Inference.session_ g) (Inference.rng_state_ g)).
Proof.
  intros F ops Session read_file stof g path ms ss vm vs Hfile Hm Hs Hvm Hvs.
  rewrite (@loadNormalization_rendered F ops Session read_file stof g path _ _ Hfile Hm Hs).
  rewrite (@fill_array_converted F stof ms vm _ Hvm). cbn [bind].
  rewrite (@fill_array_converted F stof ss vs _ Hvs). reflexivity.
Qed.

(** A mean of two elements and a standard deviation of four, the last of
    which is no number. *)
Lemma X13_array_length_not_checked_witness :
  let ops := binary32_no_acos in
  let g := Inference.mkGenerator (Inference.GeneratorConfig_of_path "model.onnx")
             Inference.NormalizationParams0 (Some tt) 0 in
  Inference.loadNormalization
    (one_file "norm.json" (render_document ["7"; " 8"]%string ["4"; " 5"; " 6"; " -"]%string))
    stof_unsigned g "norm.json"
  = (true,
     Inference.mkGenerator (Inference.GeneratorConfig_of_path "model.onnx")
       (Inference.mkNorm
          (Inference.mkArray3 (B32.of_Z 7) (B32.of_Z 8) f0)
          (Inference.mkArray3 (B32.of_Z 4) (B32.of_Z 5) (B32.of_Z 6)))
       (Some tt) 0)
  /\ stof_unsigned " -" = None.
Proof.
  intros ops g. split; [|reflexivity].
  exact (@X13_array_length_not_checked B32.float ops unit
           (one_file "norm.json"
              (render_document ["7"; " 8"]%string ["4"; " 5"; " 6"; " -"]%string))
           stof_unsigned g "norm.json" ["7"; " 8"]%string ["4"; " 5"; " 6"; " -"]%string
           [B32.of_Z 7; B32.of_Z 8] [B32.of_Z 4; B32.of_Z 5; B32.of_Z 6]
           eq_refl eq_refl eq_refl eq_refl eq_refl).
Defined.

(** ** The application's quality score, in exact arithmetic *)

Section ExactQuality.

Open Scope R_scope.

Lemma weights_exact :
  @flit R exact 5 1 = 5 / 10 /\ @flit R exact 3 1 = 3 / 10
  /\ @flit R exact 2 1 = 2 / 10 /\ @App.f1000 R exact = 1000
  /\ @f100 R exact = 100.
Proof. unfold App.f1000, f100. cbn. repeat split; lra. Qed.

(** The distance from the first to the last waypoint, as the application
    computes it, against the path length. *)
Lemma endpoints_le_path (w : Waypoint R) (t : Trajectory R) :
  let traj := w :: t in
  0 <= norm3 (x (back traj) - x (front traj)) (y (back traj) - y (front traj))
             (z (back traj) - z (front traj))
    <= Inference.computePathLength traj.
Proof.
  intros traj. rewrite computePathLength_agree.
  destruct t as [|w' t].
  - unfold traj, back, front, at_. cbn [length Nat.sub nth].
    pose proof (segment_refl w) as Hrefl. unfold segment in Hrefl.
    cbn [fsub exact] in Hrefl. rewrite Hrefl.
    unfold Metrics.computePathLength. cbn [length Nat.ltb Nat.leb].
    rewrite f0_exact. lra.
  - pose proof (straight_le_path traj) as Hle.
    rewrite computeStraightLineDistance_segment in Hle
      by (unfold traj; simpl; lia).
    exact Hle.
Qed.

Lemma normalized_length_range (len : R) :
  0 < Rmin 1 (1000 / Rmax 100 len) <= 1.
Proof.
  pose proof (Rmax_l 100 len) as Hmax.
  assert (Hq : 0 < 1000 / Rmax 100 len) by (apply Rdiv_lt_0_compat; lra).
  split; [apply Rmin_glb_lt; lra|apply Rmin_l].
Qed.

Lemma normalized_length_short (len : R) :
  len <= 1000 -> Rmin 1 (1000 / Rmax 100 len) = 1.
Proof.
  intros Hlen. apply Rmin_left.
  pose proof (Rmax_l 100 len) as Hmax.
  assert (Hle : Rmax 100 len <= 1000) by (apply Rmax_lub; lra).
  apply Rmult_le_reg_r with (Rmax 100 len); [lra|].
  unfold Rdiv. rewrite Rmult_assoc, Rinv_l by lra. lra.
Qed.

Lemma computeQualityScore_exact (w : Waypoint R) (t : Trajectory R) :
  App.computeQualityScore (w :: t)
  = Ok (5 / 10 * Inference.computeSmoothnessScore (w :: t)
        + 3 / 10 * (if Rlt_dec 0 (Inference.computePathLength (w :: t))
                    then norm3 (x (back (w :: t)) - x (front (w :: t)))
                               (y (back (w :: t)) - y (front (w :: t)))
                               (z (back (w :: t)) - z (front (w :: t)))
                         / Inference.computePathLength (w :: t)
                    else 0)
        + 2 / 10 * Rmin 1 (1000 / Rmax 100 (Inference.computePathLength (w :: t)))).
Proof.
  unfold App.computeQualityScore. cbv zeta.
  destruct weights_exact as (-> & -> & -> & -> & ->).
  rewrite fmin_exact, fmax_exact, f0_exact, f1_exact.
  unfold fgt. cbn [flt fadd fsub fmul fdiv exact]. unfold Rltb.
  destruct (Rlt_dec 0 (Inference.computePathLength (w :: t))); reflexivity.
Qed.

End ExactQuality.

(** X14. In exact arithmetic the application's quality score of a
    non-empty trajectory is defined and lies in [(0, 1]]: it is the sum of
    0.5 times a smoothness in [(0, 1]], 0.3 times an efficiency in [[0, 1]]
    and 0.2 times a length term in [(0, 1]]. *)
Theorem X14_quality_score_range :
  forall (w : Waypoint R) (t : Trajectory R),
    exists s, App.computeQualityScore (w :: t) = Ok s /\ (0 < s <= 1)%R.
Proof.
  intros w t. eexists. split; [apply computeQualityScore_exact|].
  pose proof (endpoints_le_path w t) as Hsd. cbv zeta in Hsd.
  cbn [fsub exact] in Hsd.
  pose proof (smoothness_range (w :: t)) as Hsm.
  rewrite <- computeSmoothnessScore_agree in Hsm.
  pose proof (normalized_length_range (Inference.computePathLength (w :: t))) as Hn.
  set (len := Inference.computePathLength (w :: t)) in *.
  set (sd := norm3 _ _ _) in *.
  set (sm := Inference.computeSmoothnessScore (w :: t)) in *.
  set (n := Rmin 1 _) in *.
  assert (He : (0 <= (if Rlt_dec 0 len then sd / len else 0) <= 1)%R).
  { destruct (Rlt_dec 0 len) as [Hpos|_]; [|lra]. split.
    - apply Rmult_le_pos; [lra|]. left. now apply Rinv_0_lt_compat.
    - apply Rmult_le_reg_r with len; [exact Hpos|].
      unfold Rdiv. rewrite Rmult_assoc, Rinv_l by lra. lra. }
  lra.
Qed.

(** X15. In exact arithmetic a perfectly straight trajectory of positive
    length at most 1000 gets the highest quality score there is, 1. *)
Theorem X15_straight_scores_one :
  forall t : Trajectory R,
    straight t ->
    (0 < Inference.computePathLength t <= 1000)%R ->
    App.computeQualityScore t = Ok 1%R.
Proof.
  intros t Hstraight Hlen.
  destruct t as [|w t].
  { unfold Inference.computePathLength, for_loop in Hlen.
    cbn [length Nat.sub seq fold_left] in Hlen. rewrite f0_exact in Hlen. lra. }
  rewrite computeQualityScore_exact.
  assert (Hsm : Inference.computeSmoothnessScore (w :: t) = 1%R).
  { rewrite computeSmoothnessScore_agree.
    destruct Hstraight as (p & d & ss & Hmono & Heq). rewrite Heq.
    now apply smoothness_on_ray. }
  assert (Hsd : (norm3 (x (back (w :: t)) - x (front (w :: t)))
                       (y (back (w :: t)) - y (front (w :: t)))
                       (z (back (w :: t)) - z (front (w :: t)))
                 = Inference.computePathLength (w :: t))%R).
  { rewrite computePathLength_agree.
    destruct t as [|w' t].
    { rewrite computePathLength_agree in Hlen.
      unfold Metrics.computePathLength in Hlen.
      cbn [length Nat.ltb Nat.leb] in Hlen. rewrite f0_exact in Hlen. lra. }
    destruct Hstraight as (p & d & ss & Hmono & Heq).
    assert (Hss : 2 <= length ss).
    { apply (f_equal (@length _)) in Heq. rewrite length_map in Heq.
      simpl in Heq. lia. }
    change (norm3 _ _ _)
      with (segment (at_ (w :: w' :: t) 0)
                    (at_ (w :: w' :: t) (length (w :: w' :: t) - 1))).
    rewrite <- computeStraightLineDistance_segment by (simpl; lia).
    rewrite Heq.
    rewrite computeStraightLineDistance_on_ray, computePathLength_on_ray
      by assumption.
    reflexivity. }
  rewrite Hsm, Hsd, normalized_length_short by lra.
  destruct (Rlt_dec 0 (Inference.computePathLength (w :: t))) as [Hpos|Hn];
    [|lra].
  f_equal. unfold Rdiv at 3. rewrite Rinv_r by lra. lra.
Qed.

Lemma X15_straight_scores_one_witness :
  App.computeQualityScore ([mkWaypoint 0 0 0; mkWaypoint 3 0 0]%R : Trajectory R)
  = Ok 1%R.
Proof.
  apply X15_straight_scores_one.
  - exists (mkWaypoint 0 0 0)%R, (mkWaypoint 1 0 0)%R, [0; 3]%R. split.
    + intros i j Hij. simpl in Hij.
      destruct i as [|[|i]], j as [|[|j]]; simpl; try lra; lia.
    + unfold on_ray. simpl. repeat (f_equal; try ring).
  - unfold Inference.computePathLength, for_loop, norm3, at_.
    cbn [length Nat.sub seq fold_left nth x y z fadd fsub fmul fsqrt exact].
    rewrite f0_exact.
    replace ((3 - 0) * (3 - 0) + (0 - 0) * (0 - 0) + (0 - 0) * (0 - 0))%R
      with (3 * 3)%R by ring.
    rewrite sqrt_square by lra. lra.
Defined.

(** ** The application's ranking *)

Lemma map_nth_firstn {A B : Type} (g : A -> B) (d : A) (l : list A) (k : nat) :
  map (fun i => g (nth i l d)) (seq 0 (Nat.min k (length l)))
  = map g (firstn k l).
Proof.
  revert k. induction l as [|a l IH]; intros k.
  - rewrite Nat.min_0_r. now destruct k.
  - destruct k as [|k]; [reflexivity|].
    cbn [length Nat.min seq map firstn nth]. f_equal.
    rewrite <- seq_shift, map_map. apply IH.
Qed.

(** The selection loop takes the trajectories of the first five rankings. *)
Lemma top5_firstn {F : Type} `{FloatOps F} (all_trajectories : list (Trajectory F))
    (rankings : list (App.TrajectoryRanking F)) :
  App.top5 all_trajectories rankings
  = map (fun r => nth (App.index r) all_trajectories []) (firstn 5 rankings).
Proof.
  unfold App.top5. rewrite for_loop_push_back, Nat.sub_0_r. cbn [app].
  apply (map_nth_firstn (fun r => nth (App.index r) all_trajectories [])).
Qed.

Section AppRanking.

Context {F : Type} `{FloatOps F}.
Variable ts : list (Trajectory F).

(** What the loop of [rankTrajectories] records for a candidate. *)
Let recorded (r : App.TrajectoryRanking F) : Prop :=
  App.index r < length ts
  /\ App.computeQualityScore (nth (App.index r) ts []) = Ok (App.score r)
  /\ App.path_length r = Inference.computePathLength (nth (App.index r) ts [])
  /\ App.smoothness r = Inference.computeSmoothnessScore (nth (App.index r) ts []).

Lemma rankings_loop_ok (n : nat) :
  forall (i : nat) (rankings : list (App.TrajectoryRanking F)),
    i + n <= length ts ->
    Forall (fun t => exists s, App.computeQualityScore t = Ok s) ts ->
    exists new,
      App.rankings_loop ts i n rankings = Ok (rankings ++ new)
      /\ map (@App.index F) new = seq i n
      /\ Forall recorded new.
Proof.
  induction n as [|n IH]; intros i rankings Hle Hall.
  - exists []. cbn [App.rankings_loop]. rewrite app_nil_r.
    split; [reflexivity|]. split; [reflexivity|constructor].
  - cbn [App.rankings_loop].
    assert (Hi : i < length ts) by lia.
    assert (Hq : exists s, App.computeQualityScore (nth i ts []) = Ok s).
    { rewrite Forall_forall in Hall. apply Hall. now apply nth_In. }
    destruct Hq as (s & Hs).
    unfold App.ranking_of. cbv zeta.
    destruct (nth i ts []) as [|w t] eqn:Ht.
    { discriminate Hs. }
    rewrite Hs. cbn [bind].
    match goal with
    | |- context [App.rankings_loop ts (S i) n (rankings ++ [?r])] =>
      destruct (IH (S i) (rankings ++ [r])) as (new & Hloop & Hidx & Hrec);
        [lia|exact Hall|]; exists (r :: new)
    end.
    rewrite Hloop, <- app_assoc. split; [reflexivity|].
    split; [cbn [map App.index seq]; now rewrite Hidx|].
    constructor; [|exact Hrec].
    unfold recorded. cbn [App.index App.score App.path_length App.smoothness].
    rewrite Ht. repeat split; [exact Hi|exact Hs].
Qed.

End AppRanking.

(** In binary32 [operator<] of [TrajectoryRanking] is a strict weak
    ordering on rankings none of whose scores is NaN. *)
Lemma ranking_lt_strict_weak_order (acos : B32.float -> B32.float)
    (rankings : list (App.TrajectoryRanking B32.float)) :
  let ops := binary32 acos in
  Forall (fun r => B32.is_nan (App.score r) = false) rankings ->
  strict_weak_order App.ranking_lt rankings.
Proof.
  intros ops Hnan. rewrite Forall_forall in Hnan.
  unfold App.ranking_lt, fgt. cbn [flt ops binary32].
  split; [|split].
  - intros a _. apply SFltb_irrefl.
  - intros a b c _ _ _ Hab Hbc. now apply SFltb_trans with (App.score b).
  - intros a b c _ Hb _ Hab Hba Hbc Hcb.
    destruct (SFltb_incomparable_trans (App.score a) (App.score b) (App.score c));
      auto.
Qed.

(** X16. The application's ranking, in binary32, for every [std::sort]
    that meets the standard's contract: when every candidate is non-empty
    and has a quality score other than NaN, [rankTrajectories] returns one
    ranking per candidate, their indices a permutation of [0..n-1], each
    carrying the quality score, path length and smoothness of the candidate
    it names, in an order along which the score never increases; and the
    selection loop of [main] takes the candidates of the first five
    rankings, or of all when there are fewer. *)
Theorem X16_app_ranking_sorted :
  forall (std_sort : (App.TrajectoryRanking B32.float ->
                      App.TrajectoryRanking B32.float -> bool) ->
                     list (App.TrajectoryRanking B32.float) ->
                     list (App.TrajectoryRanking B32.float))
         (acos : B32.float -> B32.float)
         (ts : list (Trajectory B32.float)),
    let ops := binary32 acos in
    let d := App.mkRanking 0 f0 f0 f0 f0 in
    std_sort_contract std_sort ->
    Forall (fun t => match App.computeQualityScore t with
                     | Ok s => B32.is_nan s = false
                     | Throw _ => False
                     end) ts ->
    exists rankings,
      App.rankTrajectories std_sort ts = Ok rankings
      /\ Permutation (map (@App.index _) rankings) (seq 0 (length ts))
      /\ (forall r, In r rankings ->
            App.computeQualityScore (nth (App.index r) ts []) = Ok (App.score r)
            /\ App.path_length r
               = Inference.computePathLength (nth (App.index r) ts [])
            /\ App.smoothness r
               = Inference.computeSmoothnessScore (nth (App.index r) ts []))
      /\ (forall i j, i < j < length ts ->
            SFleb (App.score (nth j rankings d)) (App.score (nth i rankings d))
            = true)
      /\ App.top5 ts rankings
         = map (fun r => nth (App.index r) ts []) (firstn 5 rankings)
      /\ length (App.top5 ts rankings) = Nat.min 5 (length ts).
Proof.
  intros std_sort acos ts ops d Hsort Hscores.
  assert (Hall : Forall (fun t => exists s, App.computeQualityScore t = Ok s) ts).
  { eapply Forall_impl; [|exact Hscores]. intros t Ht. cbv beta in Ht.
    destruct (App.computeQualityScore t) as [s|]; [now exists s|contradiction]. }
  destruct (@rankings_loop_ok B32.float ops ts (length ts) 0 [])
    as (rankings0 & Hloop & Hidx & Hrec); [lia|exact Hall|].
  cbn [app] in Hloop.
  assert (Hnan : Forall (fun r => B32.is_nan (App.score r) = false) rankings0).
  { rewrite Forall_forall in Hrec, Hscores. apply Forall_forall. intros r Hr.
    destruct (Hrec r Hr) as (Hi & Hq & _).
    specialize (Hscores (nth (App.index r) ts []) (nth_In _ _ Hi)).
    cbv beta in Hscores. now rewrite Hq in Hscores. }
  destruct (Hsort App.ranking_lt rankings0) as [Hperm Hsorted].
  { now apply ranking_lt_strict_weak_order. }
  set (rankings := std_sort App.ranking_lt rankings0) in *.
  assert (Hlen : length rankings = length ts).
  { rewrite <- (Permutation_length Hperm), <- (length_map (@App.index _)), Hidx.
    apply length_seq. }
  exists rankings. split; [|split; [|split; [|split; [|split]]]].
  - unfold App.rankTrajectories. rewrite Hloop. reflexivity.
  - rewrite <- Hidx. symmetry. now apply Permutation_map.
  - intros r Hr. rewrite Forall_forall in Hrec.
    destruct (Hrec r) as (_ & Hq & Hp & Hs);
      [apply Permutation_in with rankings; [now symmetry|exact Hr]|].
    repeat split; assumption.
  - intros i j Hij.
    assert (Hord : not_after App.ranking_lt (nth i rankings d) (nth j rankings d))
      by (apply StronglySorted_nth; [exact Hsorted|lia]).
    rewrite Forall_forall in Hnan.
    apply SFltb_false_leb.
    + apply Hnan. apply Permutation_in with rankings; [now symmetry|].
      apply nth_In. lia.
    + apply Hnan. apply Permutation_in with rankings; [now symmetry|].
      apply nth_In. lia.
    + exact Hord.
  - apply top5_firstn.
  - rewrite top5_firstn, length_map, length_firstn, Hlen. reflexivity.
Qed.

Lemma X16_app_ranking_sorted_witness :
  let ops := binary32_no_acos in
  let d := App.mkRanking 0 f0 f0 f0 f0 in
  let ts := [[waypoint 0 0 100; waypoint 900 900 900];
             [waypoint 0 0 100; waypoint 800 600 200]] in
  exists rankings,
    App.rankTrajectories (@insertion_sort _) ts = Ok rankings
    /\ Permutation (map (@App.index _) rankings) (seq 0 2)
    /\ (forall i j, i < j < 2 ->
          SFleb (App.score (nth j rankings d)) (App.score (nth i rankings d))
          = true)
    /\ length (App.top5 ts rankings) = 2.
Proof.
  intros ops d ts.
  destruct (@X16_app_ranking_sorted (@insertion_sort _) acos_not_called ts)
    as (rankings & Hrank & Hperm & _ & Hsorted & _ & Hlen).
  - apply insertion_sort_meets_contract.
  - constructor; [vm_compute; reflexivity|].
    constructor; [vm_compute; reflexivity|constructor].
  - exists rankings. repeat split; assumption.
Defined.

(** ** Command-line arguments *)

Section Arguments.

Context {F : Type}.
Variable stof : string -> option F.
Variable stoi : string -> option Z.

(** What one option may change. *)
Let step_ok (arg : string) (c c1 : App.AppConfig F) : Prop :=
  (arg <> "--start"%string -> App.start c1 = App.start c)
  /\ (arg <> "--end"%string -> App.end_ c1 = App.end_ c)
  /\ (arg <> "--waypoints"%string -> App.num_waypoints c1 = App.num_waypoints c)
  /\ (arg <> "--model"%string -> App.model_path c1 = App.model_path c)
  /\ (arg <> "--norm"%string -> App.norm_path c1 = App.norm_path c)
  /\ (arg <> "--output"%string -> App.output_file c1 = App.output_file c)
  /\ (arg <> "--no-plot"%string -> App.enable_plot c1 = App.enable_plot c)
  /\ (arg <> "--csv"%string -> App.save_csv c1 = App.save_csv c)
  /\ ((2 <= App.num_waypoints c <= 200)%Z ->
      (2 <= App.num_waypoints c1 <= 200)%Z).

Ltac step_done :=
  unfold step_ok;
  cbn [App.start App.end_ App.num_waypoints App.model_path App.norm_path
       App.output_file App.enable_plot App.save_csv];
  repeat split; intros; try reflexivity; try congruence; try lia.

(** One successful iteration of the loop: the option at the front and its
    operands are consumed, whatever follows. *)
Lemma parseArguments_step (arg : string) (rest : list string)
    (c c' : App.AppConfig F) :
  App.parseArguments stof stoi (arg :: rest) c = Ok (true, c') ->
  exists rest' c1,
    length rest' <= length rest
    /\ incl rest' rest
    /\ App.parseArguments stof stoi rest' c1 = Ok (true, c')
    /\ (forall tail, App.parseArguments stof stoi (arg :: rest ++ tail) c = App.parseArguments stof stoi (rest' ++ tail) c1)
    /\ step_ok arg c c1.
Proof.
  cbn [App.parseArguments].
  destruct (String.eqb arg "--help" || String.eqb arg "-h") eqn:Hhelp;
    [discriminate|].
  destruct (String.eqb_spec arg "--start") as [Hstart|Hstart].
  { destruct rest as [|ax [|ay [|az rest']]]; try discriminate.
    unfold App.stof_or_throw.
    destruct (stof ax) as [vx|] eqn:Hx; [|discriminate].
    destruct (stof ay) as [vy|] eqn:Hy; [|discriminate].
    destruct (stof az) as [vz|] eqn:Hz; [|discriminate].
    cbn [bind app]. intros Hp. eexists rest', _.
    split; [simpl; lia|]. split; [intros a Ha; simpl; tauto|].
    split; [exact Hp|].
    split; [intros tail; cbn [app]; unfold App.stof_or_throw;
            rewrite Hx, Hy, Hz; reflexivity|].
    subst arg. step_done. }
  destruct (String.eqb_spec arg "--end") as [Hend|Hend].
  { destruct rest as [|ax [|ay [|az rest']]]; try discriminate.
    unfold App.stof_or_throw.
    destruct (stof ax) as [vx|] eqn:Hx; [|discriminate].
    destruct (stof ay) as [vy|] eqn:Hy; [|discriminate].
    destruct (stof az) as [vz|] eqn:Hz; [|discriminate].
    cbn [bind app]. intros Hp. eexists rest', _.
    split; [simpl; lia|]. split; [intros a Ha; simpl; tauto|].
    split; [exact Hp|].
    split; [intros tail; cbn [app]; unfold App.stof_or_throw;
            rewrite Hx, Hy, Hz; reflexivity|].
    subst arg. step_done. }
  destruct (String.eqb_spec arg "--waypoints") as [Hway|Hway].
  { destruct rest as [|a rest']; [discriminate|].
    unfold App.stoi_or_throw.
    destruct (stoi a) as [n|] eqn:Hn; [|discriminate].
    cbn [bind app].
    destruct ((n <? 2)%Z || (200 <? n)%Z) eqn:Hrange; [discriminate|].
    intros Hp. eexists rest', _.
    split; [simpl; lia|]. split; [intros b Hb; simpl; tauto|].
    split; [exact Hp|].
    split; [intros tail; cbn [app]; unfold App.stoi_or_throw;
            rewrite Hn; cbn [bind]; rewrite Hrange; reflexivity|].
    apply orb_false_iff in Hrange. destruct Hrange as [Hlo Hhi].
    apply Z.ltb_ge in Hlo, Hhi.
    subst arg. step_done. }
  destruct (String.eqb_spec arg "--model") as [Hmodel|Hmodel].
  { destruct rest as [|a rest']; [discriminate|].
    cbn [app]. intros Hp. eexists rest', _.
    split; [simpl; lia|]. split; [intros b Hb; simpl; tauto|].
    split; [exact Hp|]. split; [reflexivity|]. subst arg. step_done. }
  destruct (String.eqb_spec arg "--norm") as [Hnorm|Hnorm].
  { destruct rest as [|a rest']; [discriminate|].
    cbn [app]. intros Hp. eexists rest', _.
    split; [simpl; lia|]. split; [intros b Hb; simpl; tauto|].
    split; [exact Hp|]. split; [reflexivity|]. subst arg. step_done. }
  destruct (String.eqb_spec arg "--output") as [Hout|Hout].
  { destruct rest as [|a rest']; [discriminate|].
    cbn [app]. intros Hp. eexists rest', _.
    split; [simpl; lia|]. split; [intros b Hb; simpl; tauto|].
    split; [exact Hp|]. split; [reflexivity|]. subst arg. step_done. }
  destruct (String.eqb_spec arg "--no-plot") as [Hplot|Hplot].
  { intros Hp. eexists rest, _.
    split; [lia|]. split; [apply incl_refl|].
    split; [exact Hp|]. split; [reflexivity|]. subst arg. step_done. }
  destruct (String.eqb_spec arg "--csv") as [Hcsv|Hcsv].
  { intros Hp. eexists rest, _.
    split; [lia|]. split; [apply incl_refl|].
    split; [exact Hp|]. split; [reflexivity|]. subst arg. step_done. }
  discriminate.
Qed.

Lemma parseArguments_accepted (n : nat) :
  forall (args : list string) (c c' : App.AppConfig F),
    length args <= n ->
    App.parseArguments stof stoi args c = Ok (true, c') ->
    ((2 <= App.num_waypoints c <= 200)%Z -> (2 <= App.num_waypoints c' <= 200)%Z)
    /\ (~ In "--start"%string args -> App.start c' = App.start c)
    /\ (~ In "--end"%string args -> App.end_ c' = App.end_ c)
    /\ (~ In "--waypoints"%string args ->
        App.num_waypoints c' = App.num_waypoints c)
    /\ (~ In "--model"%string args -> App.model_path c' = App.model_path c)
    /\ (~ In "--norm"%string args -> App.norm_path c' = App.norm_path c)
    /\ (~ In "--output"%string args -> App.output_file c' = App.output_file c)
    /\ (~ In "--no-plot"%string args -> App.enable_plot c' = App.enable_plot c)
    /\ (~ In "--csv"%string args -> App.save_csv c' = App.save_csv c)
    /\ (forall tail, App.parseArguments stof stoi (args ++ tail) c = App.parseArguments stof stoi tail c').
Proof.
  induction n as [|n IH]; intros args c c' Hlen Hp.
  - destruct args; [|simpl in Hlen; lia].
    cbn [App.parseArguments] in Hp. injection Hp as <-.
    repeat split; intros; (reflexivity || lia).
  - destruct args as [|arg rest].
    { cbn [App.parseArguments] in Hp. injection Hp as <-.
      repeat split; intros; (reflexivity || lia). }
    destruct (parseArguments_step _ _ _ Hp)
      as (rest' & c1 & Hle & Hincl & Hp1 & Htail & Hstep).
    destruct (IH rest' c1 c') as (Iw & Is & Ie & In_ & Im & Ino & Io & Ip & Ic & It);
      [simpl in Hlen; lia|exact Hp1|].
    destruct Hstep as (Ss & Se & Sn & Sm & Sno & So & Sp & Sc & Sw).
    assert (Hnot : forall k, ~ In k (arg :: rest) -> arg <> k /\ ~ In k rest').
    { intros k Hk. split.
      - intros ->. apply Hk. now left.
      - intros Hin. apply Hk. right. now apply Hincl. }
    split; [intros Hr; apply Iw, Sw, Hr|].
    split; [intros Hk; destruct (Hnot _ Hk) as [Ha Hr];
            rewrite (Is Hr); now apply Ss|].
    split; [intros Hk; destruct (Hnot _ Hk) as [Ha Hr];
            rewrite (Ie Hr); now apply Se|].
    split; [intros Hk; destruct (Hnot _ Hk) as [Ha Hr];
            rewrite (In_ Hr); now apply Sn|].
    split; [intros Hk; destruct (Hnot _ Hk) as [Ha Hr];
            rewrite (Im Hr); now apply Sm|].
    split; [intros Hk; destruct (Hnot _ Hk) as [Ha Hr];
            rewrite (Ino Hr); now apply Sno|].
    split; [intros Hk; destruct (Hnot _ Hk) as [Ha Hr];
            rewrite (Io Hr); now apply So|].
    split; [intros Hk; destruct (Hnot _ Hk) as [Ha Hr];
            rewrite (Ip Hr); now apply Sp|].
    split; [intros Hk; destruct (Hnot _ Hk) as [Ha Hr];
            rewrite (Ic Hr); now apply Sc|].
    intros tail. cbn [app]. rewrite Htail. apply It.
Qed.

End Arguments.

(** X17. What an accepted command line can do.  When [parseArguments]
    returns [true]: the number of waypoints is between 2 and 200 if it was
    before (it is 50 by default); a member of the configuration keeps its
    value unless the option that sets it occurs among the arguments; and the
    arguments are processed from left to right, so parsing the command line
    followed by further arguments is parsing those from the configuration
    reached. *)
Theorem X17_accepted_arguments :
  forall (F : Type) (stof : string -> option F) (stoi : string -> option Z)
         (args : list string) (c c' : App.AppConfig F),
    App.parseArguments stof stoi args c = Ok (true, c') ->
    ((2 <= App.num_waypoints c <= 200)%Z -> (2 <= App.num_waypoints c' <= 200)%Z)
    /\ (~ In "--start"%string args -> App.start c' = App.start c)
    /\ (~ In "--end"%string args -> App.end_ c' = App.end_ c)
    /\ (~ In "--waypoints"%string args ->
        App.num_waypoints c' = App.num_waypoints c)
    /\ (~ In "--model"%string args -> App.model_path c' = App.model_path c)
    /\ (~ In "--norm"%string args -> App.norm_path c' = App.norm_path c)
    /\ (~ In "--output"%string args -> App.output_file c' = App.output_file c)
    /\ (~ In "--no-plot"%string args -> App.enable_plot c' = App.enable_plot c)
    /\ (~ In "--csv"%string args -> App.save_csv c' = App.save_csv c)
    /\ (forall tail,
          App.parseArguments stof stoi (args ++ tail) c
          = App.parseArguments stof stoi tail c').
Proof.
  intros F stof stoi args c c' Hp.
  now apply (@parseArguments_accepted F stof stoi (length args) args c c').
Qed.

Lemma X17_accepted_arguments_witness :
  let ops := binary32_no_acos in
  let stoi := fun s => digits_value s None in
  let args := ["--start"; "1"; "2"; "3"; "--waypoints"; "75"; "--csv"]%string in
  let c' := App.mkAppConfig (waypoint 1 2 3) (App.end_ App.AppConfig0) 75
              (App.model_path App.AppConfig0) (App.norm_path App.AppConfig0)
              (App.output_file App.AppConfig0) true true in
  (2 <= App.num_waypoints c' <= 200)%Z
  /\ App.model_path c' = App.model_path App.AppConfig0
  /\ App.parseArguments stof_unsigned stoi (args ++ ["--no-plot"]%string)
       App.AppConfig0
     = App.parseArguments stof_unsigned stoi ["--no-plot"]%string c'.
Proof.
  intros ops stoi args c'.
  destruct (@X17_accepted_arguments B32.float stof_unsigned stoi args
              App.AppConfig0 c')
    as (Hw & _ & _ & _ & Hm & _ & _ & _ & _ & Htail).
  - reflexivity.
  - split; [apply Hw; simpl; lia|]. split; [|apply Htail].
    apply Hm. simpl. intuition discriminate.
Defined.

(** ** The waypoints [runInference] returns *)

Section Conversion.

Import Inference.

Context {F : Type} `{FloatOps F} {Session : Type}.
Variable session_run :
  Session -> list F -> array3 F -> array3 F -> option (Tensor F).

(** Row [i] of the output buffer, denormalized. *)
Let row (g : TrajectoryGenerator F Session) (output_data : list F) (i : nat)
  : Waypoint F :=
  denormalize g (mkArray3 (nth (i * 3 + 0) output_data f0)
                          (nth (i * 3 + 1) output_data f0)
                          (nth (i * 3 + 2) output_data f0)).

Lemma read_nth (output_data : list F) (i : nat) :
  i < length output_data -> read output_data i = Ok (nth i output_data f0).
Proof.
  intros Hi. unfold read.
  destruct (nth_error output_data i) as [v|] eqn:Hv.
  - now rewrite (nth_error_nth _ _ _ Hv).
  - apply nth_error_None in Hv. lia.
Qed.

Lemma convert_loop_rows (g : TrajectoryGenerator F Session)
    (output_data : list F) (n : nat) :
  forall (i : nat) (trajectory : Trajectory F),
    3 * (i + n) <= length output_data ->
    convert_loop g output_data i n trajectory
    = Ok (trajectory ++ map (row g output_data) (seq i n)).
Proof.
  induction n as [|n IH]; intros i trajectory Hlen; cbn [convert_loop seq map].
  - now rewrite app_nil_r.
  - rewrite !read_nth by lia. cbn [bind].
    rewrite IH by lia. rewrite <- app_assoc. reflexivity.
Qed.

End Conversion.

(** X18. What [runInference] returns.  Let the model, run on the latent
    vector and the normalized start and end, return a tensor whose
    dimension 1, converted to [int], is [n >= 0], over a buffer of at least
    [3 n] floats.  Then [runInference] returns exactly [n] waypoints, and
    waypoint [i] is the denormalized triple at positions [3i], [3i+1],
    [3i+2] of the buffer.  The other dimensions of the tensor and the rest
    of the buffer are not read. *)
Theorem X18_runInference_rows :
  forall (F : Type) (ops : FloatOps F) (Session : Type)
         (session_run : Session -> list F -> Inference.array3 F ->
                        Inference.array3 F -> option (Inference.Tensor F))
         (g : Inference.TrajectoryGenerator F Session) (s : Session)
         (latent : list F) (start end_ : Waypoint F)
         (output : Inference.Tensor F) (d1 : Z) (n : nat),
    session_run s latent (Inference.normalize g start) (Inference.normalize g end_)
    = Some output ->
    nth_error (Inference.shape output) 1 = Some d1 ->
    Inference.to_int32 d1 = Z.of_nat n ->
    3 * n <= length (Inference.data output) ->
    Inference.runInference session_run g s latent start end_
    = Ok (map (fun i =>
                 Inference.denormalize g
                   (Inference.mkArray3
                      (nth (i * 3 + 0) (Inference.data output) f0)
                      (nth (i * 3 + 1) (Inference.data output) f0)
                      (nth (i * 3 + 2) (Inference.data output) f0)))
              (seq 0 n)).
Proof.
  intros F ops Session session_run g s latent start end_ output d1 n
         Hrun Hshape Hn Hlen.
  unfold Inference.runInference. rewrite Hrun, Hshape, Hn.
  destruct (Z.ltb_spec (Z.of_nat n) 0) as [Hneg|_]; [lia|].
  rewrite Nat2Z.id.
  rewrite (@convert_loop_rows F ops Session g (Inference.data output) n 0 [])
    by (simpl; lia).
  reflexivity.
Qed.

Lemma X18_runInference_rows_witness :
  let ops := binary32_no_acos in
  Inference.runInference two_point_model two_point_generator tt []
    (waypoint 0 0 100) (waypoint 800 600 200)
  = Ok [waypoint 0 0 100; waypoint 800 600 200].
Proof.
  intros ops.
  rewrite (@X18_runInference_rows B32.float ops unit two_point_model
             two_point_generator tt [] (waypoint 0 0 100) (waypoint 800 600 200)
             _ 2%Z 2 eq_refl eq_refl eq_refl).
  - vm_compute. reflexivity.
  - simpl. lia.
Defined.

(** ** The application, end to end *)

(** In exact arithmetic [operator<] of [TrajectoryRanking] is a strict weak
    ordering on every vector. *)
Lemma ranking_lt_exact_strict_weak_order (rankings : list (App.TrajectoryRanking R)) :
  strict_weak_order App.ranking_lt rankings.
Proof.
  unfold App.ranking_lt, fgt. cbn [flt exact]. unfold Rltb.
  split; [|split].
  - intros a _. destruct (Rlt_dec (App.score a) (App.score a)); [lra|reflexivity].
  - intros a b c _ _ _.
    destruct (Rlt_dec (App.score b) (App.score a)); [|discriminate].
    destruct (Rlt_dec (App.score c) (App.score b)); [|discriminate].
    destruct (Rlt_dec (App.score c) (App.score a)); [reflexivity|lra].
  - intros a b c _ _ _.
    destruct (Rlt_dec (App.score b) (App.score a)); [discriminate|].
    destruct (Rlt_dec (App.score a) (App.score b)); [discriminate|].
    destruct (Rlt_dec (App.score c) (App.score b)); [discriminate|].
    destruct (Rlt_dec (App.score b) (App.score c)); [discriminate|].
    destruct (Rlt_dec (App.score c) (App.score a)); [lra|].
    destruct (Rlt_dec (App.score a) (App.score c)); [lra|].
    intros _ _ _ _. split; reflexivity.
Qed.

Section Reloading.

Import Inference.

Context {F : Type} `{FloatOps F} {Session : Type}.
Variable read_file : string -> option string.
Variable stof : string -> option F.

(** Loading the normalization, successful or not, touches the parameters
    only. *)
Lemma loadNormalization_keeps (g : TrajectoryGenerator F Session) (path : string) :
  let g' := snd (loadNormalization read_file stof g path) in
  config_ g' = config_ g /\ session_ g' = session_ g
  /\ rng_state_ g' = rng_state_ g.
Proof.
  unfold loadNormalization.
  destruct (parseNormalizationJSON read_file stof path); repeat split.
Qed.

End Reloading.

(** X19. The application from the parsed configuration to the selection,
    in exact arithmetic.  When the model loads and honours the inference
    contract for [seq_len = num_waypoints], with [num_waypoints] in the
    range [parseArguments] accepts, and [std::sort] meets its contract, the
    [try] block of [main] reaches the end of the selection loop with
    exactly five trajectories, each of [num_waypoints] waypoints, whether
    or not the normalization file could be loaded. *)
Theorem X19_main_selects_five :
  forall (Session : Type)
         (read_file : string -> option string) (stof : string -> option R)
         (load_session : string -> option Session)
         (session_run : Session -> list R -> Inference.array3 R ->
                        Inference.array3 R -> option (Inference.Tensor R))
         (normal_draw : Z -> nat -> R)
         (std_sort : (App.TrajectoryRanking R -> App.TrajectoryRanking R -> bool) ->
                     list (App.TrajectoryRanking R) -> list (App.TrajectoryRanking R))
         (config : App.AppConfig R) (now : Z),
    load_session (App.model_path config) <> None ->
    (2 <= App.num_waypoints config <= 200)%Z ->
    inference_contract session_run
      (Inference.mkConfig (App.model_path config) 64
         (App.num_waypoints config) 4 false) ->
    std_sort_contract std_sort ->
    exists top5_trajectories,
      App.main_top5 read_file stof load_session session_run normal_draw
        std_sort config now = Ok top5_trajectories
      /\ length top5_trajectories = 5
      /\ Forall (fun t => Z.of_nat (length t) = App.num_waypoints config)
                top5_trajectories.
Proof.
  intros Session read_file stof load_session session_run normal_draw std_sort
         config now Hload Hrange Hcontract Hsort.
  unfold App.main_top5. cbv zeta. unfold Inference.new_TrajectoryGenerator.
  cbn [Inference.model_path].
  destruct (load_session (App.model_path config)) as [s|]; [|contradiction].
  cbn [bind].
  set (g0 := Inference.mkGenerator _ _ _ _).
  destruct (loadNormalization_keeps read_file stof g0 (App.norm_path config))
    as (Hcfg & Hses & Hrng).
  set (g1 := snd _) in *.
  unfold Inference.generateMultiple. rewrite Hses. cbn [Inference.session_ g0].
  change (10 <? 0)%Z with false. cbv iota.
  destruct (@generate_loop_ok R exact Session session_run normal_draw
              (Z.to_nat 10) g1 (App.start config) (App.end_ config) [])
    as (ts & Hloop & Hcount & Hall).
  - rewrite Hcfg. exact Hcontract.
  - unfold Inference.isReady. now rewrite Hses.
  - rewrite Hcfg. cbn. lia.
  - rewrite Hcfg. cbn [g0 Inference.config_ Inference.seq_len]. lia.
  - rewrite Hrng. cbn [g0 Inference.rng_state_]. unfold Inference.to_uint32.
    apply Z.mod_pos_bound. lia.
  - rewrite Hloop. cbn [bind app].
    rewrite Hcfg in Hall. cbn [g0 Inference.config_ Inference.seq_len] in Hall.
    assert (Hq : Forall (fun t => exists sc, App.computeQualityScore t = Ok sc) ts).
    { eapply Forall_impl; [|exact Hall]. intros t Ht. cbv beta in Ht.
      destruct t as [|w t]; [simpl in Ht; lia|].
      eexists. apply computeQualityScore_exact. }
    destruct (@rankings_loop_ok R exact ts (length ts) 0 [])
      as (rankings0 & Hrank & Hidx & Hrec); [lia|exact Hq|].
    cbn [app] in Hrank.
    unfold App.rankTrajectories. rewrite Hrank. cbn [bind].
    destruct (Hsort App.ranking_lt rankings0) as [Hperm _].
    { apply ranking_lt_exact_strict_weak_order. }
    set (rankings := std_sort App.ranking_lt rankings0) in *.
    eexists. split; [reflexivity|].
    rewrite top5_firstn.
    assert (Hlen : length rankings = 10).
    { rewrite <- (Permutation_length Hperm), <- (length_map (@App.index _)), Hidx,
        length_seq, Hcount. reflexivity. }
    split.
    + rewrite length_map, length_firstn, Hlen. reflexivity.
    + apply Forall_forall. intros t Ht. apply in_map_iff in Ht.
      destruct Ht as (r & <- & Hr).
      assert (Hr' : In r rankings).
      { rewrite <- (firstn_skipn 5 rankings). apply in_or_app. now left. }
      clear Hr. rename Hr' into Hr.
      rewrite Forall_forall in Hrec, Hall.
      destruct (Hrec r) as (Hi & _);
        [apply Permutation_in with rankings; [now symmetry|exact Hr]|].
      apply Hall. now apply nth_In.
Qed.

Lemma X19_main_selects_five_witness :
  let config :=
    App.mkAppConfig (mkWaypoint 0 0 100)%R (mkWaypoint 800 600 200)%R 2
      "model.onnx" "norm.json" "out.png" true false in
  exists top5_trajectories,
    App.main_top5 (fun _ => None) (fun _ => None) always_loads two_point_model
      (fun _ _ => 0%R) (@insertion_sort _) config 1700000000
    = Ok top5_trajectories
    /\ length top5_trajectories = 5
    /\ Forall (fun t => Z.of_nat (length t) = 2%Z) top5_trajectories.
Proof.
  intros config.
  apply (@X19_main_selects_five unit (fun _ => None) (fun _ => None)
           always_loads two_point_model (fun _ _ => 0%R) (@insertion_sort _)
           config 1700000000).
  - discriminate.
  - simpl. lia.
  - intros s latent start_norm end_norm. eexists.
    split; [reflexivity|]. split; reflexivity.
  - apply insertion_sort_meets_contract.
Defined.

(** ** The three computations of the path efficiency *)

(** X20. Away from degenerate paths the three computations of the path
    efficiency agree, whatever the arithmetic: for a trajectory of two or
    more waypoints whose path length is positive and not below [1e-6], the
    efficiency that [printTrajectoryStats] prints and the one the
    application's [rankTrajectories] records are both
    [computePathEfficiency] of the metrics library, and so are the path
    length and the smoothness they report. *)
Theorem X20_efficiency_computations_agree :
  forall (F : Type) (ops : FloatOps F) (t : Trajectory F),
    2 <= length t ->
    flt (Metrics.computePathLength t) feps = false ->
    fgt (Metrics.computePathLength t) f0 = true ->
    exists stats ranking,
      printTrajectoryStats t = Ok stats
      /\ App.ranking_of [t] 0 = Ok ranking
      /\ stats_efficiency stats = Metrics.computePathEfficiency t
      /\ App.efficiency ranking = Metrics.computePathEfficiency t
      /\ stats_path_length stats = Metrics.computePathLength t
      /\ App.path_length ranking = Metrics.computePathLength t
      /\ stats_straight_dist stats = Metrics.computeStraightLineDistance t
      /\ stats_smoothness stats = Metrics.computeSmoothnessScore t
      /\ App.smoothness ranking = Metrics.computeSmoothnessScore t.
Proof.
  intros F ops t Hlen Heps Hpos.
  assert (Hstraight :
            Metrics.computeStraightLineDistance t
            = norm3 (fsub (x (back t)) (x (front t)))
                    (fsub (y (back t)) (y (front t)))
                    (fsub (z (back t)) (z (front t)))).
  { unfold Metrics.computeStraightLineDistance.
    destruct (Nat.ltb_spec (length t) 2) as [Hlt|_]; [lia|reflexivity]. }
  assert (Heff : Metrics.computePathEfficiency t
                 = fdiv (Metrics.computeStraightLineDistance t)
                        (Metrics.computePathLength t)).
  { unfold Metrics.computePathEfficiency.
    destruct (Nat.ltb_spec (length t) 2) as [Hlt|_]; [lia|].
    cbv zeta. now rewrite Heps. }
  unfold printTrajectoryStats, App.ranking_of, App.computeQualityScore.
  cbn [nth]. cbv zeta.
  destruct t as [|w t]; [simpl in Hlen; lia|].
  cbn [bind]. eexists. eexists.
  split; [reflexivity|]. split; [reflexivity|].
  cbn [stats_efficiency stats_path_length stats_straight_dist stats_smoothness
       App.efficiency App.path_length App.smoothness].
  rewrite computePathLength_agree, computeSmoothnessScore_agree, Hpos, Heff,
    Hstraight.
  repeat split; reflexivity.
Qed.

Lemma X20_efficiency_computations_agree_witness :
  let ops := binary32_no_acos in
  let t := [waypoint 0 0 100; waypoint 800 600 200] in
  exists stats ranking,
    printTrajectoryStats t = Ok stats
    /\ App.ranking_of [t] 0 = Ok ranking
    /\ stats_efficiency stats = Metrics.computePathEfficiency t
    /\ App.efficiency ranking = Metrics.computePathEfficiency t.
Proof.
  intros ops t.
  destruct (@X20_efficiency_computations_agree B32.float ops t)
    as (stats & ranking & Hs & Hr & He & Hre & _).
  - simpl. lia.
  - vm_compute. reflexivity.
  - vm_compute. reflexivity.
  - exists stats, ranking. repeat split; assumption.
Defined.

(** X21. On a single waypoint they disagree.  In binary32, for a trajectory
    of one waypoint with finite coordinates, [printTrajectoryStats] prints
    the efficiency [0.0f / 0.0f], a NaN; the metrics library's
    [computePathEfficiency] returns [1.0f]; and the application's
    [rankTrajectories] records [0.0f]. *)
Theorem X21_efficiency_of_single_waypoint :
  forall (acos : B32.float -> B32.float) (w : Waypoint B32.float),
    let ops := binary32 acos in
    finite_waypoint w = true ->
    exists stats ranking,
      printTrajectoryStats [w] = Ok stats
      /\ App.ranking_of [[w]] 0 = Ok ranking
      /\ B32.is_nan (stats_efficiency stats) = true
      /\ Metrics.computePathEfficiency [w] = f1
      /\ App.efficiency ranking = f0.
Proof.
  intros acos w ops Hw.
  unfold finite_waypoint in Hw.
  apply andb_prop in Hw. destruct Hw as [Hw Hz].
  apply andb_prop in Hw. destruct Hw as [Hx Hy].
  unfold printTrajectoryStats, App.ranking_of, App.computeQualityScore.
  cbn [nth]. cbv zeta. cbn [bind]. eexists. eexists.
  split; [reflexivity|]. split; [reflexivity|].
  cbn [stats_efficiency App.efficiency].
  unfold back, front, at_. cbn [length Nat.sub nth].
  cbn [fsub ops binary32]. rewrite !SFsub_diag by assumption.
  split; [reflexivity|]. split; reflexivity.
Qed.

Lemma X21_efficiency_of_single_waypoint_witness :
  let ops := binary32_no_acos in
  exists stats ranking,
    printTrajectoryStats [waypoint 0 0 100] = Ok stats
    /\ App.ranking_of [[waypoint 0 0 100]] 0 = Ok ranking
    /\ B32.is_nan (stats_efficiency stats) = true
    /\ Metrics.computePathEfficiency [waypoint 0 0 100] = f1
    /\ App.efficiency ranking = f0.
Proof.
  intros ops.
  apply (@X21_efficiency_of_single_waypoint acos_not_called (waypoint 0 0 100)).
  reflexivity.
Defined.

(** ** binary32: the default normalization is exact *)

Section RoundingExact.




(** [1.0f] *)
Let one : B32.float := S754_finite false 8388608 (-23).





End RoundingExact.



(** ** The files the plotter writes *)

Section PlotterFiles.

Open Scope string_scope.

Lemma to_string_inj (a b : nat) :
  Plotter.to_string a = Plotter.to_string b -> a = b.
Proof.
  unfold Plotter.to_string. intros Heq.
  apply (f_equal NilEmpty.uint_of_string) in Heq.
  rewrite !NilEmpty.usu in Heq. injection Heq as Heq.
  apply (f_equal Nat.of_uint) in Heq. now rewrite !Unsigned.of_to in Heq.
Qed.

Lemma append_cancel_l (p a b : string) : p ++ a = p ++ b -> a = b.
Proof.
  induction p as [|c p IH]; simpl; [auto|].
  intros Heq. injection Heq as Heq. auto.
Qed.

Lemma length_append (a b : string) :
  String.length (a ++ b) = String.length a + String.length b.
Proof. induction a as [|c a IH]; simpl; [reflexivity|now rewrite IH]. Qed.

Lemma append_cancel_r (a b s : string) : a ++ s = b ++ s -> a = b.
Proof.
  revert b. induction a as [|c a IH]; intros b Heq.
  - destruct b as [|d b]; [reflexivity|].
    apply (f_equal String.length) in Heq.
    simpl in Heq. rewrite length_append in Heq. lia.
  - destruct b as [|d b].
    + apply (f_equal String.length) in Heq.
      simpl in Heq. rewrite length_append in Heq. lia.
    + simpl in Heq. injection Heq as -> Heq. f_equal. now apply IH.
Qed.

Lemma data_file_name_inj (i j : nat) :
  Plotter.data_file_name i = Plotter.data_file_name j -> i = j.
Proof.
  unfold Plotter.data_file_name. intros Heq.
  apply append_cancel_l, append_cancel_r in Heq. now apply to_string_inj.
Qed.

Lemma csv_file_name_inj (base : string) (i j : nat) :
  Plotter.csv_file_name base i = Plotter.csv_file_name base j -> i = j.
Proof.
  unfold Plotter.csv_file_name. intros Heq.
  apply append_cancel_l, append_cancel_l, append_cancel_r in Heq.
  apply to_string_inj in Heq. lia.
Qed.

Lemma write_same (fs : Plotter.FileSystem) (path content : string) :
  Plotter.write fs path content path = Some content.
Proof. unfold Plotter.write. now rewrite String.eqb_refl. Qed.

Lemma write_other (fs : Plotter.FileSystem) (path content p : string) :
  p <> path -> Plotter.write fs path content p = fs p.
Proof.
  intros Hne. unfold Plotter.write.
  destruct (String.eqb_spec p path); [contradiction|reflexivity].
Qed.

Lemma remove_all (files : list string) (fs : Plotter.FileSystem) (p : string) :
  fold_left Plotter.remove files fs p
  = if existsb (String.eqb p) files then None else fs p.
Proof.
  revert fs. induction files as [|f files IH]; intros fs; cbn [fold_left existsb].
  - reflexivity.
  - rewrite IH. unfold Plotter.remove.
    destruct (String.eqb p f); cbn [orb]; [|reflexivity].
    now destruct (existsb (String.eqb p) files).
Qed.

End PlotterFiles.

Section PlotterLoops.

Context {F : Type} `{FloatOps F}.
Variable show : F -> string.
Variable can_create : string -> bool.
Variable gnuplot_version_status : Z.
Variable run_gnuplot : Plotter.FileSystem -> Z * Plotter.FileSystem.
Variable config_ : Plotter.PlotConfig.
Variable trajectories : list (Trajectory F).

(** The CSV loop from index [i], when the first [k] files can be created
    and the next one, if any, cannot. *)
Lemma saveToCSV_loop_spec (base : string) (n : nat) :
  forall (i k : nat) (fs : Plotter.FileSystem),
    k <= n ->
    (forall j, i <= j < i + k ->
       can_create (Plotter.csv_file_name base j) = true) ->
    (k < n -> can_create (Plotter.csv_file_name base (i + k)) = false) ->
    let r := Plotter.saveToCSV_loop show can_create trajectories base i n fs in
    fst r = (k =? n)
    /\ (forall j, i <= j < i + k ->
          snd r (Plotter.csv_file_name base j)
          = Some (Plotter.csv_file_content show (nth j trajectories [])))
    /\ (forall p, (forall j, i <= j < i + k -> p <> Plotter.csv_file_name base j) ->
          snd r p = fs p).
Proof.
  induction n as [|n IH]; intros i k fs Hk Hok Hfail; cbn [Plotter.saveToCSV_loop].
  - assert (k = 0) by lia. subst k. cbn [fst snd].
    split; [reflexivity|]. split; [intros j Hj; lia|reflexivity].
  - destruct k as [|k].
    + rewrite Nat.add_0_r in Hfail. rewrite Hfail by lia. cbn [negb fst snd].
      split; [reflexivity|]. split; [intros j Hj; lia|reflexivity].
    + rewrite (Hok i) by lia. cbn [negb].
      set (fs1 := Plotter.write fs _ _).
      destruct (IH (S i) k fs1) as (Hflag & Hfiles & Hrest).
      * lia.
      * intros j Hj. apply Hok. lia.
      * intros Hlt. replace (S i + k) with (i + S k) by lia. apply Hfail. lia.
      * cbv zeta. split; [exact Hflag|]. split.
        -- intros j Hj. destruct (Nat.eq_dec j i) as [->|Hne].
           ++ rewrite Hrest.
              ** unfold fs1. apply write_same.
              ** intros j Hj' Heq. apply csv_file_name_inj in Heq. lia.
           ++ apply Hfiles. lia.
        -- intros p Hp. rewrite Hrest by (intros j Hj; apply Hp; lia).
           unfold fs1. apply write_other. apply Hp. lia.
Qed.

(** The loop of the data files, likewise. *)
Lemma data_files_loop_spec (n : nat) :
  forall (i k : nat) (data_files : list string) (fs : Plotter.FileSystem),
    k <= n ->
    (forall j, i <= j < i + k -> can_create (Plotter.data_file_name j) = true) ->
    (k < n -> can_create (Plotter.data_file_name (i + k)) = false) ->
    let r := Plotter.data_files_loop show can_create trajectories i n data_files fs in
    fst r = (if k =? n
             then Some (data_files ++ map Plotter.data_file_name (seq i n))
             else None)
    /\ (forall j, i <= j < i + k ->
          snd r (Plotter.data_file_name j)
          = Some (Plotter.data_file_content show (nth j trajectories [])))
    /\ (forall p, (forall j, i <= j < i + k -> p <> Plotter.data_file_name j) ->
          snd r p = fs p).
Proof.
  induction n as [|n IH]; intros i k data_files fs Hk Hok Hfail;
    cbn [Plotter.data_files_loop].
  - assert (k = 0) by lia. subst k. cbn [fst snd seq map Nat.eqb].
    rewrite app_nil_r.
    split; [reflexivity|]. split; [intros j Hj; lia|reflexivity].
  - unfold Plotter.writeTrajectoryData. destruct k as [|k].
    + rewrite Nat.add_0_r in Hfail. rewrite Hfail by lia. cbn [negb fst snd Nat.eqb].
      split; [reflexivity|]. split; [intros j Hj; lia|reflexivity].
    + rewrite (Hok i) by lia. cbn [negb].
      set (fs1 := Plotter.write fs _ _).
      unfold Plotter.data_file_name at 1. cbn [append].
      fold (Plotter.data_file_name i).
      destruct (IH (S i) k (data_files ++ [Plotter.data_file_name i]) fs1)
        as (Hflag & Hfiles & Hrest).
      * lia.
      * intros j Hj. apply Hok. lia.
      * intros Hlt. replace (S i + k) with (i + S k) by lia. apply Hfail. lia.
      * cbv zeta. split; [|split].
        -- rewrite Hflag. cbn [Nat.eqb seq map].
           now rewrite <- app_assoc.
        -- intros j Hj. destruct (Nat.eq_dec j i) as [->|Hne].
           ++ rewrite Hrest.
              ** unfold fs1. apply write_same.
              ** intros j Hj' Heq. apply data_file_name_inj in Heq. lia.
           ++ apply Hfiles. lia.
        -- intros p Hp. rewrite Hrest by (intros j Hj; apply Hp; lia).
           unfold fs1. apply write_other. apply Hp. lia.
Qed.

End PlotterLoops.

(** X23. [saveToCSV] writes trajectory [i] to the file
    [<base>_<i+1>.csv], in order, and stops at the first file it cannot
    create.  When the first [k] files can be created and the next one, if
    any, cannot: the result is [true] exactly when [k] is the number of
    trajectories; each of the first [k] files ends up holding the CSV text
    of its own trajectory (the names are pairwise distinct, so no file is
    overwritten by a later one); and every other file is left as it was. *)
Theorem X23_saveToCSV_files :
  forall (F : Type) (ops : FloatOps F) (show : F -> string)
         (can_create : string -> bool)
         (trajectories : list (Trajectory F)) (base_filename : string)
         (fs : Plotter.FileSystem) (k : nat),
    k <= length trajectories ->
    (forall i, i < k ->
       can_create (Plotter.csv_file_name base_filename i) = true) ->
    (k < length trajectories ->
       can_create (Plotter.csv_file_name base_filename k) = false) ->
    let r := Plotter.saveToCSV show can_create trajectories base_filename fs in
    fst r = (k =? length trajectories)
    /\ (forall i, i < k ->
          snd r (Plotter.csv_file_name base_filename i)
          = Some (Plotter.csv_file_content show (nth i trajectories [])))
    /\ (forall p, (forall i, i < k -> p <> Plotter.csv_file_name base_filename i) ->
          snd r p = fs p).
Proof.
  intros F ops show can_create trajectories base_filename fs k Hk Hok Hfail.
  destruct (@saveToCSV_loop_spec F ops show can_create trajectories base_filename
              (length trajectories) 0 k fs) as (Hflag & Hfiles & Hrest).
  - exact Hk.
  - intros j Hj. apply Hok. lia.
  - exact Hfail.
  - cbv zeta. unfold Plotter.saveToCSV. split; [exact Hflag|]. split.
    + intros i Hi. apply Hfiles. lia.
    + intros p Hp. apply Hrest. intros j Hj. apply Hp. lia.
Qed.

Lemma X23_saveToCSV_files_witness :
  let ops := binary32_no_acos in
  let show := fun a : B32.float =>
    if B32.is_nan a then "nan"%string else "0"%string in
  let trajectories :=
    [[waypoint 0 0 100; waypoint 800 600 200]; [waypoint 0 0 100]] in
  let can_create := fun p => negb (String.eqb p "trajectory_2.csv") in
  let r := Plotter.saveToCSV show can_create trajectories "trajectory"
             (fun _ => None) in
  fst r = false
  /\ snd r "trajectory_1.csv"%string
     = Some (Plotter.csv_file_content show
               [waypoint 0 0 100; waypoint 800 600 200])
  /\ snd r "trajectory_2.csv"%string = None.
Proof.
  intros ops show trajectories can_create r.
  destruct (@X23_saveToCSV_files B32.float ops show can_create trajectories
              "trajectory" (fun _ => None) 1)
    as (Hflag & Hfiles & Hrest).
  - simpl. lia.
  - intros i Hi. destruct i as [|i]; [reflexivity|lia].
  - intros _. reflexivity.
  - split; [exact Hflag|]. split.
    + apply (Hfiles 0). lia.
    + apply Hrest. intros i Hi. destruct i as [|i]; [discriminate|lia].
Defined.

Section PlotterCleanup.

Context {F : Type} `{FloatOps F}.
Variable show : F -> string.
Variable can_create : string -> bool.
Variable gnuplot_version_status : Z.
Variable run_gnuplot : Plotter.FileSystem -> Z * Plotter.FileSystem.
Variable config_ : Plotter.PlotConfig.

(** [plot3D] and [plot2D] differ in the flag they pass on. *)
Let plot (is_3d : bool) (trajectories : list (Trajectory F))
    (start end_ : Waypoint F) (labels : list string) (fs : Plotter.FileSystem)
  : bool * Plotter.FileSystem :=
  if is_3d
  then Plotter.plot3D show can_create gnuplot_version_status run_gnuplot config_
         trajectories start end_ labels fs
  else Plotter.plot2D show can_create gnuplot_version_status run_gnuplot config_
         trajectories start end_ labels fs.

Lemma existsb_data_files (n i : nat) :
  i < n ->
  existsb (String.eqb (Plotter.data_file_name i))
          (map Plotter.data_file_name (seq 0 n)) = true.
Proof.
  intros Hi. apply existsb_exists. exists (Plotter.data_file_name i).
  split; [|apply String.eqb_refl].
  apply in_map. apply in_seq. lia.
Qed.

Lemma plot_cleans_up (is_3d : bool) (trajectories : list (Trajectory F))
    (start end_ : Waypoint F) (labels : list string) (fs : Plotter.FileSystem) :
  trajectories <> [] ->
  Plotter.isGnuplotAvailable gnuplot_version_status = true ->
  (forall i, i < length trajectories ->
     can_create (Plotter.data_file_name i) = true) ->
  let r := plot is_3d trajectories start end_ labels fs in
  (forall i, i < length trajectories -> snd r (Plotter.data_file_name i) = None)
  /\ snd r Plotter.script_file = None
  /\ (fst r = true -> can_create Plotter.script_file = true).
Proof.
  intros Hne Havail Hok.
  destruct (@data_files_loop_spec F show can_create trajectories
              (length trajectories) 0 (length trajectories) [] fs)
    as (Hflag & _ & _).
  - lia.
  - intros j Hj. apply Hok. lia.
  - lia.
  - cbv zeta in Hflag. rewrite Nat.eqb_refl in Hflag. cbn [app] in Hflag.
    assert (Hbody : forall b,
      let r :=
        match Plotter.data_files_loop show can_create trajectories 0
                (length trajectories) [] fs with
        | (None, fs1) => (false, fs1)
        | (Some data_files, fs1) =>
          let '(success, fs2) :=
            Plotter.generateGnuplotScript show can_create run_gnuplot config_
              data_files labels start end_ b fs1 in
          (success,
           Plotter.remove (fold_left Plotter.remove data_files fs2)
             "/tmp/plot_script.gnu")
        end in
      (forall i, i < length trajectories ->
         snd r (Plotter.data_file_name i) = None)
      /\ snd r Plotter.script_file = None
      /\ (fst r = true -> can_create Plotter.script_file = true)).
    { intros b.
      destruct (Plotter.data_files_loop show can_create trajectories 0
                  (length trajectories) [] fs) as [files fs1].
      cbn [fst] in Hflag. subst files. cbv zeta.
      change ([] ++ map Plotter.data_file_name (seq 0 (length trajectories)))%list
        with (map Plotter.data_file_name (seq 0 (length trajectories))).
      destruct (Plotter.generateGnuplotScript show can_create run_gnuplot config_
                  (map Plotter.data_file_name (seq 0 (length trajectories)))
                  labels start end_ b fs1) as [success fs2] eqn:Hgen.
      cbn [fst snd]. split; [|split].
      - intros i Hi. unfold Plotter.remove at 1.
        destruct (String.eqb (Plotter.data_file_name i) "/tmp/plot_script.gnu");
          [reflexivity|].
        rewrite remove_all, existsb_data_files by assumption. reflexivity.
      - unfold Plotter.remove at 1, Plotter.script_file.
        now rewrite String.eqb_refl.
      - intros ->. unfold Plotter.generateGnuplotScript in Hgen.
        destruct (can_create Plotter.script_file); [reflexivity|].
        discriminate Hgen. }
    unfold plot, Plotter.plot3D, Plotter.plot2D.
    destruct trajectories as [|t ts]; [contradiction|].
    rewrite Havail. cbn [negb].
    destruct is_3d; apply Hbody.
Qed.

Lemma plot_leaves_files (is_3d : bool) (trajectories : list (Trajectory F))
    (start end_ : Waypoint F) (labels : list string) (fs : Plotter.FileSystem)
    (k : nat) :
  Plotter.isGnuplotAvailable gnuplot_version_status = true ->
  k < length trajectories ->
  (forall i, i < k -> can_create (Plotter.data_file_name i) = true) ->
  can_create (Plotter.data_file_name k) = false ->
  let r := plot is_3d trajectories start end_ labels fs in
  fst r = false
  /\ (forall i, i < k ->
        snd r (Plotter.data_file_name i)
        = Some (Plotter.data_file_content show (nth i trajectories [])))
  /\ (forall p, (forall i, i < k -> p <> Plotter.data_file_name i) ->
        snd r p = fs p).
Proof.
  intros Havail Hk Hok Hfail.
  destruct (@data_files_loop_spec F show can_create trajectories
              (length trajectories) 0 k [] fs)
    as (Hflag & Hfiles & Hrest).
  - lia.
  - intros j Hj. apply Hok. lia.
  - intros _. exact Hfail.
  - cbv zeta in Hflag, Hfiles, Hrest.
    destruct (Nat.eqb_spec k (length trajectories)) as [Heq|_]; [lia|].
    unfold plot, Plotter.plot3D, Plotter.plot2D.
    destruct trajectories as [|t ts] eqn:Hts; [simpl in Hk; lia|].
    rewrite Havail. cbn [negb]. rewrite <- Hts in *.
    destruct (Plotter.data_files_loop show can_create trajectories 0
                (length trajectories) [] fs) as [files fs1].
    cbn [fst snd] in *. subst files.
    destruct is_3d; cbn [fst snd]; (split; [reflexivity|]); (split;
      [intros i Hi; apply Hfiles; lia
      |intros p Hp; apply Hrest; intros j Hj; apply Hp; lia]).
Qed.

End PlotterCleanup.

(** X24. [plot3D] and [plot2D] clean up after themselves once all data
    files are written: for a non-empty list of trajectories, with gnuplot
    available and every data file [/tmp/trajectory_<i>.dat] creatable, none
    of the data files and no script file exists when the call returns,
    whether the script could be created or not and whatever gnuplot did;
    and the call returns [true] only if the script could be created. *)
Theorem X24_plot_removes_temporary_files :
  forall (F : Type) (show : F -> string)
         (can_create : string -> bool) (gnuplot_version_status : Z)
         (run_gnuplot : Plotter.FileSystem -> Z * Plotter.FileSystem)
         (config_ : Plotter.PlotConfig)
         (trajectories : list (Trajectory F)) (start end_ : Waypoint F)
         (labels : list string) (fs : Plotter.FileSystem),
    let r3 := Plotter.plot3D show can_create gnuplot_version_status run_gnuplot
                config_ trajectories start end_ labels fs in
    let r2 := Plotter.plot2D show can_create gnuplot_version_status run_gnuplot
                config_ trajectories start end_ labels fs in
    trajectories <> [] ->
    Plotter.isGnuplotAvailable gnuplot_version_status = true ->
    (forall i, i < length trajectories ->
       can_create (Plotter.data_file_name i) = true) ->
    (forall i, i < length trajectories ->
       snd r3 (Plotter.data_file_name i) = None
       /\ snd r2 (Plotter.data_file_name i) = None)
    /\ snd r3 Plotter.script_file = None
    /\ snd r2 Plotter.script_file = None
    /\ (fst r3 = true \/ fst r2 = true -> can_create Plotter.script_file = true).
Proof.
  intros F show can_create gnuplot_version_status run_gnuplot config_
         trajectories start end_ labels fs r3 r2 Hne Havail Hok.
  destruct (@plot_cleans_up F show can_create gnuplot_version_status
              run_gnuplot config_ true trajectories start end_ labels fs
              Hne Havail Hok) as (Hd3 & Hs3 & Hc3).
  destruct (@plot_cleans_up F show can_create gnuplot_version_status
              run_gnuplot config_ false trajectories start end_ labels fs
              Hne Havail Hok) as (Hd2 & Hs2 & Hc2).
  cbv zeta beta iota in Hd3, Hs3, Hc3, Hd2, Hs2, Hc2.
  split; [intros i Hi; split; [now apply Hd3|now apply Hd2]|].
  split; [exact Hs3|]. split; [exact Hs2|].
  intros [H3|H2]; [now apply Hc3|now apply Hc2].
Qed.

Lemma X24_plot_removes_temporary_files_witness :
  let ops := binary32_no_acos in
  let show := fun a : B32.float =>
    if B32.is_nan a then "nan"%string else "0"%string in
  let r3 := Plotter.plot3D show (fun _ => true) 0 (fun fs => (0%Z, fs))
              Plotter.PlotConfig0 [[waypoint 0 0 100; waypoint 800 600 200]]
              (waypoint 0 0 100) (waypoint 800 600 200) []
              (fun _ => None) in
  snd r3 "/tmp/trajectory_0.dat"%string = None
  /\ snd r3 "/tmp/plot_script.gnu"%string = None.
Proof.
  intros ops show r3.
  destruct (@X24_plot_removes_temporary_files B32.float show
              (fun _ => true) 0%Z (fun fs => (0%Z, fs)) Plotter.PlotConfig0
              [[waypoint 0 0 100; waypoint 800 600 200]]
              (waypoint 0 0 100) (waypoint 800 600 200) [] (fun _ => None))
    as (Hd & Hs & _).
  - discriminate.
  - reflexivity.
  - reflexivity.
  - split; [apply (Hd 0); simpl; lia|exact Hs].
Defined.

(** X25. ... but not when a data file cannot be created.  If gnuplot is
    available, the first [k] data files can be created and the next one
    cannot, [plot3D] and [plot2D] return [false] at once: the [k] data
    files written so far stay behind with their contents, and no other file
    is touched. *)
Theorem X25_plot_leaves_data_files :
  forall (F : Type) (show : F -> string)
         (can_create : string -> bool) (gnuplot_version_status : Z)
         (run_gnuplot : Plotter.FileSystem -> Z * Plotter.FileSystem)
         (config_ : Plotter.PlotConfig)
         (trajectories : list (Trajectory F)) (start end_ : Waypoint F)
         (labels : list string) (fs : Plotter.FileSystem) (k : nat),
    let r3 := Plotter.plot3D show can_create gnuplot_version_status run_gnuplot
                config_ trajectories start end_ labels fs in
    let r2 := Plotter.plot2D show can_create gnuplot_version_status run_gnuplot
                config_ trajectories start end_ labels fs in
    Plotter.isGnuplotAvailable gnuplot_version_status = true ->
    k < length trajectories ->
    (forall i, i < k -> can_create (Plotter.data_file_name i) = true) ->
    can_create (Plotter.data_file_name k) = false ->
    fst r3 = false /\ fst r2 = false
    /\ (forall i, i < k ->
          snd r3 (Plotter.data_file_name i)
          = Some (Plotter.data_file_content show (nth i trajectories []))
          /\ snd r2 (Plotter.data_file_name i)
             = Some (Plotter.data_file_content show (nth i trajectories [])))
    /\ (forall p, (forall i, i < k -> p <> Plotter.data_file_name i) ->
          snd r3 p = fs p /\ snd r2 p = fs p).
Proof.
  intros F show can_create gnuplot_version_status run_gnuplot config_
         trajectories start end_ labels fs k r3 r2 Havail Hk Hok Hfail.
  destruct (@plot_leaves_files F show can_create gnuplot_version_status
              run_gnuplot config_ true trajectories start end_ labels fs k
              Havail Hk Hok Hfail) as (Hf3 & Hd3 & Hr3).
  destruct (@plot_leaves_files F show can_create gnuplot_version_status
              run_gnuplot config_ false trajectories start end_ labels fs k
              Havail Hk Hok Hfail) as (Hf2 & Hd2 & Hr2).
  cbv zeta beta iota in Hf3, Hd3, Hr3, Hf2, Hd2, Hr2.
  split; [exact Hf3|]. split; [exact Hf2|]. split.
  - intros i Hi. split; [now apply Hd3|now apply Hd2].
  - intros p Hp. split; [now apply Hr3|now apply Hr2].
Qed.

Lemma X25_plot_leaves_data_files_witness :
  let ops := binary32_no_acos in
  let show := fun a : B32.float =>
    if B32.is_nan a then "nan"%string else "0"%string in
  let trajectories :=
    [[waypoint 0 0 100; waypoint 800 600 200]; [waypoint 0 0 100]] in
  let can_create := fun p => negb (String.eqb p "/tmp/trajectory_1.dat") in
  let r3 := Plotter.plot3D show can_create 0 (fun fs => (0%Z, fs))
              Plotter.PlotConfig0 trajectories
              (waypoint 0 0 100) (waypoint 800 600 200) [] (fun _ => None) in
  fst r3 = false
  /\ snd r3 "/tmp/trajectory_0.dat"%string
     = Some (Plotter.data_file_content show
               [waypoint 0 0 100; waypoint 800 600 200]).
Proof.
  intros ops show trajectories can_create r3.
  destruct (@X25_plot_leaves_data_files B32.float show can_create 0%Z
              (fun fs => (0%Z, fs)) Plotter.PlotConfig0 trajectories
              (waypoint 0 0 100) (waypoint 800 600 200) [] (fun _ => None) 1)
    as (Hf & _ & Hd & _).
  - reflexivity.
  - simpl. lia.
  - intros i Hi. destruct i as [|i]; [reflexivity|lia].
  - reflexivity.
  - split; [exact Hf|]. apply (Hd 0). lia.
Defined.

(** ** A number the expression does not cover *)

Section Uncovered.

Open Scope string_scope.

Lemma not_dquote_class (pre : string) :
  all_chars Regex.in_class pre = true ->
  all_chars (fun c => negb (Ascii.eqb c Regex.dquote)) pre = true.
Proof.
  apply all_chars_impl. intros c Hc. now apply negb_true_iff, in_class_not_dquote.
Qed.

Lemma span_class_stops (pre post : string) (c : ascii) :
  all_chars Regex.in_class pre = true ->
  Regex.in_class c = false ->
  Regex.span_class (pre ++ String c post) = (pre, String c post).
Proof.
  intros Hpre Hc. induction pre as [|ch pre IH]; cbn [append Regex.span_class].
  - now rewrite Hc.
  - cbn [all_chars] in Hpre. apply andb_true_iff in Hpre.
    destruct Hpre as [Hch Hpre]. rewrite Hch, IH by assumption. reflexivity.
Qed.

(** No match for ["mean"] in a document whose [mean] array holds a
    character outside the class. *)
Lemma regex_search_mean_uncovered (pre post : string) (c : ascii)
    (ss : list string) :
  all_chars Regex.in_class pre = true ->
  Regex.in_class c = false ->
  Ascii.eqb c "]" = false ->
  all_chars (fun c => negb (Ascii.eqb c Regex.dquote)) (String c post) = true ->
  is_array ss = true ->
  Regex.regex_search "mean"
    (render_document_mean_text (pre ++ String c post) ss) = None.
Proof.
  intros Hpre Hc Hbr Hpost Hs. unfold render_document_mean_text.
  change ("{" ++ ?s) with (String "{" s).
  rewrite regex_search_step by (now apply match_here_not_dquote).
  cbn [append].
  (* at the quote that opens the field: the class run stops at [c] *)
  rewrite regex_search_step.
  2:{ unfold Regex.match_here. cbn [append Regex.literal].
      rewrite !Ascii.eqb_refl. cbv beta iota.
      change (Regex.skip_spaces (String ":" ?s)) with (String ":" s).
      cbn [Regex.literal]. rewrite Ascii.eqb_refl. cbv beta iota.
      change (Regex.skip_spaces (String " " (String "[" ?s))) with (String "[" s).
      cbv beta iota. rewrite Ascii.eqb_refl. cbv beta iota.
      rewrite !append_assoc. cbn [append].
      rewrite span_class_stops by assumption.
      destruct pre; [reflexivity|].
      cbn [Regex.literal]. rewrite Ascii.eqb_sym, Hbr. reflexivity. }
  do 4 (rewrite regex_search_step by (now apply match_here_not_dquote)).
  rewrite regex_search_step by reflexivity.
  do 3 (rewrite regex_search_step by (now apply match_here_not_dquote)).
  rewrite !append_assoc.
  rewrite regex_search_skip by now apply not_dquote_class.
  rewrite regex_search_skip by assumption.
  cbn [append].
  do 3 (rewrite regex_search_step by (now apply match_here_not_dquote)).
  unfold render_field. cbn [append].
  rewrite regex_search_step by reflexivity.
  do 3 (rewrite regex_search_step by (now apply match_here_not_dquote)).
  rewrite regex_search_step by reflexivity.
  do 3 (rewrite regex_search_step by (now apply match_here_not_dquote)).
  rewrite !append_assoc.
  rewrite regex_search_skip by (apply not_dquote_class; now apply join_class).
  reflexivity.
Qed.

(** The [std] field of such a document is still found. *)
Lemma regex_search_std_uncovered (mean_text : string) (ss : list string) :
  all_chars (fun c => negb (Ascii.eqb c Regex.dquote)) mean_text = true ->
  is_array ss = true ->
  Regex.regex_search "std" (render_document_mean_text mean_text ss)
  = Some (join ss).
Proof.
  intros Htext Hs. unfold render_document_mean_text.
  change ("{" ++ ?s) with (String "{" s).
  rewrite regex_search_step by (now apply match_here_not_dquote).
  cbn [append].
  rewrite regex_search_step by reflexivity.
  do 4 (rewrite regex_search_step by (now apply match_here_not_dquote)).
  rewrite regex_search_step by reflexivity.
  do 3 (rewrite regex_search_step by (now apply match_here_not_dquote)).
  rewrite !append_assoc.
  rewrite regex_search_skip by assumption.
  cbn [append].
  do 3 (rewrite regex_search_step by (now apply match_here_not_dquote)).
  apply regex_search_here. now apply match_here_field.
Qed.

End Uncovered.

(** X26. A number the expression does not cover is not reported.  When the
    [mean] array of the normalization file holds a character outside
    [[0-9.\-\s,]], such as the [e] of [1e-05], the expression for [mean]
    matches nowhere in the file: [loadNormalization] returns [true], the
    mean stays at its default [{0,0,0}] and the standard deviation is the
    parsed one. *)
Theorem X26_uncovered_number_is_ignored :
  forall (F : Type) (ops : FloatOps F) (Session : Type)
         (read_file : string -> option string) (stof : string -> option F)
         (g : Inference.TrajectoryGenerator F Session)
         (path pre post : string) (c : ascii) (ss : list string) (vs : list F),
    read_file path
    = Some (render_document_mean_text (pre ++ String c post) ss) ->
    all_chars Regex.in_class pre = true ->
    Regex.in_class c = false ->
    Ascii.eqb c "]" = false ->
    all_chars (fun c => negb (Ascii.eqb c Regex.dquote)) (String c post) = true ->
    is_array ss = true ->
    map stof (firstn 3 ss) = map Some vs ->
    Inference.loadNormalization read_file stof g path
    = (true,
       Inference.mkGenerator (Inference.config_ g)
         (Inference.mkNorm
            (Inference.mkArray3 f0 f0 f0)
            (Inference.mkArray3 (nth 0 vs f1) (nth 1 vs f1) (nth 2 vs f1)))
         (Inference.session_ g) (Inference.rng_state_ g)).
Proof.
  intros F ops Session read_file stof g path pre post c ss vs
         Hfile Hpre Hc Hbr Hpost Hs Hvs.
  unfold Inference.loadNormalization, Inference.parseNormalizationJSON.
  rewrite Hfile. unfold Inference.parse_field.
  rewrite (@regex_search_mean_uncovered pre post c ss Hpre Hc Hbr Hpost Hs).
  cbn [bind].
  rewrite regex_search_std_uncovered; [|
    rewrite all_chars_app; rewrite (not_dquote_class _ Hpre); exact Hpost
    |exact Hs].
  rewrite getline_tokens_join by assumption.
  rewrite (@fill_array_converted F stof ss vs _ Hvs). reflexivity.
Qed.

Lemma X26_uncovered_number_is_ignored_witness :
  let ops := binary32_no_acos in
  let g := Inference.mkGenerator (Inference.GeneratorConfig_of_path "model.onnx")
             Inference.NormalizationParams0 (Some tt) 0 in
  Inference.loadNormalization
    (one_file "norm.json"
       (render_document_mean_text "1e-05, 2, 3" ["4"; " 5"; " 6"]%string))
    stof_unsigned g "norm.json"
  = (true,
     Inference.mkGenerator (Inference.GeneratorConfig_of_path "model.onnx")
       (Inference.mkNorm
          (Inference.mkArray3 f0 f0 f0)
          (Inference.mkArray3 (B32.of_Z 4) (B32.of_Z 5) (B32.of_Z 6)))
       (Some tt) 0).
Proof.
  intros ops g.
  exact (@X26_uncovered_number_is_ignored B32.float ops unit
           (one_file "norm.json"
              (render_document_mean_text "1e-05, 2, 3" ["4"; " 5"; " 6"]%string))
           stof_unsigned g "norm.json" "1" "-05, 2, 3" "e"%char
           ["4"; " 5"; " 6"]%string
           [B32.of_Z 4; B32.of_Z 5; B32.of_Z 6]
           eq_refl eq_refl eq_refl eq_refl eq_refl eq_refl eq_refl).
Defined.

(** ** binary32: a standard deviation of zero *)

Lemma SFdiv_zero_not_finite (a z : B32.float) :
  SFeqb z (S754_zero false) = true ->
  B32.is_finite (SFdiv B32.prec B32.emax a z) = false.
Proof.
  destruct z as [sz|sz| |sz mz ez]; intros Hz.
  - now destruct a.
  - now destruct sz.
  - discriminate Hz.
  - now destruct sz.
Qed.

(** X27. Nothing guards the division in [normalize].  In binary32, when a
    component of the standard deviation is zero (of either sign; the loader
    accepts it like any other number), the corresponding normalized
    coordinate of every waypoint is an infinity or NaN, never a finite
    number. *)
Theorem X27_zero_std_is_not_guarded :
  forall (acos : B32.float -> B32.float) (Session : Type)
         (g : Inference.TrajectoryGenerator B32.float Session)
         (wp : Waypoint B32.float) (i : nat),
    let ops := binary32 acos in
    i < 3 ->
    SFeqb (Inference.aget (Inference.std (Inference.norm_params_ g)) i) f0 = true ->
    B32.is_finite (Inference.aget (Inference.normalize g wp) i) = false.
Proof.
  intros acos Session g wp i ops Hi Hzero.
  change (@f0 _ ops) with (S754_zero false) in Hzero.
  unfold Inference.normalize. cbv zeta.
  destruct i as [|[|[|i]]]; [| | |lia];
    cbn [Inference.aget Inference.a0 Inference.a1 Inference.a2] in *;
    cbn [fdiv ops binary32]; now apply SFdiv_zero_not_finite.
Qed.

Lemma X27_zero_std_is_not_guarded_witness :
  let ops := binary32_no_acos in
  let g : Inference.TrajectoryGenerator B32.float unit :=
    Inference.mkGenerator (Inference.GeneratorConfig_of_path "model.onnx")
      (Inference.mkNorm
         (Inference.mkArray3 (B32.of_Z 0) (B32.of_Z 0) (B32.of_Z 0))
         (Inference.mkArray3 (B32.of_Z 1) (B32.of_Z 0) (B32.of_Z 1)))
      (Some tt) 0 in
  B32.is_finite (Inference.aget (Inference.normalize g (waypoint 800 600 200)) 1)
  = false.
Proof.
  intros ops g.
  apply (@X27_zero_std_is_not_guarded acos_not_called unit g
           (waypoint 800 600 200) 1).
  - lia.
  - reflexivity.
Defined.

(** ** Extending a trajectory *)

Lemma for_loop_snoc {S : Type} (lo hi : nat) (body : nat -> S -> S) (s : S) :
  lo <= hi ->
  for_loop lo (Datatypes.S hi) body s = body hi (for_loop lo hi body s).
Proof.
  intros Hle. unfold for_loop.
  replace (Datatypes.S hi - lo) with (Datatypes.S (hi - lo)) by lia.
  rewrite seq_S, fold_left_app. cbn [fold_left].
  replace (lo + (hi - lo)) with hi by lia. reflexivity.
Qed.

(** X28. The path length is accumulated segment by segment, whatever the
    arithmetic: appending a waypoint to a non-empty trajectory adds the
    length of the new last segment to the path length, in that order. *)
Theorem X28_path_length_of_extension :
  forall (F : Type) (ops : FloatOps F) (t : Trajectory F) (w : Waypoint F),
    t <> [] ->
    Metrics.computePathLength (t ++ [w])
    = fadd (Metrics.computePathLength t) (segment (back t) w).
Proof.
  intros F ops t w Hne.
  assert (Hlen : 1 <= length t) by (destruct t; [contradiction|simpl; lia]).
  unfold Metrics.computePathLength at 1. rewrite length_app. cbn [length].
  destruct (Nat.ltb_spec (length t + 1) 2) as [Hlt|_]; [lia|].
  replace (length t + 1 - 1) with (S (length t - 1)) by lia.
  rewrite for_loop_snoc by lia. cbv zeta.
  f_equal.
  - unfold Metrics.computePathLength.
    destruct (Nat.ltb_spec (length t) 2) as [Hshort|Hlong].
    + replace (length t - 1) with 0 by lia. reflexivity.
    + apply for_loop_ext. intros i acc Hi. cbv zeta.
      unfold at_. rewrite !app_nth1 by lia. reflexivity.
  - unfold segment, back, at_.
    assert (Hprev : nth (length t - 1) (t ++ [w]) Waypoint0
                    = nth (length t - 1) t Waypoint0) by (apply app_nth1; lia).
    assert (Hnew : nth (length t - 1 + 1) (t ++ [w]) Waypoint0 = w).
    { rewrite app_nth2 by lia.
      replace (length t - 1 + 1 - length t) with 0 by lia. reflexivity. }
    rewrite Hprev, Hnew. reflexivity.
Qed.

Lemma X28_path_length_of_extension_witness :
  let ops := binary32_no_acos in
  Metrics.computePathLength
    ([waypoint 0 0 100; waypoint 3 4 100] ++ [waypoint 3 4 112])
  = fadd (Metrics.computePathLength [waypoint 0 0 100; waypoint 3 4 100])
         (segment (back [waypoint 0 0 100; waypoint 3 4 100]) (waypoint 3 4 112)).
Proof.
  intros ops.
  apply (@X28_path_length_of_extension B32.float ops
           [waypoint 0 0 100; waypoint 3 4 100] (waypoint 3 4 112)).
  discriminate.
Defined.
